(** * Shadow renderer: cascade planning, caster culling, render state and
      VSM blur of the engine's [ShadowRenderer]

    The definitions below follow the shadow renderer source
    (getDepthRange, gauss, gaussWeights and the methods of class
    ShadowRenderer) function by function.  *)

From Stdlib Require Import Reals Lra Lia ZArith Zfloor Sorted.
From stdpp Require Import base list gmap.

(** ** JavaScript numbers

    A JavaScript number is an IEEE double.  The development idealises the
    finite doubles as real numbers (rounding and overflow are not
    modelled) and keeps the three non-finite values, so that a division
    by zero and whatever follows from it is traced as the engine computes
    it.  Zero carries no sign: a zero divisor is taken as +0 (the zero
    divisors that can arise here are squares, lengths and counts).  *)

Inductive num : Type :=
| Fin (r : R)
| PInf
| NInf
| NaN.

#[global] Instance Rlt_decision (x y : R) : Decision (x < y)%R := Rlt_dec x y.
#[global] Instance Rle_decision (x y : R) : Decision (x <= y)%R := Rle_dec x y.
#[global] Instance Req_decision : EqDecision R := Req_dec_T.

Module JS.

Local Open Scope R_scope.

Definition of_nat (n : nat) : num := Fin (INR n).

(** The sign of a non-zero real picks the infinity. *)
Definition inf_of_sign (r : R) : num :=
  if decide (r = 0) then NaN else if decide (0 < r) then PInf else NInf.

Definition neg (a : num) : num :=
  match a with
  | Fin r => Fin (- r)
  | PInf => NInf
  | NInf => PInf
  | NaN => NaN
  end.

Definition add (a b : num) : num :=
  match a, b with
  | NaN, _ | _, NaN => NaN
  | Fin x, Fin y => Fin (x + y)
  | PInf, NInf | NInf, PInf => NaN
  | PInf, _ | _, PInf => PInf
  | NInf, _ | _, NInf => NInf
  end.

Definition sub (a b : num) : num := add a (neg b).

Definition mul (a b : num) : num :=
  match a, b with
  | NaN, _ | _, NaN => NaN
  | Fin x, Fin y => Fin (x * y)
  | Fin x, PInf | PInf, Fin x => inf_of_sign x
  | Fin x, NInf | NInf, Fin x => inf_of_sign (- x)
  | PInf, PInf | NInf, NInf => PInf
  | PInf, NInf | NInf, PInf => NInf
  end.

Definition div (a b : num) : num :=
  match a, b with
  | NaN, _ | _, NaN => NaN
  | Fin x, Fin y => if decide (y = 0) then inf_of_sign x else Fin (x / y)
  | Fin _, (PInf | NInf) => Fin 0
  | PInf, Fin y => if decide (0 <= y) then PInf else NInf
  | NInf, Fin y => if decide (0 <= y) then NInf else PInf
  | (PInf | NInf), (PInf | NInf) => NaN
  end.

Definition lt (a b : num) : bool :=
  match a, b with
  | Fin x, Fin y => bool_decide (x < y)
  | NInf, (Fin _ | PInf) => true
  | Fin _, PInf => true
  | _, _ => false
  end.

Definition le (a b : num) : bool :=
  match a, b with
  | Fin x, Fin y => bool_decide (x <= y)
  | NInf, (Fin _ | PInf | NInf) => true
  | Fin _, PInf => true
  | PInf, PInf => true
  | _, _ => false
  end.

Definition gt (a b : num) : bool := lt b a.
Definition ge (a b : num) : bool := le b a.

(** Math.exp *)
Definition exp (a : num) : num :=
  match a with
  | Fin r => Fin (Rtrigo_def.exp r)
  | PInf => PInf
  | NInf => Fin 0
  | NaN => NaN
  end.

(** Math.ceil *)
Definition ceil (a : num) : num :=
  match a with
  | Fin r => Fin (IZR (Zceil r))
  | other => other
  end.

(** Math.sqrt *)
Definition sqrt (a : num) : num :=
  match a with
  | Fin r => if decide (r < 0) then NaN else Fin (R_sqrt.sqrt r)
  | PInf => PInf
  | NInf | NaN => NaN
  end.

Definition is_int (y : R) : bool := bool_decide (IZR (Zfloor y) = y).
Definition is_odd_int (y : R) : bool := is_int y && Z.odd (Zfloor y).

(** The exponentiation operator [**] (Number::exponentiate). *)
Definition pow (a b : num) : num :=
  match b with
  | NaN => NaN
  | Fin y =>
      if decide (y = 0) then Fin 1 else
      match a with
      | NaN => NaN
      | PInf => if decide (0 < y) then PInf else Fin 0
      | NInf =>
          if decide (0 < y) then (if is_odd_int y then NInf else PInf)
          else Fin 0
      | Fin x =>
          if decide (x = 0) then (if decide (0 < y) then Fin 0 else PInf)
          else if decide (0 < x) then Fin (Rpower x y)
          else if is_int y then Fin (powerRZ x (Zfloor y))
          else NaN
      end
  | PInf =>
      match a with
      | NaN => NaN
      | Fin x =>
          if decide (1 < Rabs x) then PInf
          else if decide (Rabs x = 1) then NaN else Fin 0
      | PInf | NInf => PInf
      end
  | NInf =>
      match a with
      | NaN => NaN
      | Fin x =>
          if decide (1 < Rabs x) then Fin 0
          else if decide (Rabs x = 1) then NaN else PInf
      | PInf | NInf => Fin 0
      end
  end.

End JS.

Declare Scope js_scope.
Delimit Scope js_scope with js.
Bind Scope js_scope with num.
Infix "+" := JS.add : js_scope.
Infix "-" := JS.sub : js_scope.
Infix "*" := JS.mul : js_scope.
Infix "/" := JS.div : js_scope.
Infix "**" := JS.pow (at level 30, right associativity) : js_scope.
Notation "- x" := (JS.neg x) : js_scope.

(** ** Constants of the scene (constants.js) *)

Definition LIGHTTYPE_DIRECTIONAL : Z := 0.
Definition LIGHTTYPE_OMNI : Z := 1.
Definition LIGHTTYPE_SPOT : Z := 2.

Definition SHADOW_PCF3 : Z := 0.
Definition SHADOW_VSM8 : Z := 1.
Definition SHADOW_VSM16 : Z := 2.
Definition SHADOW_VSM32 : Z := 3.
Definition SHADOW_PCF5 : Z := 4.
Definition SHADOW_PCF1 : Z := 5.
Definition SHADOW_COUNT : Z := 6.

Definition BLUR_BOX : Z := 0.
Definition BLUR_GAUSSIAN : Z := 1.

Definition SHADOWUPDATE_NONE : Z := 0.
Definition SHADOWUPDATE_THISFRAME : Z := 1.
Definition SHADOWUPDATE_REALTIME : Z := 2.

(** ** math.js helpers *)

(** Modelled from the spec: math.clamp (math.js is not among the sources),
    the value held between min and max; a NaN passes through since both
    comparisons fail on it. *)
Definition clamp (value min max : num) : num :=
  if JS.ge value max then max
  else if JS.le value min then min
  else value.

(** Modelled from the spec: math.lerp (math.js is not among the sources),
    the linear interpolation from [a] to [b] with the factor held in
    [0, 1]. *)
Definition lerp (a b alpha : num) : num :=
  (a + (b - a) * clamp alpha (Fin 0) (Fin 1))%js.

(** ** The light, as far as the shadow renderer reads and writes it

    [_isVsm], [_isPcf] and [numShadowFaces] are getters of the light;
    they are kept as fields.  *)

Record Light : Type := mkLight {
  enabled : bool;
  castShadows : bool;
  visibleThisFrame : bool;
  shadowUpdateMode : Z;
  _type : Z;
  _shadowType : Z;
  _isVsm : bool;
  _isPcf : bool;
  _vsmBlurSize : nat;
  vsmBlurMode : Z;
  _shadowResolution : nat;
  shadowBias : num;
  shadowDistance : num;
  numShadowFaces : nat;
  numCascades : nat;
  cascadeDistribution : num;
  _shadowCascadeDistances : list num
}.

Definition set_shadowUpdateMode (l : Light) (m : Z) : Light :=
  mkLight (enabled l) (castShadows l) (visibleThisFrame l) m (_type l)
    (_shadowType l) (_isVsm l) (_isPcf l) (_vsmBlurSize l) (vsmBlurMode l)
    (_shadowResolution l) (shadowBias l) (shadowDistance l)
    (numShadowFaces l) (numCascades l) (cascadeDistribution l)
    (_shadowCascadeDistances l).

Definition set_visibleThisFrame (l : Light) (v : bool) : Light :=
  mkLight (enabled l) (castShadows l) v (shadowUpdateMode l) (_type l)
    (_shadowType l) (_isVsm l) (_isPcf l) (_vsmBlurSize l) (vsmBlurMode l)
    (_shadowResolution l) (shadowBias l) (shadowDistance l)
    (numShadowFaces l) (numCascades l) (cascadeDistribution l)
    (_shadowCascadeDistances l).

Definition set_shadowCascadeDistances (l : Light) (ds : list num) : Light :=
  mkLight (enabled l) (castShadows l) (visibleThisFrame l)
    (shadowUpdateMode l) (_type l)
    (_shadowType l) (_isVsm l) (_isPcf l) (_vsmBlurSize l) (vsmBlurMode l)
    (_shadowResolution l) (shadowBias l) (shadowDistance l)
    (numShadowFaces l) (numCascades l) (cascadeDistribution l) ds.

(** ** Cascade planner: generateSplitDistances *)

(** The body of the loop of generateSplitDistances at index [i]: the
    practical split distance. *)
Definition splitDistance (light : Light) (nearDist farDist : num) (i : nat) : num :=
  let fraction := (JS.of_nat i / JS.of_nat (numCascades light))%js in
  let linearDist := (nearDist + (farDist - nearDist) * fraction)%js in
  let logDist := (nearDist * (farDist / nearDist) ** fraction)%js in
  lerp linearDist logDist (cascadeDistribution light).

(** The array of cascade distances is allocated by the light with a fixed
    length (a typed array in the engine): [fill] keeps the length and a
    write past the end is dropped.  The loop runs for i = 1 .. numCascades-1. *)
Definition generateSplitDistances (light : Light) (nearDist farDist : num) : Light :=
  let filled := replicate (length (_shadowCascadeDistances light)) farDist in
  set_shadowCascadeDistances light
    (fold_left (fun arr i => <[(i - 1)%nat := splitDistance light nearDist farDist i]> arr)
       (seq 1 (numCascades light - 1)) filled).

(** ** Blur weights: gauss and gaussWeights *)

Definition gauss (x sigma : num) : num :=
  JS.exp (- (x * x) / (Fin 2 * sigma * sigma))%js.

Definition maxBlurSize : nat := 25.

(** First loop of gaussWeights: fills [values] and accumulates [sum]. *)
Definition gaussFill (kernelSize : nat) (sigma halfWidth : num) : list num * num :=
  fold_left
    (fun '(values, sum) i =>
       let v := gauss (JS.of_nat i - halfWidth)%js sigma in
       (values ++ [v], (sum + v)%js))
    (seq 0 kernelSize) ([], Fin 0).

Definition gaussWeights (kernelSize : nat) : list num :=
  let kernelSize := if (maxBlurSize <? kernelSize)%nat then maxBlurSize else kernelSize in
  let sigma := ((JS.of_nat kernelSize - Fin 1) / (Fin 2 * Fin 3))%js in
  let halfWidth := ((JS.of_nat kernelSize - Fin 1) * Fin 0.5)%js in
  let '(values, sum) := gaussFill kernelSize sigma halfWidth in
  map (fun v => (v / sum)%js) values.

(** ** Vectors *)

Record Vec3 : Type := mkVec3 { x : num; y : num; z : num }.

(** Modelled from the spec: the methods of Vec3 (math/vec3.js is not among
    the sources), the componentwise operations, the dot product and the
    Euclidean length. *)
Module Vec3.
Definition add (a b : Vec3) : Vec3 :=
  mkVec3 (x a + x b)%js (y a + y b)%js (z a + z b)%js.
Definition sub (a b : Vec3) : Vec3 :=
  mkVec3 (x a - x b)%js (y a - y b)%js (z a - z b)%js.
Definition mulScalar (a : Vec3) (s : num) : Vec3 :=
  mkVec3 (x a * s)%js (y a * s)%js (z a * s)%js.
Definition dot (a b : Vec3) : num :=
  (x a * x b + y a * y b + z a * z b)%js.
Definition length (a : Vec3) : num :=
  JS.sqrt (x a * x a + y a * y a + z a * z a)%js.
End Vec3.

(** ** The scene graph and math library the renderer calls into

    Matrices, graph nodes, bounding boxes, the viewer camera and the
    forward renderer's services are not part of the shadow renderer; they
    are taken as an interface.  Mutating methods return the new value. *)

Class Engine : Type := {
  Mat4 : Type;
  Quat : Type;
  GraphNode : Type;
  BoundingBox : Type;
  Camera : Type;
  (* Mat4 *)
  transformPoint : Mat4 -> Vec3 -> Vec3;
  mat4_invert : Mat4 -> Mat4;
  (* GraphNode *)
  getPosition : GraphNode -> Vec3;
  getRotation : GraphNode -> Quat;
  setPosition : GraphNode -> Vec3 -> GraphNode;
  setRotation : GraphNode -> Quat -> GraphNode;
  rotateLocal : GraphNode -> num -> num -> num -> GraphNode;
  translateLocal : GraphNode -> num -> num -> num -> GraphNode;
  getWorldTransform : GraphNode -> Mat4;
  node_right : GraphNode -> Vec3;
  node_up : GraphNode -> Vec3;
  node_forward : GraphNode -> Vec3;
  (* BoundingBox *)
  bb_add : BoundingBox -> BoundingBox -> BoundingBox;
  bb_getMin : BoundingBox -> Vec3;
  bb_getMax : BoundingBox -> Vec3;
  (* viewer camera; Frustum.getPoints returns the 8 corners of a slice *)
  camera_nearClip : Camera -> num;
  camera_node : Camera -> GraphNode;
  frustum_getPoints : Camera -> num -> num -> list Vec3
}.

(** ** Depth range of a box in camera space: getDepthRange *)

Record DepthRange : Type := mkDepthRange { dr_min : num; dr_max : num }.

(** The eight scratch points as the six assignment lines leave them. *)
Definition aabbCorners (aabbMin aabbMax : Vec3) : list Vec3 :=
  [ mkVec3 (x aabbMin) (y aabbMax) (z aabbMax);
    mkVec3 (x aabbMin) (y aabbMin) (z aabbMax);
    mkVec3 (x aabbMin) (y aabbMax) (z aabbMin);
    mkVec3 (x aabbMin) (y aabbMin) (z aabbMin);
    mkVec3 (x aabbMax) (y aabbMax) (z aabbMax);
    mkVec3 (x aabbMax) (y aabbMin) (z aabbMax);
    mkVec3 (x aabbMax) (y aabbMax) (z aabbMin);
    mkVec3 (x aabbMax) (y aabbMin) (z aabbMin) ].

Definition minz0 : num := Fin 9999999999.
Definition maxz0 : num := Fin (-9999999999).

(** One turn of the scan: [if (z < minz) minz = z; if (z > maxz) maxz = z]. *)
Definition depthStep (acc : num * num) (zv : num) : num * num :=
  let '(minz, maxz) := acc in
  (if JS.lt zv minz then zv else minz, if JS.gt zv maxz then zv else maxz).

Definition getDepthRange `{Engine} (cameraViewMatrix : Mat4) (aabbMin aabbMax : Vec3)
  : DepthRange :=
  let zs := map (fun p => z (transformPoint cameraViewMatrix p))
                (aabbCorners aabbMin aabbMax) in
  let '(minz, maxz) := fold_left depthStep zs (minz0, maxz0) in
  mkDepthRange minz maxz.

(** ** Casters, shadow cameras and per-face render data *)

Record MeshInstance `{Engine} : Type := mkMeshInstance {
  meshId : nat;
  cull : bool;
  aabb : BoundingBox
}.

(** The shadow camera, as far as culling reads and writes it. *)
Record ShadowCamera `{Engine} : Type := mkShadowCamera {
  _node : GraphNode;
  nearClip : num;
  farClip : num;
  orthoHeight : num
}.

Record LightRenderData `{Engine} : Type := mkLightRenderData {
  shadowCamera : ShadowCamera;
  visibleCasters : list MeshInstance
}.

(** What the shadow renderer consumes from the forward renderer: the
    visibility test of a mesh instance against a camera whose frustum is
    up to date, and the comparator of the depth sort (its sign is what
    Array.prototype.sort reads). *)
Class ForwardRenderer `{Engine} : Type := {
  _isVisible : MeshInstance -> ShadowCamera -> bool;
  depthSortCompare : MeshInstance -> MeshInstance -> Z
}.

(** ** Arrays *)

(** [arr[i] = v] on a plain array for an index up to its length: an
    existing slot is overwritten, the slot one past the end is appended.
    The culling loop never writes further out. *)
Definition array_set {A} (arr : list A) (i : nat) (v : A) : list A :=
  if decide (i < length arr)%nat then <[i := v]> arr else arr ++ [v].

(** Array.prototype.sort is stable: insertion after the last element that
    does not compare greater. *)
Fixpoint sort_insert {A} (cmp : A -> A -> Z) (a : A) (l : list A) : list A :=
  match l with
  | [] => [a]
  | b :: l' => if decide (cmp b a <= 0)%Z then b :: sort_insert cmp a l'
               else a :: b :: l'
  end.

Definition array_sort {A} (cmp : A -> A -> Z) (l : list A) : list A :=
  fold_left (fun sorted a => sort_insert cmp a sorted) l [].

(** ** Shadow culler: cullShadowCasters *)

(** State of the culling loop: the [visible] array, [count], and the
    instances whose visibleThisFrame flag was raised, in order. *)
Record CullState `{Engine} : Type := mkCullState {
  cs_visible : list MeshInstance;
  cs_count : nat;
  cs_flagged : list MeshInstance
}.

Definition cullStep `{ForwardRenderer} (camera : ShadowCamera)
    (st : CullState) (meshInstance : MeshInstance) : CullState :=
  if negb (cull meshInstance) || _isVisible meshInstance camera then
    {| cs_visible := array_set (cs_visible st) (cs_count st) meshInstance;
       cs_count := S (cs_count st);
       cs_flagged := cs_flagged st ++ [meshInstance] |}
  else st.

(** Returns the new content of [visible] and the instances flagged
    visibleThisFrame. *)
Definition cullShadowCasters `{ForwardRenderer}
    (meshInstances visible : list MeshInstance) (camera : ShadowCamera)
  : list MeshInstance * list MeshInstance :=
  let st := fold_left (cullStep camera) meshInstances
              {| cs_visible := visible; cs_count := 0; cs_flagged := [] |} in
  (array_sort depthSortCompare (take (cs_count st) (cs_visible st)), cs_flagged st).

(** ** Cascade planner: cullDirectional *)

(** World-space corners of the frustum slice and their mean: the loop
    that transforms each corner and adds it to [center], then the scale
    by 1/8.  [center] is reset first, so its former content is not read. *)
Definition frustumCenter `{Engine} (cameraWorldMat : Mat4) (frustumPoints : list Vec3)
  : list Vec3 * Vec3 :=
  let '(points, center) :=
    fold_left
      (fun '(points, center) p =>
         let p' := transformPoint cameraWorldMat p in
         (points ++ [p'], Vec3.add center p'))
      frustumPoints ([], mkVec3 (Fin 0) (Fin 0) (Fin 0)) in
  (points, Vec3.mulScalar center (Fin 1 / Fin 8)%js).

(** Radius of the bounding sphere: the largest corner-to-center distance. *)
Definition frustumRadius (points : list Vec3) (center : Vec3) : num :=
  fold_left
    (fun radius p =>
       let dist := Vec3.length (Vec3.sub p center) in
       if JS.gt dist radius then dist else radius)
    points (Fin 0).

(** The texel snap of the sphere center in the light's axes. *)
Definition snapCenter (center up right lightDir : Vec3)
    (shadowResolution : nat) (radius : num) : Vec3 :=
  let sizeRatio := (Fin 0.25 * JS.of_nat shadowResolution / radius)%js in
  let x := (JS.ceil (Vec3.dot center up * sizeRatio) / sizeRatio)%js in
  let y := (JS.ceil (Vec3.dot center right * sizeRatio) / sizeRatio)%js in
  let scaledUp := Vec3.mulScalar up x in
  let scaledRight := Vec3.mulScalar right y in
  let dot := Vec3.dot center lightDir in
  let scaledDir := Vec3.mulScalar lightDir dot in
  Vec3.add (Vec3.add scaledUp scaledRight) scaledDir.

(** [arr[i]] read as a number: a missing slot is undefined, NaN in
    arithmetic. *)
Definition array_get (arr : list num) (i : nat) : num := default NaN (arr !! i).

(** The shadow camera of a cascade as it stands when the casters are
    culled: oriented as the light, centred on the snapped sphere center
    and moved back by 1000000. *)
Definition cascadeCullCamera `{Engine} (light : Light) (lightNode : GraphNode)
    (camera : Camera) (nearDist : num) (shadowCam : ShadowCamera) (cascade : nat)
  : ShadowCamera :=
  let shadowCamNode := _node shadowCam in
  let shadowCamNode := setPosition shadowCamNode (getPosition lightNode) in
  let shadowCamNode := setRotation shadowCamNode (getRotation lightNode) in
  let shadowCamNode := rotateLocal shadowCamNode (Fin (-90)) (Fin 0) (Fin 0) in
  let frustumNearDist :=
    if decide (cascade = 0%nat) then nearDist
    else array_get (_shadowCascadeDistances light) (cascade - 1) in
  let frustumFarDist := array_get (_shadowCascadeDistances light) cascade in
  let frustumPoints := frustum_getPoints camera frustumNearDist frustumFarDist in
  let cameraWorldMat := getWorldTransform (camera_node camera) in
  let '(points, center) := frustumCenter cameraWorldMat frustumPoints in
  let radius := frustumRadius points center in
  let right := node_right shadowCamNode in
  let up := node_up shadowCamNode in
  let lightDir := node_forward shadowCamNode in
  let center := snapCenter center up right lightDir (_shadowResolution light) radius in
  let shadowCamNode := setPosition shadowCamNode center in
  let shadowCamNode := translateLocal shadowCamNode (Fin 0) (Fin 0) (Fin 1000000) in
  {| _node := shadowCamNode; nearClip := Fin 0; farClip := Fin 2000000;
     orthoHeight := radius |}.

(** The loop over the visible casters: the first one overwrites the
    module-level box [visibleSceneAabb], the others are added to it. *)
Definition accumulateAabb `{Engine} (visibleSceneAabb : BoundingBox)
    (visibleCasters : list MeshInstance) : BoundingBox :=
  snd (fold_left
         (fun '(emptyAabb, box) meshInstance =>
            if emptyAabb : bool then (false, aabb meshInstance)
            else (false, bb_add box (aabb meshInstance)))
         visibleCasters (true, visibleSceneAabb)).

(** The last step of a cascade: the depth range of the box seen from the
    shadow camera moves the camera and sets its far plane. *)
Definition tightenDepthRange `{Engine} (shadowCam : ShadowCamera)
    (visibleSceneAabb : BoundingBox) : ShadowCamera :=
  let shadowCamNode := _node shadowCam in
  let shadowCamView := mat4_invert (getWorldTransform shadowCamNode) in
  let depthRange :=
    getDepthRange shadowCamView (bb_getMin visibleSceneAabb) (bb_getMax visibleSceneAabb) in
  {| _node := translateLocal shadowCamNode (Fin 0) (Fin 0)
                (dr_max depthRange + Fin 0.1)%js;
     nearClip := nearClip shadowCam;
     farClip := (dr_max depthRange - dr_min depthRange + Fin 0.2)%js;
     orthoHeight := orthoHeight shadowCam |}.

(** Module-level and per-light state that cullDirectional threads through
    the cascades: the render data of each cascade (for the viewer camera
    at hand), the shared box, and the flagged instances. *)
Record CullDirState `{Engine} : Type := mkCullDirState {
  renderData : nat -> LightRenderData;
  visibleSceneAabb : BoundingBox;
  flagged : list MeshInstance
}.

Definition store_set {A} (f : nat -> A) (i : nat) (v : A) : nat -> A :=
  fun j => if decide (j = i) then v else f j.

(** One turn of the cascade loop.  The assignments of the render target
    and of the viewport and scissor rectangles bear neither on the camera
    placement nor on the caster list and are left out, as is the lazy
    creation of the shadow map. *)
Definition cullDirectionalCascade `{ForwardRenderer} (light : Light)
    (lightNode : GraphNode) (drawCalls : list MeshInstance) (camera : Camera)
    (nearDist : num) (st : CullDirState) (cascade : nat) : CullDirState :=
  let lightRenderData := renderData st cascade in
  let shadowCam :=
    cascadeCullCamera light lightNode camera nearDist
      (shadowCamera lightRenderData) cascade in
  let '(visible, marked) :=
    cullShadowCasters drawCalls (visibleCasters lightRenderData) shadowCam in
  let box := accumulateAabb (visibleSceneAabb st) visible in
  let shadowCam := tightenDepthRange shadowCam box in
  {| renderData :=
       store_set (renderData st) cascade
         {| shadowCamera := shadowCam; visibleCasters := visible |};
     visibleSceneAabb := box;
     flagged := flagged st ++ marked |}.

Definition cullDirectional `{ForwardRenderer} (light : Light)
    (lightNode : GraphNode) (drawCalls : list MeshInstance) (camera : Camera)
    (st : CullDirState) : Light * CullDirState :=
  let light := set_visibleThisFrame light true in
  let nearDist := camera_nearClip camera in
  let light := generateSplitDistances light nearDist (shadowDistance light) in
  (light,
   fold_left (cullDirectionalCascade light lightNode drawCalls camera nearDist)
     (seq 0 (numCascades light)) st).

(** ** Graphics device and renderer state *)

(** Modelled from the spec: FUNC_LESSEQUAL (graphics/constants.js is not
    among the sources), the less-or-equal depth comparator. *)
Definition FUNC_LESSEQUAL : Z := 3.

(** Modelled from the spec: the graphics device (not among the sources),
    two capability flags and the render state its setters store. *)
Record Device : Type := mkDevice {
  webgl2 : bool;
  extStandardDerivatives : bool;
  depthBias : bool;
  depthBiasValues : num * num;
  blending : bool;
  depthWrite : bool;
  depthTest : bool;
  depthFunc : Z;
  colorWrite : bool * bool * bool * bool
}.

Definition setDepthBias (d : Device) (on : bool) : Device :=
  mkDevice (webgl2 d) (extStandardDerivatives d) on (depthBiasValues d)
    (blending d) (depthWrite d) (depthTest d) (depthFunc d) (colorWrite d).
Definition setDepthBiasValues (d : Device) (constBias slopeBias : num) : Device :=
  mkDevice (webgl2 d) (extStandardDerivatives d) (depthBias d) (constBias, slopeBias)
    (blending d) (depthWrite d) (depthTest d) (depthFunc d) (colorWrite d).
Definition setBlending (d : Device) (on : bool) : Device :=
  mkDevice (webgl2 d) (extStandardDerivatives d) (depthBias d) (depthBiasValues d)
    on (depthWrite d) (depthTest d) (depthFunc d) (colorWrite d).
Definition setDepthWrite (d : Device) (on : bool) : Device :=
  mkDevice (webgl2 d) (extStandardDerivatives d) (depthBias d) (depthBiasValues d)
    (blending d) on (depthTest d) (depthFunc d) (colorWrite d).
Definition setDepthTest (d : Device) (on : bool) : Device :=
  mkDevice (webgl2 d) (extStandardDerivatives d) (depthBias d) (depthBiasValues d)
    (blending d) (depthWrite d) on (depthFunc d) (colorWrite d).
Definition setDepthFunc (d : Device) (func : Z) : Device :=
  mkDevice (webgl2 d) (extStandardDerivatives d) (depthBias d) (depthBiasValues d)
    (blending d) (depthWrite d) (depthTest d) func (colorWrite d).
Definition setColorWrite (d : Device) (r g b a : bool) : Device :=
  mkDevice (webgl2 d) (extStandardDerivatives d) (depthBias d) (depthBiasValues d)
    (blending d) (depthWrite d) (depthTest d) (depthFunc d) (r, g, b, a).

(** A shadow map and its render targets. *)
Record ShadowMap : Type := mkShadowMap { sm_id : nat; sm_resolution : nat }.

Inductive RenderTarget : Type :=
| renderTargets (shadowMap : ShadowMap) (index : nat).

(** What the renderer sends to the device, in order. *)
Inductive Event : Type :=
| EvSetupRenderState
| EvFace (face : nat) (light : Light)
| EvCacheGet (shadowMap : ShadowMap)
| EvDrawQuad (target source : RenderTarget) (pixelOffset : num * num)
    (weight : option (list num)) (scissor : num * num * num * num)
| EvCacheAdd (shadowMap : ShadowMap)
| EvRestoreRenderState.

(** The fields of the ShadowRenderer instance and of the forward renderer
    it holds.  [polygonOffsetId] tells whether the uniform was given the
    [polygonOffset] array (it then reads the array's current content);
    [allocated] counts the shadow maps created so far. *)
Record ShadowRenderer : Type := mkShadowRenderer {
  device : Device;
  clusteredLightingEnabled : bool;
  polygonOffset : num * num;
  polygonOffsetId : bool;
  blurVsmShader : gset (Z * nat);
  blurPackedVsmShader : gset (Z * nat);
  blurVsmWeights : gmap nat (list num);
  weightId : option (list num);
  shadowMapCache : gmap nat (list ShadowMap);
  allocated : nat;
  _shadowMapUpdates : nat;
  trace : list Event
}.

Definition with_device (r : ShadowRenderer) (d : Device) : ShadowRenderer :=
  mkShadowRenderer d (clusteredLightingEnabled r) (polygonOffset r)
    (polygonOffsetId r) (blurVsmShader r) (blurPackedVsmShader r)
    (blurVsmWeights r) (weightId r) (shadowMapCache r) (allocated r)
    (_shadowMapUpdates r) (trace r).
Definition with_polygonOffset (r : ShadowRenderer) (v : num * num) : ShadowRenderer :=
  mkShadowRenderer (device r) (clusteredLightingEnabled r) v
    true (blurVsmShader r) (blurPackedVsmShader r)
    (blurVsmWeights r) (weightId r) (shadowMapCache r) (allocated r)
    (_shadowMapUpdates r) (trace r).
Definition with_blur (r : ShadowRenderer) (plain packed : gset (Z * nat))
    (weights : gmap nat (list num)) : ShadowRenderer :=
  mkShadowRenderer (device r) (clusteredLightingEnabled r) (polygonOffset r)
    (polygonOffsetId r) plain packed weights (weightId r) (shadowMapCache r)
    (allocated r) (_shadowMapUpdates r) (trace r).
Definition with_weightId (r : ShadowRenderer) (w : option (list num)) : ShadowRenderer :=
  mkShadowRenderer (device r) (clusteredLightingEnabled r) (polygonOffset r)
    (polygonOffsetId r) (blurVsmShader r) (blurPackedVsmShader r)
    (blurVsmWeights r) w (shadowMapCache r) (allocated r)
    (_shadowMapUpdates r) (trace r).
Definition with_cache (r : ShadowRenderer) (c : gmap nat (list ShadowMap))
    (n : nat) : ShadowRenderer :=
  mkShadowRenderer (device r) (clusteredLightingEnabled r) (polygonOffset r)
    (polygonOffsetId r) (blurVsmShader r) (blurPackedVsmShader r)
    (blurVsmWeights r) (weightId r) c n (_shadowMapUpdates r) (trace r).
Definition with_shadowMapUpdates (r : ShadowRenderer) (n : nat) : ShadowRenderer :=
  mkShadowRenderer (device r) (clusteredLightingEnabled r) (polygonOffset r)
    (polygonOffsetId r) (blurVsmShader r) (blurPackedVsmShader r)
    (blurVsmWeights r) (weightId r) (shadowMapCache r) (allocated r) n (trace r).
Definition emit (r : ShadowRenderer) (e : Event) : ShadowRenderer :=
  mkShadowRenderer (device r) (clusteredLightingEnabled r) (polygonOffset r)
    (polygonOffsetId r) (blurVsmShader r) (blurPackedVsmShader r)
    (blurVsmWeights r) (weightId r) (shadowMapCache r) (allocated r)
    (_shadowMapUpdates r) (trace r ++ [e]).

(** ** Render-state sequencer: setupRenderState and restoreRenderState *)

Definition setupRenderState (r : ShadowRenderer) (light : Light) : ShadowRenderer :=
  let isClustered := clusteredLightingEnabled r in
  let dev := device r in
  (* depth bias *)
  let r :=
    if webgl2 dev then
      if (_type light =? LIGHTTYPE_OMNI)%Z && negb isClustered then
        with_device r (setDepthBias dev false)
      else
        let dev := setDepthBias dev true in
        with_device r
          (setDepthBiasValues dev (shadowBias light * Fin (-1000.0))%js
                                  (shadowBias light * Fin (-1000.0))%js)
    else if extStandardDerivatives dev then
      if (_type light =? LIGHTTYPE_OMNI)%Z then
        with_polygonOffset r (Fin 0, Fin 0)
      else
        with_polygonOffset r ((shadowBias light * Fin (-1000.0))%js,
                              (shadowBias light * Fin (-1000.0))%js)
    else r in
  (* standard shadowmap states *)
  let dev := device r in
  let dev := setBlending dev false in
  let dev := setDepthWrite dev true in
  let dev := setDepthTest dev true in
  let dev := setDepthFunc dev FUNC_LESSEQUAL in
  let useShadowSampler :=
    if isClustered then _isPcf light && webgl2 dev
    else _isPcf light && webgl2 dev && negb (_type light =? LIGHTTYPE_OMNI)%Z in
  let dev :=
    if useShadowSampler then setColorWrite dev false false false false
    else setColorWrite dev true true true true in
  emit (with_device r dev) EvSetupRenderState.

Definition restoreRenderState (r : ShadowRenderer) : ShadowRenderer :=
  let dev := device r in
  let r :=
    if webgl2 dev then with_device r (setDepthBias dev false)
    else if extStandardDerivatives dev then with_polygonOffset r (Fin 0, Fin 0)
    else r in
  emit r EvRestoreRenderState.

(** ** Temporary buffer pool: ShadowMapCache *)

(** Modelled from the spec: ShadowMapCache (shadow-map-cache.js is not
    among the sources), a pool of scratch shadow maps keyed by
    resolution.  [get] returns a pooled entry of the light's resolution
    or allocates a new one; [add] returns an entry to the free set. *)
Module ShadowMapCache.
Definition getKey (light : Light) : nat := _shadowResolution light.

Definition get (r : ShadowRenderer) (light : Light) : ShadowMap * ShadowRenderer :=
  let key := getKey light in
  match shadowMapCache r !! key with
  | Some (shadowMap :: rest) =>
      (shadowMap, with_cache r (<[key := rest]> (shadowMapCache r)) (allocated r))
  | _ =>
      (mkShadowMap (allocated r) (_shadowResolution light),
       with_cache r (shadowMapCache r) (S (allocated r)))
  end.

Definition add (r : ShadowRenderer) (light : Light) (shadowMap : ShadowMap)
  : ShadowRenderer :=
  let key := getKey light in
  with_cache r
    (<[key := shadowMap :: default [] (shadowMapCache r !! key)]> (shadowMapCache r))
    (allocated r).
End ShadowMapCache.

(** ** VSM blur stage: getVsmBlurShader and applyVsmBlur *)

(** The shader itself is an opaque handle; what is kept is which
    (blurMode, filterSize) entries exist and the weights computed when an
    entry is created. *)
Definition getVsmBlurShader (r : ShadowRenderer) (isVsm8 : bool) (blurMode : Z)
    (filterSize : nat) : ShadowRenderer :=
  let shaders := if isVsm8 then blurPackedVsmShader r else blurVsmShader r in
  if decide ((blurMode, filterSize) ∈ shaders) then r
  else
    let weights := <[filterSize := gaussWeights filterSize]> (blurVsmWeights r) in
    if isVsm8 then
      with_blur r (blurVsmShader r) ({[ (blurMode, filterSize) ]} ∪ blurPackedVsmShader r) weights
    else
      with_blur r ({[ (blurMode, filterSize) ]} ∪ blurVsmShader r) (blurPackedVsmShader r) weights.

(** [origShadowMap] is the render target of the shadow camera of face 0,
    read from the light's render data. *)
Definition applyVsmBlur (r : ShadowRenderer) (light : Light)
    (origShadowMap : RenderTarget) : ShadowRenderer :=
  (* temporary render target for blurring *)
  let '(tempShadowMap, r) := ShadowMapCache.get r light in
  let r := emit r (EvCacheGet tempShadowMap) in
  let tempRt := renderTargets tempShadowMap 0 in
  let isVsm8 := (_shadowType light =? SHADOW_VSM8)%Z in
  let blurMode := vsmBlurMode light in
  let filterSize := _vsmBlurSize light in
  let r := getVsmBlurShader r isVsm8 blurMode filterSize in
  let scissor_z := (JS.of_nat (_shadowResolution light) - Fin 2)%js in
  let blurScissorRect := (Fin 1, Fin 1, scissor_z, scissor_z) in
  (* blur horizontal *)
  let pixelOffset := ((Fin 1 / JS.of_nat (_shadowResolution light))%js, Fin 0) in
  let r :=
    if (blurMode =? BLUR_GAUSSIAN)%Z
    then with_weightId r (blurVsmWeights r !! filterSize) else r in
  let r := emit r (EvDrawQuad tempRt origShadowMap pixelOffset (weightId r) blurScissorRect) in
  (* blur vertical *)
  let pixelOffset := (Fin 0, fst pixelOffset) in
  let r := emit r (EvDrawQuad origShadowMap tempRt pixelOffset (weightId r) blurScissorRect) in
  (* return the temporary shadow map back to the cache *)
  let r := ShadowMapCache.add r light tempShadowMap in
  emit r (EvCacheAdd tempShadowMap).

(** ** ShadowRenderer.render *)

(** One turn of the face loop: camera settings, uniforms and the
    submission of the face's visible casters for [light]. *)
Definition renderFace (light : Light) (r : ShadowRenderer) (face : nat) : ShadowRenderer :=
  emit r (EvFace face light).

Definition render (r : ShadowRenderer) (light : Light) (origShadowMap : RenderTarget)
  : ShadowRenderer * Light :=
  if enabled light && castShadows light
     && negb (shadowUpdateMode light =? SHADOWUPDATE_NONE)%Z
     && visibleThisFrame light
  then
    let light :=
      if (shadowUpdateMode light =? SHADOWUPDATE_THISFRAME)%Z
      then set_shadowUpdateMode light SHADOWUPDATE_NONE else light in
    let type := _type light in
    let faceCount := numShadowFaces light in
    let r := with_shadowMapUpdates r (_shadowMapUpdates r + faceCount) in
    let isClustered := clusteredLightingEnabled r in
    let r := setupRenderState r light in
    let r := fold_left (renderFace light) (seq 0 faceCount) r in
    (* VSM blur *)
    let r :=
      if _isVsm light && (1 <? _vsmBlurSize light)%nat then
        (* all non-clustered and directional lights support vsm *)
        let isClustered := clusteredLightingEnabled r in
        if negb isClustered || (type =? LIGHTTYPE_DIRECTIONAL)%Z
        then applyVsmBlur r light origShadowMap else r
      else r in
    (restoreRenderState r, light)
  else (r, light).

(** ** Reference functions on the reals and concrete scenes *)

Section RealReference.
Local Open Scope R_scope.

(** The factor of [lerp] on a finite number. *)
Definition unit_clamp (d : R) : R :=
  if decide (1 <= d) then 1 else if decide (d <= 0) then 0 else d.

(** The split the engine stores for index [i], on finite inputs with
    0 < N < F, as a real number. *)
Definition splitR (N F d : R) (C i : nat) : R :=
  let linear := N + (F - N) * (INR i / INR C) in
  let log := N * Rpower (F / N) (INR i / INR C) in
  linear + (log - linear) * unit_clamp d.

(** The far bound of cascade [j] (slot [j] of the array) as a real
    number: the split of index j+1, and F for the last cascade. *)
Definition cascadeFarR (N F d : R) (C j : nat) : R :=
  if decide (j < C - 1)%nat then splitR N F d C (S j) else F.

(** The practical split at a real position t in [0, 1]. *)
Definition splitAt (N F u t : R) : R :=
  let linear := N + (F - N) * t in
  let log := N * Rpower (F / N) t in
  linear + (log - linear) * u.

(** The light of the spec's example: 4 cascades, distribution 0.5,
    shadow distance 1000.1. *)
Definition exampleLight : Light :=
  mkLight true true true SHADOWUPDATE_REALTIME LIGHTTYPE_DIRECTIONAL SHADOW_PCF3
    false true 1 BLUR_GAUSSIAN 1024 (Fin 0.05) (Fin 1000.1) 4 4 (Fin 0.5)
    (replicate 4 (Fin 0)).

Definition exampleSplits : list num :=
  _shadowCascadeDistances (generateSplitDistances exampleLight (Fin 0.1) (Fin 1000.1)).

(** The same light with far distance 1000, for which F/N is 10000. *)
Definition roundSplits : list num :=
  _shadowCascadeDistances (generateSplitDistances exampleLight (Fin 0.1) (Fin 1000)).

(** The quantities of gaussWeights on the reals. *)
Definition sigmaR (k : nat) : R := (INR k - 1) / (2 * 3).
Definition halfWidthR (k : nat) : R := (INR k - 1) * 0.5.
Definition gaussR (t sigma : R) : R := exp (- (t * t) / (2 * sigma * sigma)).
Definition weightR (k i : nat) : R := gaussR (INR i - halfWidthR k) (sigmaR k).
Definition Rsum (l : list R) : R := fold_left Rplus l 0.

Definition kernelWeights (k : nat) : list R := map (weightR k) (seq 0 k).

End RealReference.

(** The test of the culling loop. *)
Definition casterPasses `{ForwardRenderer} (camera : ShadowCamera)
    (meshInstance : MeshInstance) : bool :=
  negb (cull meshInstance) || _isVisible meshInstance camera.

(** ** A concrete scene: axis-aligned nodes

    An instance of the interface in which every node keeps the identity
    rotation: a node is its position, a world matrix is a translation, a
    bounding box is its two extreme corners.  The concrete cases below
    are evaluated in it. *)

(** A vector with finite components. *)
Definition vec3 (a b c : R) : Vec3 := mkVec3 (Fin a) (Fin b) (Fin c).

Module Flat.
Definition vmin (a b : num) : num := if JS.lt b a then b else a.
Definition vmax (a b : num) : num := if JS.gt b a then b else a.

Definition engine : Engine := {|
  Mat4 := Vec3;
  Quat := unit;
  GraphNode := Vec3;
  BoundingBox := Vec3 * Vec3;
  Camera := num * Vec3;
  transformPoint := fun t p => Vec3.add p t;
  mat4_invert := fun t => mkVec3 (- x t)%js (- y t)%js (- z t)%js;
  getPosition := fun n => n;
  getRotation := fun _ => tt;
  setPosition := fun _ p => p;
  setRotation := fun n _ => n;
  rotateLocal := fun n _ _ _ => n;
  translateLocal := fun n a b c => Vec3.add n (mkVec3 a b c);
  getWorldTransform := fun n => n;
  node_right := fun _ => mkVec3 (Fin 1) (Fin 0) (Fin 0);
  node_up := fun _ => mkVec3 (Fin 0) (Fin 1) (Fin 0);
  node_forward := fun _ => mkVec3 (Fin 0) (Fin 0) (Fin (-1));
  bb_add := fun a b =>
    (mkVec3 (vmin (x (fst a)) (x (fst b))) (vmin (y (fst a)) (y (fst b)))
            (vmin (z (fst a)) (z (fst b))),
     mkVec3 (vmax (x (snd a)) (x (snd b))) (vmax (y (snd a)) (y (snd b)))
            (vmax (z (snd a)) (z (snd b))));
  bb_getMin := fst;
  bb_getMax := snd;
  camera_nearClip := fst;
  camera_node := snd;
  frustum_getPoints := fun _ near far =>
    [ mkVec3 (Fin 1) (Fin 1) (- near)%js; mkVec3 (Fin (-1)) (Fin 1) (- near)%js;
      mkVec3 (Fin 1) (Fin (-1)) (- near)%js; mkVec3 (Fin (-1)) (Fin (-1)) (- near)%js;
      mkVec3 (Fin 1) (Fin 1) (- far)%js; mkVec3 (Fin (-1)) (Fin 1) (- far)%js;
      mkVec3 (Fin 1) (Fin (-1)) (- far)%js; mkVec3 (Fin (-1)) (Fin (-1)) (- far)%js ]
|}.

(** The visibility test: the box meets the orthographic volume of the
    camera, which looks down -z from its position. *)
Definition isVisible (m : @MeshInstance engine) (cam : @ShadowCamera engine) : bool :=
  let c : Vec3 := @_node engine cam in
  let lo : Vec3 := fst (@aabb engine m) in
  let hi : Vec3 := snd (@aabb engine m) in
  JS.le (z lo) (z c - @nearClip engine cam)%js
  && JS.le (z c - @farClip engine cam)%js (z hi)
  && JS.le (x lo) (x c + @orthoHeight engine cam)%js
  && JS.le (x c - @orthoHeight engine cam)%js (x hi)
  && JS.le (y lo) (y c + @orthoHeight engine cam)%js
  && JS.le (y c - @orthoHeight engine cam)%js (y hi).

Definition renderer : @ForwardRenderer engine := {|
  _isVisible := isVisible;
  depthSortCompare := fun a b =>
    (Z.of_nat (@meshId engine b) - Z.of_nat (@meshId engine a))%Z
|}.

(** A shadow camera at the origin: near 0, far 10, half-height 1. *)
Definition originCamera : @ShadowCamera engine :=
  @mkShadowCamera engine (vec3 0 0 0) (Fin 0) (Fin 10) (Fin 1).

(** A caster behind and beside that camera, marked non-culling. *)
Definition strayCaster : @MeshInstance engine :=
  @mkMeshInstance engine 7 false (vec3 5 5 5, vec3 6 6 6).

(** A caster marked non-culling, 3e10 units up the z axis. *)
Definition remoteCaster : @MeshInstance engine :=
  @mkMeshInstance engine 9 false (vec3 0 0 30000000000, vec3 0 0 30000000000).
End Flat.

Section SnapReference.
Local Open Scope R_scope.

(** [Math.ceil(p * s) / s] on the reals. *)
Definition snapR (p s : R) : R := IZR (Zceil (p * s)) / s.

End SnapReference.

(** The placement of a graph node without a parent is its position and
    rotation; the node operations read and write nothing else. *)
Class NodePose `{Engine} : Type := {
  pose : GraphNode -> Vec3 * Quat;
  pose_setPosition : forall n p, pose (setPosition n p) = (p, snd (pose n));
  pose_setRotation : forall n q, pose (setRotation n q) = (fst (pose n), q);
  pose_rotateLocal : forall n n' a b c,
    pose n = pose n' -> pose (rotateLocal n a b c) = pose (rotateLocal n' a b c);
  pose_translateLocal : forall n n' a b c,
    pose n = pose n' -> pose (translateLocal n a b c) = pose (translateLocal n' a b c);
  pose_right : forall n n', pose n = pose n' -> node_right n = node_right n';
  pose_up : forall n n', pose n = pose n' -> node_up n = node_up n';
  pose_forward : forall n n', pose n = pose n' -> node_forward n = node_forward n';
  pose_worldTransform : forall n n',
    pose n = pose n' -> getWorldTransform n = getWorldTransform n'
}.

(** The axis-aligned scene satisfies the placement laws. *)
Definition Flat_nodePose : @NodePose Flat.engine.
Proof.
  refine {| pose := fun n : @GraphNode Flat.engine => (n, tt) |}; simpl.
  - done.
  - intros n []. done.
  - intros n n' _ _ _ Hn. exact Hn.
  - intros n n' a b c Hn. by injection Hn as ->.
  - done.
  - done.
  - done.
  - intros n n' Hn. by injection Hn as ->.
Defined.

Section RenderReference.
Local Open Scope R_scope.

(** A viewer camera at the origin with near plane 1, and a directional
    light with one cascade ending at distance 2 and resolution 6. *)
Definition flatCamera : @Camera Flat.engine := (Fin 1, vec3 0 0 0).

Definition flatLight : Light :=
  mkLight true true true SHADOWUPDATE_REALTIME LIGHTTYPE_DIRECTIONAL SHADOW_PCF3
    false true 1 BLUR_GAUSSIAN 6 (Fin 0.05) (Fin 2) 1 1 (Fin 0.5) [Fin 2].

(** The corners of the frustum slice [1, 2] of that camera. *)
Definition flatPoints : list Vec3 :=
  [ vec3 1 1 (-1); vec3 (-1) 1 (-1); vec3 1 (-1) (-1); vec3 (-1) (-1) (-1);
    vec3 1 1 (-2); vec3 (-1) 1 (-2); vec3 1 (-1) (-2); vec3 (-1) (-1) (-2) ].

(** The state before the cascade: no caster listed, the shared box left
    at [0,1]^3 by an earlier call. *)
Definition flatState : @CullDirState Flat.engine :=
  @mkCullDirState Flat.engine
    (fun _ => @mkLightRenderData Flat.engine Flat.originCamera [])
    (vec3 0 0 0, vec3 1 1 1) [].

(** The events that only applyVsmBlur sends. *)
Definition is_blur_event (e : Event) : bool :=
  match e with
  | EvCacheGet _ | EvDrawQuad _ _ _ _ _ | EvCacheAdd _ => true
  | _ => false
  end.

(** The guard of render. *)
Definition renderGuard (light : Light) : bool :=
  enabled light && castShadows light
  && negb (shadowUpdateMode light =? SHADOWUPDATE_NONE)%Z
  && visibleThisFrame light.

(** The condition under which render calls applyVsmBlur. *)
Definition blurGuard (r : ShadowRenderer) (light : Light) : bool :=
  _isVsm light && (1 <? _vsmBlurSize light)%nat
  && (negb (clusteredLightingEnabled r) || (_type light =? LIGHTTYPE_DIRECTIONAL)%Z).

(** The light as render leaves it when the guard passes. *)
Definition firedLight (light : Light) : Light :=
  if (shadowUpdateMode light =? SHADOWUPDATE_THISFRAME)%Z
  then set_shadowUpdateMode light SHADOWUPDATE_NONE else light.

(** Lights and renderers of the concrete cases. *)
Definition onceLight : Light :=
  set_shadowUpdateMode exampleLight SHADOWUPDATE_THISFRAME.

Definition hiddenLight : Light := set_visibleThisFrame onceLight false.

Definition exampleDevice (hasWebgl2 hasDerivatives : bool) : Device :=
  mkDevice hasWebgl2 hasDerivatives false (Fin 0, Fin 0) true false false 0
    (true, true, true, true).

Definition exampleRenderer (hasWebgl2 hasDerivatives clustered : bool) : ShadowRenderer :=
  mkShadowRenderer (exampleDevice hasWebgl2 hasDerivatives) clustered (Fin 0, Fin 0)
    false ∅ ∅ ∅ None ∅ 0 0 [].

Definition exampleTarget : RenderTarget := renderTargets (mkShadowMap 100 1024) 0.

Definition omniLight : Light :=
  mkLight true true true SHADOWUPDATE_REALTIME LIGHTTYPE_OMNI SHADOW_PCF3
    false true 1 BLUR_GAUSSIAN 1024 (Fin 0.05) (Fin 40) 6 1 (Fin 0.5) [Fin 0].

Definition spotLight : Light :=
  mkLight true true true SHADOWUPDATE_REALTIME LIGHTTYPE_SPOT SHADOW_PCF3
    false true 1 BLUR_GAUSSIAN 1024 (Fin 0.05) (Fin 40) 1 1 (Fin 0.5) [Fin 0].

Definition vsmLight : Light :=
  mkLight true true true SHADOWUPDATE_REALTIME LIGHTTYPE_SPOT SHADOW_VSM16
    true false 11 BLUR_GAUSSIAN 1024 (Fin 0.05) (Fin 40) 1 1 (Fin 0.5) [Fin 0].

End RenderReference.

(** ** Further functions of the shadow renderer *)

(** The bounds of the frustum slice of a cascade, as cullDirectional
    reads them from the array of cascade distances. *)
Definition frustumNearDist (light : Light) (nearDist : num) (cascade : nat) : num :=
  if decide (cascade = 0%nat) then nearDist
  else array_get (_shadowCascadeDistances light) (cascade - 1).

Definition frustumFarDist (light : Light) (cascade : nat) : num :=
  array_get (_shadowCascadeDistances light) cascade.

(** The part of the cascade camera computation that follows the call of
    Frustum.getPoints. *)
Definition cascadeCameraFromPoints `{Engine} (light : Light) (lightNode : GraphNode)
    (camera : Camera) (shadowCam : ShadowCamera) (frustumPoints : list Vec3)
  : ShadowCamera :=
  let shadowCamNode := _node shadowCam in
  let shadowCamNode := setPosition shadowCamNode (getPosition lightNode) in
  let shadowCamNode := setRotation shadowCamNode (getRotation lightNode) in
  let shadowCamNode := rotateLocal shadowCamNode (Fin (-90)) (Fin 0) (Fin 0) in
  let cameraWorldMat := getWorldTransform (camera_node camera) in
  let '(points, center) := frustumCenter cameraWorldMat frustumPoints in
  let radius := frustumRadius points center in
  let right := node_right shadowCamNode in
  let up := node_up shadowCamNode in
  let lightDir := node_forward shadowCamNode in
  let center := snapCenter center up right lightDir (_shadowResolution light) radius in
  let shadowCamNode := setPosition shadowCamNode center in
  let shadowCamNode := translateLocal shadowCamNode (Fin 0) (Fin 0) (Fin 1000000) in
  {| _node := shadowCamNode; nearClip := Fin 0; farClip := Fin 2000000;
     orthoHeight := radius |}.

(** Every blur shader in the two caches has the weights of its filter
    size stored, and every stored weight array is the one gaussWeights
    computes. *)
Definition blurWeightsReady (r : ShadowRenderer) : Prop :=
  (forall (blurMode : Z) (filterSize : nat),
      (blurMode, filterSize) ∈ blurVsmShader r
      \/ (blurMode, filterSize) ∈ blurPackedVsmShader r ->
      blurVsmWeights r !! filterSize = Some (gaussWeights filterSize))
  /\ (forall (filterSize : nat) (weights : list num),
        blurVsmWeights r !! filterSize = Some weights ->
        weights = gaussWeights filterSize).

(** The bound number [c] of the slices: N, then the far bounds. *)
Definition sliceBound (N F d : R) (C c : nat) : R :=
  match c with
  | O => N
  | S j => cascadeFarR N F d C j
  end.

(** ** Frames: render called once per frame on the same light *)

(** [n] calls of render, each on the light as the call before left it. *)
Definition renderFrames (origShadowMap : RenderTarget) (n : nat)
    (r : ShadowRenderer) (light : Light) : ShadowRenderer * Light :=
  Nat.iter n (fun s => render (fst s) (snd s) origShadowMap) (r, light).

(** The number of face submissions among events. *)
Definition faceEvents (events : list Event) : nat :=
  length (List.filter (fun e => match e with EvFace _ _ => true | _ => false end) events).

(** ** Clear settings of the shadow camera *)

(** The clear settings of a shadow camera, the part of the camera that
    createShadowCamera and setShadowCameraSettings write. *)
Record ClearSettings : Type := mkClearSettings {
  clearColor : num * num * num * num;
  clearColorBuffer : bool;
  clearDepthBuffer : bool;
  clearStencilBuffer : bool
}.

(** [shadowCam] is the camera LightCamera.create returns for the light
    type and the face. *)
Definition createShadowCamera (shadowCam : ClearSettings) (shadowType : Z)
  : ClearSettings :=
  (* don't clear the color buffer if rendering a depth map *)
  let color :=
    if ((SHADOW_VSM8 <=? shadowType) && (shadowType <=? SHADOW_VSM32))%Z
    then (Fin 0, Fin 0, Fin 0, Fin 0)
    else (Fin 1, Fin 1, Fin 1, Fin 1) in
  mkClearSettings color (clearColorBuffer shadowCam) true false.

Definition setShadowCameraSettings (shadowCam : ClearSettings) (dev : Device)
    (shadowType type : Z) (isClustered : bool) : ClearSettings :=
  let hwPcf :=
    (shadowType =? SHADOW_PCF5)%Z || ((shadowType =? SHADOW_PCF3)%Z && webgl2 dev) in
  let hwPcf :=
    if (type =? LIGHTTYPE_OMNI)%Z && negb isClustered then false else hwPcf in
  mkClearSettings (clearColor shadowCam) (negb hwPcf) (clearDepthBuffer shadowCam)
    (clearStencilBuffer shadowCam).

(** ** Shader slot of the shadow pass: submitCasters *)

Definition SHADER_FORWARD : Z := 0.
Definition SHADER_FORWARDHDR : Z := 1.
Definition SHADER_DEPTH : Z := 2.
Definition SHADER_SHADOW : Z := 3.
Definition SHADER_PICK : Z := 18.

(** The index [SHADER_SHADOW + smode] under which submitCasters reads and
    fills the shader of a mesh instance. *)
Definition shadowShaderSlot (light : Light) : Z :=
  let shadowType := _shadowType light in
  let smode := (shadowType + _type light * SHADOW_COUNT)%Z in
  (SHADER_SHADOW + smode)%Z.

(** ** Local lights: cullLocal *)

(** Math.atan *)
Definition Math_atan (a : num) : num :=
  match a with
  | Fin r => Fin (atan r)
  | PInf => Fin (PI / 2)
  | NInf => Fin (- (PI / 2))
  | NaN => NaN
  end.

(** Modelled from the spec: math.RAD_TO_DEG (math.js is not among the
    sources), the factor from radians to the degrees the field of view
    is given in. *)
Definition RAD_TO_DEG : num := Fin (180 / PI).

(** A spot or omni light: the fields of [Light], and what cullLocal
    reads and writes beside them. *)
Record LocalLight : Type := mkLocalLight {
  ll_light : Light;
  attenuationEnd : num;
  _outerConeAngle : num;
  atlasViewport_z : num;
  _shadowMap : option ShadowMap
}.

Record LightTextureAtlas : Type := mkLightTextureAtlas {
  shadowAtlasResolution : num;
  shadowEdgePixels : num
}.

(** The render data of the faces together with the field of view of the
    camera of each face. *)
Record CullLocalState `{Engine} : Type := mkCullLocalState {
  ls_faces : CullDirState;
  fov : nat -> num
}.

(** The forward renderer once updateCameraFrustum has rebuilt the frustum
    of a perspective camera: [isVisibleAt fov] is the visibility test
    against the frustum of the camera with that field of view. *)
Definition frustumRenderer `{ForwardRenderer}
    (isVisibleAt : num -> MeshInstance -> ShadowCamera -> bool) (fieldOfView : num)
  : ForwardRenderer :=
  {| _isVisible := isVisibleAt fieldOfView; depthSortCompare := depthSortCompare |}.

(** The camera of a face as the body of the face loop sets it up before
    culling, with its field of view: clip planes from the range of the
    light, the position of the light, and the rotation and the field of
    view by light type.  [fieldOfView] is the field of view the camera has
    on entry. *)
Definition localCullCamera `{Engine} (isClustered : bool)
    (lightTextureAtlas : LightTextureAtlas) (light : LocalLight) (lightNode : GraphNode)
    (shadowCam : ShadowCamera) (fieldOfView : num) : num * ShadowCamera :=
  let type := _type (ll_light light) in
  let near := (attenuationEnd light / Fin 1000)%js in
  let far := attenuationEnd light in
  let shadowCamNode := setPosition (_node shadowCam) (getPosition lightNode) in
  let '(fieldOfView, shadowCamNode) :=
    if (type =? LIGHTTYPE_SPOT)%Z then
      (* Camera looks down the negative Z, and spot light points down the negative Y *)
      ((_outerConeAngle light * Fin 2)%js,
       rotateLocal (setRotation shadowCamNode (getRotation lightNode))
         (Fin (-90)) (Fin 0) (Fin 0))
    else if (type =? LIGHTTYPE_OMNI)%Z then
      (if isClustered then
         (* using 3x3 for cubemap *)
         let tileSize :=
           ((shadowAtlasResolution lightTextureAtlas * atlasViewport_z light)
            / Fin 3)%js in
         let texelSize := (Fin 2 / tileSize)%js in
         let filterSize := (texelSize * shadowEdgePixels lightTextureAtlas)%js in
         ((Math_atan (Fin 1 + filterSize) * RAD_TO_DEG) * Fin 2)%js
       else Fin 90,
       shadowCamNode)
    else (fieldOfView, shadowCamNode) in
  (fieldOfView,
   {| _node := shadowCamNode; nearClip := near; farClip := far;
      orthoHeight := orthoHeight shadowCam |}).

(** One turn of the face loop. *)
Definition cullLocalFace `{ForwardRenderer}
    (isVisibleAt : num -> MeshInstance -> ShadowCamera -> bool)
    (isClustered : bool) (lightTextureAtlas : LightTextureAtlas)
    (light : LocalLight) (lightNode : GraphNode) (drawCalls : list MeshInstance)
    (st : CullLocalState) (face : nat) : CullLocalState :=
  (* render data are shared between cameras for local lights *)
  let lightRenderData := renderData (ls_faces st) face in
  let '(fieldOfView, shadowCam) :=
    localCullCamera isClustered lightTextureAtlas light lightNode
      (shadowCamera lightRenderData) (fov st face) in
  (* cull shadow casters *)
  let '(visible, marked) :=
    @cullShadowCasters _ (frustumRenderer isVisibleAt fieldOfView)
      drawCalls (visibleCasters lightRenderData) shadowCam in
  {| ls_faces :=
       {| renderData :=
            store_set (renderData (ls_faces st)) face
              {| shadowCamera := shadowCam; visibleCasters := visible |};
          visibleSceneAabb := visibleSceneAabb (ls_faces st);
          flagged := flagged (ls_faces st) ++ marked |};
     fov := store_set (fov st) face fieldOfView |}.

(** [created] is the shadow map ShadowMap.create returns for the light. *)
Definition cullLocal `{ForwardRenderer}
    (isVisibleAt : num -> MeshInstance -> ShadowCamera -> bool)
    (isClustered : bool) (lightTextureAtlas : LightTextureAtlas)
    (created : ShadowMap)
    (light : LocalLight) (lightNode : GraphNode) (drawCalls : list MeshInstance)
    (st : CullLocalState) : LocalLight * CullLocalState :=
  (* force light visibility if function was manually called *)
  let light :=
    mkLocalLight (set_visibleThisFrame (ll_light light) true) (attenuationEnd light)
      (_outerConeAngle light) (atlasViewport_z light) (_shadowMap light) in
  (* allocate shadow map unless in clustered lighting mode *)
  let light :=
    if negb isClustered then
      match _shadowMap light with
      | None =>
          mkLocalLight (ll_light light) (attenuationEnd light) (_outerConeAngle light)
            (atlasViewport_z light) (Some created)
      | Some _ => light
      end
    else light in
  let type := _type (ll_light light) in
  let faceCount := if (type =? LIGHTTYPE_SPOT)%Z then 1%nat else 6%nat in
  (light,
   fold_left (cullLocalFace isVisibleAt isClustered lightTextureAtlas light lightNode
                drawCalls)
     (seq 0 faceCount) st).

(** A spot light and an omni light of range 10 without a shadow map, an
    atlas of 2048 texels with 3 edge pixels, and the state of the faces
    of the axis-aligned scene with a field of view of 45 degrees. *)
Definition localSpot : LocalLight :=
  mkLocalLight spotLight (Fin 10) (Fin 20) (Fin 0.25) None.

Definition localOmni : LocalLight :=
  mkLocalLight omniLight (Fin 10) (Fin 20) (Fin 0.25) None.

Definition exampleAtlas : LightTextureAtlas := mkLightTextureAtlas (Fin 2048) (Fin 3).

Definition flatLocalState : @CullLocalState Flat.engine :=
  @mkCullLocalState Flat.engine flatState (fun _ => Fin 45).

(** The visibility test of the axis-aligned scene, the same at every
    field of view. *)
Definition flatVisibleAt (fieldOfView : num) : @MeshInstance Flat.engine ->
    @ShadowCamera Flat.engine -> bool :=
  Flat.isVisible.

(** ** A light with two cascades in the axis-aligned scene *)

Section CascadeReference.
Local Open Scope R_scope.

(** A directional light with two cascades over the shadow distance 3,
    with linear splits (distribution 0). *)
Definition twoCascadeLight : Light :=
  mkLight true true true SHADOWUPDATE_REALTIME LIGHTTYPE_DIRECTIONAL SHADOW_PCF3
    false true 1 BLUR_GAUSSIAN 6 (Fin 0.05) (Fin 3) 2 2 (Fin 0) [Fin 0; Fin 0].

(** That light as cullDirectional has it in the cascade loop for the
    viewer near plane 1: marked visible, the cascades ending at 2 and 3. *)
Definition twoCascadeSplit : Light :=
  set_shadowCascadeDistances (set_visibleThisFrame twoCascadeLight true) [Fin 2; Fin 3].

(** The corners of the frustum slice [2, 3] of the viewer camera. *)
Definition flatPoints2 : list Vec3 :=
  [ vec3 1 1 (-2); vec3 (-1) 1 (-2); vec3 1 (-1) (-2); vec3 (-1) (-1) (-2);
    vec3 1 1 (-3); vec3 (-1) 1 (-3); vec3 1 (-1) (-3); vec3 (-1) (-1) (-3) ].

(** A caster with culling on, a point 1000002 units down the z axis: it
    lies in the culling volume of the second cascade and below that of
    the first. *)
Definition deepCaster : @MeshInstance Flat.engine :=
  @mkMeshInstance Flat.engine 3 true (vec3 0 0 (-1000002), vec3 0 0 (-1000002)).

(** The state one run of cullDirectional leaves for that light and
    caster, started from [flatState]. *)
Definition firstRun : @CullDirState Flat.engine :=
  snd (@cullDirectional Flat.engine Flat.renderer twoCascadeLight (vec3 0 0 0)
         [deepCaster] flatCamera flatState).

(** The state of a second run with the same arguments. *)
Definition secondRun : @CullDirState Flat.engine :=
  snd (@cullDirectional Flat.engine Flat.renderer twoCascadeLight (vec3 0 0 0)
         [deepCaster] flatCamera firstRun).

End CascadeReference.

(** A third caster marked non-culling, beside the camera. *)
Definition sideCaster : @MeshInstance Flat.engine :=
  @mkMeshInstance Flat.engine 8 false (@aabb Flat.engine Flat.strayCaster).

(** * Properties *)

(** ** Arithmetic on finite numbers *)

Section NumberFacts.
Local Open Scope R_scope.

Lemma div_fin (a b : R) : b <> 0 -> (Fin a / Fin b)%js = Fin (a / b).
Proof. intros Hb. unfold JS.div. by rewrite decide_False. Qed.

Lemma pow_fin (a b : R) : 0 < a -> b <> 0 -> (Fin a ** Fin b)%js = Fin (Rpower a b).
Proof.
  intros Ha Hb. unfold JS.pow.
  rewrite (decide_False (P := b = 0)) by done.
  rewrite (decide_False (P := a = 0)) by lra.
  by rewrite decide_True.
Qed.

Lemma clamp_fin (d : R) : clamp (Fin d) (Fin 0) (Fin 1) = Fin (unit_clamp d).
Proof.
  unfold clamp, unit_clamp, JS.ge, JS.le.
  destruct (decide (1 <= d)) as [H1|H1].
  - by rewrite bool_decide_eq_true_2.
  - rewrite bool_decide_eq_false_2 by done.
    destruct (decide (d <= 0)) as [H0|H0].
    + by rewrite bool_decide_eq_true_2.
    + by rewrite bool_decide_eq_false_2.
Qed.

Lemma unit_clamp_id (d : R) : 0 <= d <= 1 -> unit_clamp d = d.
Proof. intros [H0 H1]. unfold unit_clamp. repeat case_decide; lra. Qed.

Lemma unit_clamp_range (d : R) : 0 <= unit_clamp d <= 1.
Proof. unfold unit_clamp. repeat case_decide; lra. Qed.

Lemma lerp_fin (a b d : R) :
  lerp (Fin a) (Fin b) (Fin d) = Fin (a + (b - a) * unit_clamp d).
Proof. unfold lerp. by rewrite clamp_fin. Qed.

Lemma of_nat_div (i n : nat) :
  (0 < n)%nat -> (JS.of_nat i / JS.of_nat n)%js = Fin (INR i / INR n).
Proof.
  intros Hn. unfold JS.of_nat. apply div_fin.
  apply not_0_INR. lia.
Qed.
End NumberFacts.

(** ** Cascade split distances *)

Section SplitDistances.
Local Open Scope R_scope.

Lemma splitDistance_fin (light : Light) (N F d : R) (i : nat) :
  0 < N -> N < F -> (0 < i)%nat -> (0 < numCascades light)%nat ->
  cascadeDistribution light = Fin d ->
  splitDistance light (Fin N) (Fin F) i = Fin (splitR N F d (numCascades light) i).
Proof.
  intros HN HF Hi HC Hd. unfold splitDistance, splitR.
  rewrite of_nat_div by done. rewrite Hd.
  rewrite div_fin by lra.
  assert (0 < INR i) by (apply lt_0_INR; lia).
  assert (0 < INR (numCascades light)) by (apply lt_0_INR; lia).
  assert (0 < F / N) by (apply Rdiv_lt_0_compat; lra).
  rewrite pow_fin; [| done |].
  2:{ apply Rgt_not_eq. apply Rdiv_lt_0_compat; lra. }
  cbn [JS.add JS.sub JS.mul JS.neg]. rewrite lerp_fin. done.
Qed.

Lemma split_loop_length {A} (f : nat -> A) (n s : nat) (arr : list A) :
  length (fold_left (fun a i => <[(i - 1)%nat := f i]> a) (seq s n) arr) = length arr.
Proof.
  revert s arr. induction n as [|n IH]; intros s arr; simpl; [done |].
  rewrite IH. by rewrite length_insert.
Qed.

(** The loop writes slot [i - 1] for i = 1 .. n and nothing else. *)
Lemma split_loop_lookup {A} (f : nat -> A) (n : nat) (arr : list A) (j : nat) :
  (n <= length arr)%nat ->
  fold_left (fun a i => <[(i - 1)%nat := f i]> a) (seq 1 n) arr !! j
  = if decide (j < n)%nat then Some (f (S j)) else arr !! j.
Proof.
  induction n as [|n IH]; intros Hlen.
  - cbn [seq fold_left]. destruct (decide (j < 0)%nat); [lia | done].
  - rewrite seq_S, fold_left_app. simpl.
    replace (n - 0)%nat with n by lia.
    destruct (decide (j = n)) as [->|Hne].
    + rewrite list_lookup_insert_eq.
      * destruct (decide (n < S n)%nat); [done | lia].
      * rewrite split_loop_length. lia.
    + rewrite list_lookup_insert_ne by done.
      rewrite IH by lia.
      destruct (decide (j < n)%nat), (decide (j < S n)%nat); try lia; done.
Qed.

Lemma generateSplitDistances_lookup (light : Light) (nearDist farDist : num) (j : nat) :
  (numCascades light <= length (_shadowCascadeDistances light))%nat ->
  _shadowCascadeDistances (generateSplitDistances light nearDist farDist) !! j
  = if decide (j < numCascades light - 1)%nat
    then Some (splitDistance light nearDist farDist (S j))
    else if decide (j < length (_shadowCascadeDistances light))%nat
         then Some farDist else None.
Proof.
  intros Hlen. unfold generateSplitDistances. simpl.
  rewrite split_loop_lookup by (rewrite length_replicate; lia).
  case_decide; [done |].
  case_decide.
  - by apply lookup_replicate_2.
  - apply lookup_ge_None. rewrite length_replicate. lia.
Qed.

Lemma generateSplitDistances_length (light : Light) (nearDist farDist : num) :
  length (_shadowCascadeDistances (generateSplitDistances light nearDist farDist))
  = length (_shadowCascadeDistances light).
Proof.
  unfold generateSplitDistances. simpl.
  by rewrite split_loop_length, length_replicate.
Qed.
End SplitDistances.

Section SplitFormula.
Local Open Scope R_scope.

Lemma splitDistance_lerp (light : Light) (N F : R) (i : nat) :
  0 < N -> N < F -> (0 < i)%nat -> (0 < numCascades light)%nat ->
  splitDistance light (Fin N) (Fin F) i
  = lerp (Fin (N + (F - N) * INR i / INR (numCascades light)))
         (Fin (N * Rpower (F / N) (INR i / INR (numCascades light))))
         (cascadeDistribution light).
Proof.
  intros HN HF Hi HC. unfold splitDistance.
  rewrite of_nat_div by done.
  rewrite div_fin by lra.
  assert (0 < INR i) by (apply lt_0_INR; lia).
  assert (0 < INR (numCascades light)) by (apply lt_0_INR; lia).
  rewrite pow_fin.
  - cbn [JS.add JS.sub JS.mul JS.neg]. do 2 f_equal. f_equal. lra.
  - apply Rdiv_lt_0_compat; lra.
  - apply Rgt_not_eq. apply Rdiv_lt_0_compat; lra.
Qed.

Lemma lerp_zero (a b : R) : lerp (Fin a) (Fin b) (Fin 0) = Fin a.
Proof.
  rewrite lerp_fin. f_equal. unfold unit_clamp.
  rewrite decide_False by lra. rewrite decide_True by lra. lra.
Qed.

Lemma lerp_one (a b : R) : lerp (Fin a) (Fin b) (Fin 1) = Fin b.
Proof.
  rewrite lerp_fin. f_equal. unfold unit_clamp.
  rewrite decide_True by lra. lra.
Qed.

(** C1: for a light with C >= 1 cascades, 0 < N < F, and an array that
    holds the C distances, generateSplitDistances stores
    lerp(N + (F-N)*i/C, N*(F/N)^(i/C), d) in slot i-1 for every i in
    [1, C-1]; the slot of the last cascade and the last slot of the
    array hold F; with d = 0 slot i-1 is the linear value and with
    d = 1 it is the geometric value. *)
Theorem generateSplitDistances_formula (light : Light) (N F : R) :
  (1 <= numCascades light)%nat -> 0 < N -> N < F ->
  (numCascades light <= length (_shadowCascadeDistances light))%nat ->
  let C := numCascades light in
  let out := _shadowCascadeDistances (generateSplitDistances light (Fin N) (Fin F)) in
  (forall i : nat, (1 <= i <= C - 1)%nat ->
     out !! (i - 1)%nat
     = Some (lerp (Fin (N + (F - N) * INR i / INR C))
                  (Fin (N * Rpower (F / N) (INR i / INR C)))
                  (cascadeDistribution light)))
  /\ out !! (C - 1)%nat = Some (Fin F)
  /\ last out = Some (Fin F)
  /\ (cascadeDistribution light = Fin 0 ->
      forall i : nat, (1 <= i <= C - 1)%nat ->
        out !! (i - 1)%nat = Some (Fin (N + (F - N) * INR i / INR C)))
  /\ (cascadeDistribution light = Fin 1 ->
      forall i : nat, (1 <= i <= C - 1)%nat ->
        out !! (i - 1)%nat = Some (Fin (N * Rpower (F / N) (INR i / INR C)))).
Proof.
  intros HC HN HF Hlen C out.
  assert (Hslot : forall i : nat, (1 <= i <= C - 1)%nat ->
            out !! (i - 1)%nat
            = Some (lerp (Fin (N + (F - N) * INR i / INR C))
                         (Fin (N * Rpower (F / N) (INR i / INR C)))
                         (cascadeDistribution light))).
  { intros i Hi. unfold out.
    rewrite generateSplitDistances_lookup by done.
    rewrite decide_True by (unfold C in Hi; lia).
    replace (S (i - 1)) with i by lia.
    f_equal. apply splitDistance_lerp; try done; lia. }
  split; [exact Hslot |].
  split.
  { unfold out. rewrite generateSplitDistances_lookup by done.
    rewrite decide_False by (unfold C; lia).
    rewrite decide_True by (unfold C; lia). done. }
  split.
  { rewrite last_lookup. unfold out.
    rewrite generateSplitDistances_length.
    rewrite generateSplitDistances_lookup by done.
    rewrite decide_False by lia.
    rewrite decide_True by lia. done. }
  split.
  - intros Hd i Hi. rewrite (Hslot i Hi), Hd. by rewrite lerp_zero.
  - intros Hd i Hi. rewrite (Hslot i Hi), Hd. by rewrite lerp_one.
Qed.
End SplitFormula.

Section SplitOrder.
Local Open Scope R_scope.

Lemma splitAt_0 (N F u : R) : 0 < N -> N < F -> splitAt N F u 0 = N.
Proof.
  intros HN HF. unfold splitAt.
  rewrite Rpower_O by (apply Rdiv_lt_0_compat; lra). lra.
Qed.

Lemma splitAt_1 (N F u : R) : 0 < N -> N < F -> splitAt N F u 1 = F.
Proof.
  intros HN HF. unfold splitAt.
  rewrite Rpower_1 by (apply Rdiv_lt_0_compat; lra).
  replace (N * (F / N)) with F by (field; lra). lra.
Qed.

Lemma splitAt_increasing (N F u s t : R) :
  0 < N -> N < F -> 0 <= u <= 1 -> s < t -> splitAt N F u s < splitAt N F u t.
Proof.
  intros HN HF Hu Hst. unfold splitAt.
  assert (Hbase : 1 < F / N).
  { apply Rmult_lt_reg_r with N; [done |].
    replace (F / N * N) with F by (field; lra). lra. }
  pose proof (Rpower_lt (F / N) s t Hbase Hst) as Hpow.
  assert (Hlin : (F - N) * s < (F - N) * t) by (apply Rmult_lt_compat_l; lra).
  assert (Hlog : N * Rpower (F / N) s < N * Rpower (F / N) t)
    by (apply Rmult_lt_compat_l; lra).
  destruct Hu as [Hu0 Hu1].
  assert (0 <= (1 - u) * ((F - N) * t - (F - N) * s))
    by (apply Rmult_le_pos; lra).
  assert (0 <= u * (N * Rpower (F / N) t - N * Rpower (F / N) s))
    by (apply Rmult_le_pos; lra).
  destruct (Rle_lt_dec u (1 / 2)) as [Hhalf|Hhalf].
  - assert (0 < (1 - u) * ((F - N) * t - (F - N) * s))
      by (apply Rmult_lt_0_compat; lra).
    lra.
  - assert (0 < u * (N * Rpower (F / N) t - N * Rpower (F / N) s))
      by (apply Rmult_lt_0_compat; lra).
    lra.
Qed.

Lemma cascadeFarR_splitAt (N F d : R) (C j : nat) :
  0 < N -> N < F -> (j < C)%nat ->
  cascadeFarR N F d C j = splitAt N F (unit_clamp d) (INR (S j) / INR C).
Proof.
  intros HN HF Hj. unfold cascadeFarR.
  destruct (decide (j < C - 1)%nat) as [Hlt|Hge]; [done |].
  assert (S j = C) as -> by lia.
  replace (INR C / INR C) with 1.
  - by rewrite splitAt_1.
  - field. apply not_0_INR. lia.
Qed.

Lemma cascade_position_lt (C i j : nat) :
  (i < j)%nat -> (0 < C)%nat -> INR (S i) / INR C < INR (S j) / INR C.
Proof.
  intros Hij HC.
  assert (0 < INR C) by (apply lt_0_INR; lia).
  apply Rmult_lt_compat_r; [by apply Rinv_0_lt_compat |].
  apply lt_INR. lia.
Qed.

Lemma cascadeFarR_increasing (N F d : R) (C i j : nat) :
  0 < N -> N < F -> (i < j < C)%nat ->
  cascadeFarR N F d C i < cascadeFarR N F d C j.
Proof.
  intros HN HF [Hij Hj].
  rewrite !cascadeFarR_splitAt by (done || lia).
  apply splitAt_increasing; try done.
  - apply unit_clamp_range.
  - apply cascade_position_lt; lia.
Qed.

Lemma cascadeFarR_bounds (N F d : R) (C j : nat) :
  0 < N -> N < F -> (j < C)%nat ->
  N < cascadeFarR N F d C j <= F.
Proof.
  intros HN HF Hj.
  assert (HC : 0 < INR C) by (apply lt_0_INR; lia).
  rewrite cascadeFarR_splitAt by done.
  split.
  - rewrite <- (splitAt_0 N F (unit_clamp d)) at 1 by done.
    apply splitAt_increasing; try done; [apply unit_clamp_range |].
    apply Rdiv_lt_0_compat; [| done]. apply lt_0_INR. lia.
  - destruct (decide (S j = C)) as [<-|Hne].
    + replace (INR (S j) / INR (S j)) with 1 by (field; lra).
      rewrite splitAt_1 by done. lra.
    + rewrite <- (splitAt_1 N F (unit_clamp d)) at 2 by done.
      apply Rlt_le. apply splitAt_increasing; try done; [apply unit_clamp_range |].
      apply Rmult_lt_reg_r with (INR C); [done |].
      replace (INR (S j) / INR C * INR C) with (INR (S j)) by (field; lra).
      rewrite Rmult_1_l. apply lt_INR. lia.
Qed.

(** What each of the first C slots holds on finite inputs. *)
Lemma generateSplitDistances_far (light : Light) (N F d : R) (j : nat) :
  0 < N -> N < F ->
  cascadeDistribution light = Fin d ->
  (numCascades light <= length (_shadowCascadeDistances light))%nat ->
  (j < numCascades light)%nat ->
  _shadowCascadeDistances (generateSplitDistances light (Fin N) (Fin F)) !! j
  = Some (Fin (cascadeFarR N F d (numCascades light) j)).
Proof.
  intros HN HF Hd Hlen Hj.
  rewrite generateSplitDistances_lookup by done.
  unfold cascadeFarR.
  destruct (decide (j < numCascades light - 1)%nat) as [Hlt|Hge].
  - f_equal. apply splitDistance_fin; try done; lia.
  - by rewrite decide_True by lia.
Qed.
End SplitOrder.

Section SplitExample.
Local Open Scope R_scope.

Lemma ln_root_lt (a b : R) (n m : nat) :
  0 < a -> 0 < b -> (0 < m)%nat -> b ^ m < a ^ n ->
  ln b < INR n / INR m * ln a.
Proof.
  intros Ha Hb Hm Hpow.
  assert (HM : 0 < INR m) by (apply lt_0_INR; lia).
  assert (Hln : ln (b ^ m) < ln (a ^ n)).
  { apply ln_increasing; [by apply pow_lt | done]. }
  rewrite !ln_pow in Hln by done.
  apply Rmult_lt_reg_l with (INR m); [done |].
  replace (INR m * (INR n / INR m * ln a)) with (INR n * ln a) by (field; lra).
  done.
Qed.

Lemma Rpower_root_gt (a b : R) (n m : nat) :
  0 < a -> 0 < b -> (0 < m)%nat -> b ^ m < a ^ n ->
  b < Rpower a (INR n / INR m).
Proof.
  intros Ha Hb Hm Hpow. unfold Rpower.
  rewrite <- (exp_ln b) at 1 by done.
  apply exp_increasing. by apply ln_root_lt.
Qed.

Lemma Rpower_root_lt (a b : R) (n m : nat) :
  0 < a -> 0 < b -> (0 < m)%nat -> a ^ n < b ^ m ->
  Rpower a (INR n / INR m) < b.
Proof.
  intros Ha Hb Hm Hpow. unfold Rpower.
  rewrite <- (exp_ln b) at 1 by done.
  apply exp_increasing.
  assert (HM : 0 < INR m) by (apply lt_0_INR; lia).
  assert (Hln : ln (a ^ n) < ln (b ^ m)).
  { apply ln_increasing; [by apply pow_lt | done]. }
  rewrite !ln_pow in Hln by done.
  apply Rmult_lt_reg_l with (INR m); [done |].
  replace (INR m * (INR n / INR m * ln a)) with (INR n * ln a) by (field; lra).
  done.
Qed.

(** The geometric factor (F/N)^(i/4) of the example N = 0.1, F = 1000.1:
    F/N is 10001. *)
Lemma example_root_1 : 10 < Rpower (1000.1 / 0.1) (INR 1 / INR 4) < 10.001.
Proof.
  split.
  - apply Rpower_root_gt; [lra | lra | lia |]. simpl. lra.
  - apply Rpower_root_lt; [lra | lra | lia |]. simpl. lra.
Qed.

Lemma example_root_2 : 100 < Rpower (1000.1 / 0.1) (INR 2 / INR 4) < 100.01.
Proof.
  split.
  - apply Rpower_root_gt; [lra | lra | lia |]. simpl. lra.
  - apply Rpower_root_lt; [lra | lra | lia |]. simpl. lra.
Qed.

Lemma example_root_3 : 1000 < Rpower (1000.1 / 0.1) (INR 3 / INR 4) < 1000.1.
Proof.
  split.
  - apply Rpower_root_gt; [lra | lra | lia |]. simpl. lra.
  - apply Rpower_root_lt; [lra | lra | lia |]. simpl. lra.
Qed.
(** With F = 1000 the factor is 10000^(i/4) = 10^i. *)
Lemma round_root_1 : 9.999 < Rpower (1000 / 0.1) (INR 1 / INR 4) < 10.001.
Proof.
  split.
  - apply Rpower_root_gt; [lra | lra | lia |]. simpl. lra.
  - apply Rpower_root_lt; [lra | lra | lia |]. simpl. lra.
Qed.

Lemma round_root_2 : 99.99 < Rpower (1000 / 0.1) (INR 2 / INR 4) < 100.01.
Proof.
  split.
  - apply Rpower_root_gt; [lra | lra | lia |]. simpl. lra.
  - apply Rpower_root_lt; [lra | lra | lia |]. simpl. lra.
Qed.

Lemma round_root_3 : 999.9 < Rpower (1000 / 0.1) (INR 3 / INR 4) < 1000.1.
Proof.
  split.
  - apply Rpower_root_gt; [lra | lra | lia |]. simpl. lra.
  - apply Rpower_root_lt; [lra | lra | lia |]. simpl. lra.
Qed.
End SplitExample.

Section SplitExampleValues.
Local Open Scope R_scope.

Lemma exampleSplits_lookup (j : nat) :
  (j < 4)%nat ->
  exampleSplits !! j = Some (Fin (cascadeFarR 0.1 1000.1 0.5 4 j)).
Proof.
  intros Hj. unfold exampleSplits.
  apply (generateSplitDistances_far exampleLight 0.1 1000.1 0.5 j);
    [lra | lra | done | simpl; lia | simpl; lia].
Qed.

Lemma example_far_0 : 125.55 < cascadeFarR 0.1 1000.1 0.5 4 0 < 125.5501.
Proof.
  unfold cascadeFarR. rewrite decide_True by lia.
  unfold splitR. rewrite unit_clamp_id by lra.
  pose proof example_root_1 as Hroot.
  set (p := Rpower _ _) in *.
  replace (INR 1 / INR 4) with 0.25 by (simpl; lra). lra.
Qed.

Lemma example_far_1 : 255.05 < cascadeFarR 0.1 1000.1 0.5 4 1 < 255.0506.
Proof.
  unfold cascadeFarR. rewrite decide_True by lia.
  unfold splitR. rewrite unit_clamp_id by lra.
  pose proof example_root_2 as Hroot.
  set (p := Rpower _ _) in *.
  replace (INR 2 / INR 4) with 0.5 by (simpl; lra). lra.
Qed.

Lemma example_far_2 : 425.05 < cascadeFarR 0.1 1000.1 0.5 4 2 < 425.056.
Proof.
  unfold cascadeFarR. rewrite decide_True by lia.
  unfold splitR. rewrite unit_clamp_id by lra.
  pose proof example_root_3 as Hroot.
  set (p := Rpower _ _) in *.
  replace (INR 3 / INR 4) with 0.75 by (simpl; lra). lra.
Qed.

Lemma example_far_3 : cascadeFarR 0.1 1000.1 0.5 4 3 = 1000.1.
Proof. unfold cascadeFarR. by rewrite decide_False by lia. Qed.
Lemma roundSplits_lookup (j : nat) :
  (j < 4)%nat ->
  roundSplits !! j = Some (Fin (cascadeFarR 0.1 1000 0.5 4 j)).
Proof.
  intros Hj. unfold roundSplits.
  apply (generateSplitDistances_far exampleLight 0.1 1000 0.5 j);
    [lra | lra | done | simpl; lia | simpl; lia].
Qed.

Lemma round_far_0 : 125.537 < cascadeFarR 0.1 1000 0.5 4 0 < 125.538.
Proof.
  unfold cascadeFarR. rewrite decide_True by lia.
  unfold splitR. rewrite unit_clamp_id by lra.
  pose proof round_root_1 as Hroot.
  set (p := Rpower _ _) in *.
  replace (INR 1 / INR 4) with 0.25 by (simpl; lra). lra.
Qed.

Lemma round_far_1 : 255.024 < cascadeFarR 0.1 1000 0.5 4 1 < 255.026.
Proof.
  unfold cascadeFarR. rewrite decide_True by lia.
  unfold splitR. rewrite unit_clamp_id by lra.
  pose proof round_root_2 as Hroot.
  set (p := Rpower _ _) in *.
  replace (INR 2 / INR 4) with 0.5 by (simpl; lra). lra.
Qed.

Lemma round_far_2 : 425.007 < cascadeFarR 0.1 1000 0.5 4 2 < 425.018.
Proof.
  unfold cascadeFarR. rewrite decide_True by lia.
  unfold splitR. rewrite unit_clamp_id by lra.
  pose proof round_root_3 as Hroot.
  set (p := Rpower _ _) in *.
  replace (INR 3 / INR 4) with 0.75 by (simpl; lra). lra.
Qed.

Lemma round_far_3 : cascadeFarR 0.1 1000 0.5 4 3 = 1000.
Proof. unfold cascadeFarR. by rewrite decide_False by lia. Qed.
End SplitExampleValues.

Section SplitClaims.
Local Open Scope R_scope.

(** Witness of C1 on the example light: the slot of the last cascade
    holds the far distance. *)
Lemma generateSplitDistances_formula_witness :
  exampleSplits !! 3%nat = Some (Fin 1000.1).
Proof.
  destruct (generateSplitDistances_formula exampleLight 0.1 1000.1)
    as (_ & Hlast & _); [simpl; lia | lra | lra | simpl; lia |].
  exact Hlast.
Defined.

(** C2 (amended): for finite inputs with N > 0, F > N, C >= 1 and d in
    [0, 1], and an array that holds the C distances, the C cascade far
    bounds written by generateSplitDistances are finite, lie in [N, F]
    and are strictly increasing; for N = 0.1, F = 1000 (F/N = 10000),
    C = 4, d = 0.5 they are [125.54, 255.03, 425.01, 1000] to within
    1e-2, and for F = 1000.1 they are [125.55, 255.05, 425.05, 1000.1]
    to within 1e-2. *)
Theorem generateSplitDistances_increasing_bounded :
  (forall (light : Light) (N F d : R),
      (1 <= numCascades light)%nat -> 0 < N -> N < F -> 0 <= d <= 1 ->
      cascadeDistribution light = Fin d ->
      (numCascades light <= length (_shadowCascadeDistances light))%nat ->
      let out := _shadowCascadeDistances (generateSplitDistances light (Fin N) (Fin F)) in
      (forall j : nat, (j < numCascades light)%nat ->
         exists r : R, out !! j = Some (Fin r) /\ N <= r <= F)
      /\ (forall (i j : nat) (ri rj : R), (i < j < numCascades light)%nat ->
            out !! i = Some (Fin ri) -> out !! j = Some (Fin rj) -> ri < rj))
  /\ (forall (j : nat) (v : R),
        [125.54; 255.03; 425.01; 1000] !! j = Some v ->
        exists r : R, roundSplits !! j = Some (Fin r) /\ Rabs (r - v) <= 0.01)
  /\ (forall (j : nat) (v : R),
        [125.55; 255.05; 425.05; 1000.1] !! j = Some v ->
        exists r : R, exampleSplits !! j = Some (Fin r) /\ Rabs (r - v) <= 0.01).
Proof.
  split; [| split].
  - intros light N F d HC HN HF Hd Hdist Hlen out. split.
    + intros j Hj. exists (cascadeFarR N F d (numCascades light) j). split.
      * by apply generateSplitDistances_far.
      * pose proof (cascadeFarR_bounds N F d (numCascades light) j HN HF Hj). lra.
    + intros i j ri rj Hij Hi Hj. unfold out in Hi, Hj.
      rewrite (generateSplitDistances_far light N F d) in Hi by (done || lia).
      rewrite (generateSplitDistances_far light N F d) in Hj by (done || lia).
      injection Hi as <-. injection Hj as <-.
      by apply cascadeFarR_increasing.
  - intros j v Hv.
    destruct j as [|[|[|[|j]]]]; simpl in Hv; try done; injection Hv as <-.
    + eexists. split; [apply roundSplits_lookup; lia |].
      pose proof round_far_0. apply Rabs_le. lra.
    + eexists. split; [apply roundSplits_lookup; lia |].
      pose proof round_far_1. apply Rabs_le. lra.
    + eexists. split; [apply roundSplits_lookup; lia |].
      pose proof round_far_2. apply Rabs_le. lra.
    + eexists. split; [apply roundSplits_lookup; lia |].
      rewrite round_far_3. apply Rabs_le. lra.
  - intros j v Hv.
    destruct j as [|[|[|[|j]]]]; simpl in Hv; try done; injection Hv as <-.
    + eexists. split; [apply exampleSplits_lookup; lia |].
      pose proof example_far_0. apply Rabs_le. lra.
    + eexists. split; [apply exampleSplits_lookup; lia |].
      pose proof example_far_1. apply Rabs_le. lra.
    + eexists. split; [apply exampleSplits_lookup; lia |].
      pose proof example_far_2. apply Rabs_le. lra.
    + eexists. split; [apply exampleSplits_lookup; lia |].
      rewrite example_far_3. apply Rabs_le. lra.
Qed.

Lemma generateSplitDistances_increasing_bounded_witness :
  exists r : R, exampleSplits !! 0%nat = Some (Fin r) /\ 0.1 <= r <= 1000.1.
Proof.
  destruct (proj1 generateSplitDistances_increasing_bounded exampleLight 0.1 1000.1 0.5)
    as [Hbound _]; [simpl; lia | lra | lra | lra | done | simpl; lia |].
  apply Hbound. simpl. lia.
Defined.

(** C2 as stated fails on its example: the second far bound is not
    within 1e-2 of 255.03. *)
Lemma example_splits_not_as_stated :
  ~ (forall (j : nat) (v : R),
       [125.54; 255.03; 425.01; 1000.1] !! j = Some v ->
       exists r : R, exampleSplits !! j = Some (Fin r) /\ Rabs (r - v) <= 0.01).
Proof.
  intros Hall.
  destruct (Hall 1%nat 255.03 eq_refl) as (r & Hr & Habs).
  rewrite exampleSplits_lookup in Hr by lia.
  injection Hr as <-.
  pose proof example_far_1 as [Hlo _].
  rewrite Rabs_pos_eq in Habs by lra. lra.
Qed.
End SplitClaims.

(** ** Blur weights *)

Section GaussWeights.
Local Open Scope R_scope.

Lemma gauss_fin (t sigma : R) :
  sigma <> 0 -> gauss (Fin t) (Fin sigma) = Fin (gaussR t sigma).
Proof.
  intros Hs. unfold gauss, gaussR.
  cbn [JS.mul JS.neg]. rewrite div_fin; [done |].
  intros Hz. apply Rmult_integral in Hz as [Hz|Hz]; [| done].
  apply Rmult_integral in Hz as [Hz|Hz]; [lra | done].
Qed.

Lemma gaussFill_loop (sigma halfWidth : num) (n s : nat) (values : list num) (sum : num) :
  let g := fun i : nat => gauss (JS.of_nat i - halfWidth)%js sigma in
  fold_left
    (fun '(values, sum) i =>
       let v := gauss (JS.of_nat i - halfWidth)%js sigma in
       (values ++ [v], (sum + v)%js))
    (seq s n) (values, sum)
  = (values ++ map g (seq s n), fold_left JS.add (map g (seq s n)) sum).
Proof.
  intros g. revert s values sum.
  induction n as [|n IH]; intros s values sum; simpl.
  - by rewrite app_nil_r.
  - rewrite IH. by rewrite <- app_assoc.
Qed.

Lemma gaussFill_eq (k : nat) (sigma halfWidth : num) :
  let g := fun i : nat => gauss (JS.of_nat i - halfWidth)%js sigma in
  gaussFill k sigma halfWidth
  = (map g (seq 0 k), fold_left JS.add (map g (seq 0 k)) (Fin 0)).
Proof. intros g. unfold gaussFill. by rewrite gaussFill_loop. Qed.

Lemma add_fin_fold (l : list R) (a : R) :
  fold_left JS.add (map Fin l) (Fin a) = Fin (fold_left Rplus l a).
Proof. revert a. induction l as [|b l IH]; intros a; simpl; [done | apply IH]. Qed.

Lemma Rsum_acc (l : list R) (a : R) : fold_left Rplus l a = a + Rsum l.
Proof.
  unfold Rsum. revert a. induction l as [|b l IH]; intros a; simpl; [lra |].
  rewrite (IH (a + b)), (IH (0 + b)). lra.
Qed.

Lemma Rsum_cons (b : R) (l : list R) : Rsum (b :: l) = b + Rsum l.
Proof. unfold Rsum at 1. simpl. rewrite Rsum_acc. lra. Qed.

Lemma Rsum_pos (l : list R) :
  l <> [] -> Forall (fun w => 0 < w) l -> 0 < Rsum l.
Proof.
  intros Hne Hall. induction Hall as [|b l Hb Hall IH]; [done |].
  rewrite Rsum_cons. destruct l as [|c l].
  - unfold Rsum. simpl. lra.
  - assert (0 < Rsum (c :: l)) by (apply IH; done). lra.
Qed.

Lemma Rsum_div (l : list R) (s : R) :
  Rsum (map (fun w => w / s) l) = Rsum l / s.
Proof.
  induction l as [|b l IH].
  - unfold Rsum. simpl. lra.
  - simpl. rewrite !Rsum_cons, IH. lra.
Qed.

Lemma kernelWeights_pos (k : nat) : Forall (fun w => 0 < w) (kernelWeights k).
Proof.
  unfold kernelWeights. apply Forall_forall. intros w Hw.
  apply list_elem_of_In, in_map_iff in Hw as (i & <- & _).
  apply exp_pos.
Qed.

Lemma sigmaR_nonzero (k : nat) : (2 <= k)%nat -> sigmaR k <> 0.
Proof.
  intros Hk. unfold sigmaR.
  assert (2 <= INR k) by (apply (le_INR 2); lia). lra.
Qed.

(** The weights of an unclamped kernel size k >= 2. *)
Lemma gaussWeights_fin (k : nat) :
  (2 <= k <= maxBlurSize)%nat ->
  gaussWeights k
  = map Fin (map (fun w => w / Rsum (kernelWeights k)) (kernelWeights k)).
Proof.
  intros [Hlo Hhi]. unfold gaussWeights.
  replace (maxBlurSize <? k)%nat with false
    by (symmetry; apply Nat.ltb_ge; done).
  unfold JS.of_nat. cbn [JS.sub JS.add JS.neg JS.mul].
  rewrite div_fin by lra.
  rewrite gaussFill_eq.
  assert (Hvalues :
    map (fun i : nat =>
           gauss (JS.of_nat i - Fin ((INR k + - (1)) * 0.5))%js
                 (Fin ((INR k + - (1)) / (2 * 3)))) (seq 0 k)
    = map Fin (kernelWeights k)).
  { unfold kernelWeights. rewrite map_map. apply map_ext. intros i.
    unfold JS.of_nat. cbn [JS.sub JS.add JS.neg].
    rewrite gauss_fin; [done |]. by apply sigmaR_nonzero. }
  rewrite Hvalues, add_fin_fold, Rsum_acc, Rplus_0_l.
  rewrite !map_map. apply map_ext_in. intros w _.
  apply div_fin. apply Rgt_not_eq.
  apply Rsum_pos; [| apply kernelWeights_pos].
  unfold kernelWeights. destruct k; [lia | done].
Qed.

Lemma gaussWeights_clamped (k : nat) :
  (maxBlurSize < k)%nat -> gaussWeights k = gaussWeights maxBlurSize.
Proof.
  intros Hk. unfold gaussWeights.
  replace (maxBlurSize <? k)%nat with true
    by (symmetry; apply Nat.ltb_lt; done).
  done.
Qed.
End GaussWeights.

Section GaussClaims.
Local Open Scope R_scope.

Lemma lookup_map {A B} (f : A -> B) (l : list A) (i : nat) :
  map f l !! i = f <$> (l !! i).
Proof. revert i. induction l as [|a l IH]; intros [|i]; simpl; auto. Qed.

Lemma div_zero_zero (a b : R) : a = 0 -> b = 0 -> (Fin a / Fin b)%js = NaN.
Proof.
  intros Ha Hb. unfold JS.div, JS.inf_of_sign.
  by rewrite !decide_True.
Qed.

(** Kernel size 1: sigma is 0 and the single weight is 0/0. *)
Lemma gaussWeights_1 : gaussWeights 1 = [NaN].
Proof.
  unfold gaussWeights.
  replace (maxBlurSize <? 1)%nat with false by done.
  unfold gaussFill, gauss, JS.of_nat.
  cbn [seq fold_left JS.sub JS.add JS.neg JS.mul app].
  rewrite (div_fin _ (2 * 3)) by lra.
  cbn [JS.sub JS.add JS.neg JS.mul].
  rewrite div_zero_zero; [done | simpl; lra | simpl; lra].
Qed.

(** C6 (amended): for every kernel size k >= 2, with n = min(k, 25),
    gaussWeights returns n finite weights, weight i being
    exp(-(i - halfWidth)^2 / (2 sigma^2)) with sigma = (n-1)/6 and
    halfWidth = (n-1)/2, divided by the sum of these values; the
    weights sum to 1 (hence to within 1e-6). *)
Theorem gaussWeights_normalized (k : nat) :
  (2 <= k)%nat ->
  let n := Nat.min k maxBlurSize in
  let sigma := (INR n - 1) / 6 in
  let halfWidth := (INR n - 1) / 2 in
  let value := fun i : nat => exp (- (INR i - halfWidth) ^ 2 / (2 * sigma ^ 2)) in
  length (gaussWeights k) = n
  /\ (forall i : nat, (i < n)%nat ->
        gaussWeights k !! i
        = Some (Fin (value i / Rsum (map value (seq 0 n)))))
  /\ fold_left JS.add (gaussWeights k) (Fin 0) = Fin 1
  /\ (exists s : R, fold_left JS.add (gaussWeights k) (Fin 0) = Fin s
                    /\ Rabs (s - 1) <= 0.000001).
Proof.
  intros Hk n sigma halfWidth value.
  assert (Hn : (2 <= n <= maxBlurSize)%nat) by (unfold n, maxBlurSize in *; lia).
  assert (Heq : gaussWeights k = gaussWeights n).
  { destruct (decide (k <= maxBlurSize)%nat).
    - by replace n with k by (unfold n; lia).
    - replace n with maxBlurSize by (unfold n; lia).
      apply gaussWeights_clamped. lia. }
  rewrite Heq, gaussWeights_fin by done.
  assert (Hvalue : forall i : nat, weightR n i = value i).
  { intros i. unfold weightR, gaussR, value, halfWidthR, sigmaR, halfWidth, sigma.
    f_equal. f_equal; [f_equal; lra | lra]. }
  assert (Hkernel : kernelWeights n = map value (seq 0 n)).
  { unfold kernelWeights. apply map_ext. exact Hvalue. }
  assert (Hpos : 0 < Rsum (kernelWeights n)).
  { apply Rsum_pos; [| apply kernelWeights_pos].
    unfold kernelWeights. destruct n; [lia | done]. }
  assert (Hsum : fold_left JS.add
                   (map Fin (map (fun w => w / Rsum (kernelWeights n)) (kernelWeights n)))
                   (Fin 0) = Fin 1).
  { rewrite add_fin_fold, Rsum_acc, Rsum_div. f_equal. field. lra. }
  split; [| split; [| split]].
  - rewrite !length_map. unfold kernelWeights.
    by rewrite length_map, length_seq.
  - intros i Hi. rewrite Hkernel, !lookup_map, lookup_seq_lt by done.
    done.
  - exact Hsum.
  - exists 1. split; [exact Hsum |].
    replace (1 - 1) with 0 by lra. rewrite Rabs_R0. lra.
Qed.

Lemma gaussWeights_normalized_witness :
  fold_left JS.add (gaussWeights 3) (Fin 0) = Fin 1.
Proof.
  destruct (gaussWeights_normalized 3) as (_ & _ & Hsum & _); [lia |].
  exact Hsum.
Defined.

(** C6 as stated fails at kernel size 1: the weights do not sum to a
    number within 1e-6 of 1. *)
Lemma gaussWeights_1_not_normalized :
  ~ (exists s : R, fold_left JS.add (gaussWeights 1) (Fin 0) = Fin s
                   /\ Rabs (s - 1) <= 0.000001).
Proof. rewrite gaussWeights_1. simpl. intros (s & Hs & _). discriminate Hs. Qed.
End GaussClaims.

(** ** Caster culling *)

Section Culling.
Context `{FR : ForwardRenderer}.

Lemma array_set_take {A} (arr : list A) (count : nat) (v : A) :
  (count <= length arr)%nat ->
  take (S count) (array_set arr count v) = take count arr ++ [v]
  /\ (S count <= length (array_set arr count v))%nat.
Proof.
  intros Hle. unfold array_set.
  destruct (decide (count < length arr)%nat) as [Hlt|Hge].
  - split; [| rewrite length_insert; lia].
    rewrite (take_S_r _ _ v) by (by apply list_lookup_insert_eq).
    f_equal. apply list_eq. intros i.
    destruct (decide (i < count)%nat).
    + rewrite !lookup_take_lt by done.
      apply list_lookup_insert_ne. lia.
    + rewrite !lookup_take_ge by lia. done.
  - assert (count = length arr) as -> by lia. split.
    + rewrite firstn_all.
      rewrite take_ge; [done |]. rewrite length_app. simpl. lia.
    + rewrite length_app. simpl. lia.
Qed.

Lemma cull_loop (camera : ShadowCamera) (meshInstances : list MeshInstance)
    (st : CullState) :
  (cs_count st <= length (cs_visible st))%nat ->
  let st' := fold_left (cullStep camera) meshInstances st in
  take (cs_count st') (cs_visible st')
  = take (cs_count st) (cs_visible st) ++ List.filter (casterPasses camera) meshInstances
  /\ cs_flagged st' = cs_flagged st ++ List.filter (casterPasses camera) meshInstances
  /\ (cs_count st' <= length (cs_visible st'))%nat.
Proof.
  revert st. induction meshInstances as [|m ms IH]; intros st Hle; simpl.
  - by rewrite !app_nil_r.
  - assert (Hstep : cullStep camera st m
                    = if casterPasses camera m
                      then {| cs_visible := array_set (cs_visible st) (cs_count st) m;
                              cs_count := S (cs_count st);
                              cs_flagged := cs_flagged st ++ [m] |}
                      else st) by reflexivity.
    rewrite Hstep. clear Hstep.
    destruct (casterPasses camera m) eqn:Hpass.
    + destruct (array_set_take (cs_visible st) (cs_count st) m Hle) as [Htake Hlen].
      destruct (IH {| cs_visible := array_set (cs_visible st) (cs_count st) m;
                      cs_count := S (cs_count st);
                      cs_flagged := cs_flagged st ++ [m] |} Hlen)
        as (IH1 & IH2 & IH3).
      simpl in IH1, IH2, IH3.
      rewrite IH1, IH2, Htake, <- !app_assoc. done.
    + by apply IH.
Qed.

Lemma sort_insert_perm {A} (cmp : A -> A -> Z) (a : A) (l : list A) :
  sort_insert cmp a l ≡ₚ a :: l.
Proof.
  induction l as [|b l IH]; simpl; [done |].
  case_decide; [| done].
  rewrite IH. apply Permutation_swap.
Qed.

Lemma array_sort_perm {A} (cmp : A -> A -> Z) (l : list A) :
  array_sort cmp l ≡ₚ l.
Proof.
  unfold array_sort.
  assert (Hgen : forall acc, fold_left (fun sorted a => sort_insert cmp a sorted) l acc
                             ≡ₚ acc ++ l).
  { induction l as [|a l IH]; intros acc; simpl.
    - by rewrite app_nil_r.
    - rewrite IH, sort_insert_perm. simpl. apply Permutation_middle. }
  apply Hgen.
Qed.

(** The visible list is the sorted selection; the flagged instances are
    the selection in scan order. *)
Lemma cullShadowCasters_perm (meshInstances visible : list MeshInstance)
    (camera : ShadowCamera) :
  fst (cullShadowCasters meshInstances visible camera)
    ≡ₚ List.filter (casterPasses camera) meshInstances
  /\ snd (cullShadowCasters meshInstances visible camera)
     = List.filter (casterPasses camera) meshInstances.
Proof.
  unfold cullShadowCasters.
  destruct (cull_loop camera meshInstances
              {| cs_visible := visible; cs_count := 0; cs_flagged := [] |})
    as (Htake & Hflag & _); [simpl; lia |].
  simpl in *. split; [| done].
  by rewrite array_sort_perm, Htake.
Qed.

Lemma cullShadowCasters_elem (meshInstances visible : list MeshInstance)
    (camera : ShadowCamera) (m : MeshInstance) :
  m ∈ fst (cullShadowCasters meshInstances visible camera)
  <-> m ∈ meshInstances /\ (cull m = false \/ _isVisible m camera = true).
Proof.
  destruct (cullShadowCasters_perm meshInstances visible camera) as [Hperm _].
  rewrite Hperm, !list_elem_of_In, filter_In.
  unfold casterPasses. rewrite orb_true_iff, negb_true_iff. done.
Qed.

(** C5 (amended): an instance of the input list is placed in the
    visible list if and only if it is marked non-culling (its cull flag
    is off) or it passes the visibility test against the shadow camera;
    so a culling-enabled caster outside every cascade frustum is in no
    cascade's list, and a caster inside the frustums of two cascades is
    in both lists. *)
Theorem cullShadowCasters_visible_iff (meshInstances : list MeshInstance)
    (m : MeshInstance) :
  (forall (visible : list MeshInstance) (camera : ShadowCamera),
      m ∈ fst (cullShadowCasters meshInstances visible camera)
      <-> m ∈ meshInstances /\ (cull m = false \/ _isVisible m camera = true))
  /\ (cull m = true ->
      forall (visible : list MeshInstance) (camera : ShadowCamera),
        _isVisible m camera = false ->
        m ∉ fst (cullShadowCasters meshInstances visible camera))
  /\ (m ∈ meshInstances ->
      forall (visible1 visible2 : list MeshInstance) (camera1 camera2 : ShadowCamera),
        _isVisible m camera1 = true -> _isVisible m camera2 = true ->
        m ∈ fst (cullShadowCasters meshInstances visible1 camera1)
        /\ m ∈ fst (cullShadowCasters meshInstances visible2 camera2)).
Proof.
  split; [| split].
  - intros visible camera. apply cullShadowCasters_elem.
  - intros Hcull visible camera Hout Hin.
    apply cullShadowCasters_elem in Hin as [_ [Hc|Hv]]; congruence.
  - intros Hm visible1 visible2 camera1 camera2 H1 H2.
    split; apply cullShadowCasters_elem; auto.
Qed.
End Culling.

Section CullingCases.
Local Open Scope R_scope.

Lemma strayCaster_not_visible :
  @_isVisible _ Flat.renderer Flat.strayCaster Flat.originCamera = false.
Proof.
  simpl. unfold Flat.isVisible. simpl.
  rewrite bool_decide_eq_false_2 by lra. done.
Qed.

Lemma cullShadowCasters_visible_iff_witness :
  Flat.strayCaster
    ∈ fst (@cullShadowCasters _ Flat.renderer [Flat.strayCaster] [] Flat.originCamera).
Proof.
  apply (proj1 (@cullShadowCasters_visible_iff _ Flat.renderer
                  [Flat.strayCaster] Flat.strayCaster)).
  split; [apply list_elem_of_here | left; reflexivity].
Defined.

(** C5 as stated fails: a caster marked non-culling that lies outside
    the frustum is placed in the visible list. *)
Lemma nonculling_caster_outside_frustum_listed :
  @cull _ Flat.strayCaster = false
  /\ @_isVisible _ Flat.renderer Flat.strayCaster Flat.originCamera = false
  /\ Flat.strayCaster
       ∈ fst (@cullShadowCasters _ Flat.renderer [Flat.strayCaster] [] Flat.originCamera)
  /\ ~ (Flat.strayCaster
          ∈ fst (@cullShadowCasters _ Flat.renderer [Flat.strayCaster] [] Flat.originCamera)
        <-> Flat.strayCaster ∈ [Flat.strayCaster]
            /\ (@cull _ Flat.strayCaster = true
                \/ @_isVisible _ Flat.renderer Flat.strayCaster Flat.originCamera = true)).
Proof.
  assert (Hin : Flat.strayCaster
            ∈ fst (@cullShadowCasters _ Flat.renderer [Flat.strayCaster] []
                     Flat.originCamera)).
  { apply (@cullShadowCasters_elem _ Flat.renderer).
    split; [apply list_elem_of_here | left; reflexivity]. }
  split; [reflexivity |]. split; [apply strayCaster_not_visible |].
  split; [exact Hin |].
  intros Hiff. apply Hiff in Hin as [_ [Hc|Hv]].
  - discriminate Hc.
  - rewrite strayCaster_not_visible in Hv. discriminate Hv.
Qed.
End CullingCases.

(** ** Depth range of the visible casters *)

Section DepthScan.
Local Open Scope R_scope.

Lemma depthStep_fin (a b zv : R) :
  depthStep (Fin a, Fin b) (Fin zv) = (Fin (Rmin a zv), Fin (Rmax b zv)).
Proof.
  unfold depthStep, JS.gt, JS.lt, Rmin, Rmax.
  destruct (Rle_dec a zv) as [Ha|Ha], (Rle_dec b zv) as [Hb|Hb].
  - rewrite bool_decide_eq_false_2 by lra.
    destruct (decide (b < zv)) as [Hlt|Hge].
    + by rewrite bool_decide_eq_true_2.
    + rewrite bool_decide_eq_false_2 by done. f_equal. f_equal. lra.
  - rewrite bool_decide_eq_false_2 by lra.
    by rewrite bool_decide_eq_false_2 by lra.
  - rewrite bool_decide_eq_true_2 by lra.
    destruct (decide (b < zv)) as [Hlt|Hge].
    + by rewrite bool_decide_eq_true_2.
    + rewrite bool_decide_eq_false_2 by done. f_equal. f_equal. lra.
  - rewrite bool_decide_eq_true_2 by lra.
    by rewrite bool_decide_eq_false_2 by lra.
Qed.

Lemma depth_scan_fin (zs : list R) (a b : R) :
  fold_left depthStep (map Fin zs) (Fin a, Fin b)
  = (Fin (fold_left Rmin zs a), Fin (fold_left Rmax zs b)).
Proof.
  revert a b. induction zs as [|zv zs IH]; intros a b; cbn [fold_left map]; [done |].
  rewrite depthStep_fin. apply IH.
Qed.

Lemma fold_Rmin_spec (zs : list R) (a : R) :
  let m := fold_left Rmin zs a in
  m <= a /\ (forall zv, zv ∈ zs -> m <= zv) /\ (m = a \/ m ∈ zs).
Proof.
  revert a. induction zs as [|z0 zs IH]; intros a; simpl.
  - split; [lra |]. split; [| by left].
    intros zv Hzv. by apply elem_of_nil in Hzv.
  - destruct (IH (Rmin a z0)) as (Hle & Hall & Hmem).
    pose proof (Rmin_l a z0). pose proof (Rmin_r a z0).
    split; [lra |]. split.
    + intros zv Hzv. apply elem_of_cons in Hzv as [->|Hzv]; [lra | by apply Hall].
    + destruct Hmem as [Heq|Hin]; [| right; by apply elem_of_cons; right].
      rewrite Heq. unfold Rmin. destruct (Rle_dec a z0); [by left |].
      right. apply list_elem_of_here.
Qed.

Lemma fold_Rmax_spec (zs : list R) (b : R) :
  let m := fold_left Rmax zs b in
  b <= m /\ (forall zv, zv ∈ zs -> zv <= m) /\ (m = b \/ m ∈ zs).
Proof.
  revert b. induction zs as [|z0 zs IH]; intros b; simpl.
  - split; [lra |]. split; [| by left].
    intros zv Hzv. by apply elem_of_nil in Hzv.
  - destruct (IH (Rmax b z0)) as (Hle & Hall & Hmem).
    pose proof (Rmax_l b z0). pose proof (Rmax_r b z0).
    split; [lra |]. split.
    + intros zv Hzv. apply elem_of_cons in Hzv as [->|Hzv]; [lra | by apply Hall].
    + destruct Hmem as [Heq|Hin]; [| right; by apply elem_of_cons; right].
      rewrite Heq. unfold Rmax. destruct (Rle_dec b z0); [| by left].
      right. apply list_elem_of_here.
Qed.

(** Inside the sentinels the scan returns the least and the greatest of
    the depths. *)
Lemma depth_scan_extrema (zs : list R) :
  zs <> [] ->
  Forall (fun zv => -9999999999 < zv < 9999999999) zs ->
  exists zmin zmax : R,
    fold_left depthStep (map Fin zs) (minz0, maxz0) = (Fin zmin, Fin zmax)
    /\ zmin ∈ zs /\ zmax ∈ zs
    /\ (forall zv, zv ∈ zs -> zmin <= zv <= zmax).
Proof.
  intros Hne Hall. unfold minz0, maxz0. rewrite depth_scan_fin.
  destruct (fold_Rmin_spec zs 9999999999) as (Hmin1 & Hmin2 & Hmin3).
  destruct (fold_Rmax_spec zs (-9999999999)) as (Hmax1 & Hmax2 & Hmax3).
  simpl in *.
  destruct zs as [|z0 zs]; [done |].
  assert (Hz0 : -9999999999 < z0 < 9999999999) by (by inversion Hall).
  pose proof (Hmin2 z0 (list_elem_of_here _ _)).
  pose proof (Hmax2 z0 (list_elem_of_here _ _)).
  eexists _, _. split; [done |].
  split; [destruct Hmin3 as [Heq|Hin]; [lra | done] |].
  split; [destruct Hmax3 as [Heq|Hin]; [lra | done] |].
  intros zv Hzv. split; [by apply Hmin2 | by apply Hmax2].
Qed.
End DepthScan.

Section CascadeDepth.
Context `{FR : ForwardRenderer}.
Local Open Scope R_scope.

Lemma accumulateAabb_nil (box : BoundingBox) : accumulateAabb box [] = box.
Proof. reflexivity. Qed.

Lemma accumulateAabb_cons (box : BoundingBox) (m : MeshInstance) (ms : list MeshInstance) :
  accumulateAabb box (m :: ms) = fold_left bb_add (map aabb ms) (aabb m).
Proof.
  unfold accumulateAabb. cbn [fold_left].
  generalize (aabb m). clear m box.
  induction ms as [|m ms IH]; intros b; [done |].
  cbn [fold_left map]. apply IH.
Qed.

Lemma cascadeCullCamera_clips (light : Light) (lightNode : GraphNode)
    (camera : Camera) (nearDist : num) (shadowCam : ShadowCamera) (cascade : nat) :
  let cam := cascadeCullCamera light lightNode camera nearDist shadowCam cascade in
  nearClip cam = Fin 0 /\ farClip cam = Fin 2000000.
Proof.
  unfold cascadeCullCamera.
  destruct (frustumCenter _ _) as [points center]. by split.
Qed.

(** What a turn of the cascade loop leaves behind. *)
Lemma cullDirectionalCascade_unfold (light : Light) (lightNode : GraphNode)
    (drawCalls : list MeshInstance) (camera : Camera) (nearDist : num)
    (st : CullDirState) (cascade : nat) :
  let rd := renderData st cascade in
  let cam := cascadeCullCamera light lightNode camera nearDist (shadowCamera rd) cascade in
  let visible := fst (cullShadowCasters drawCalls (visibleCasters rd) cam) in
  let st' := cullDirectionalCascade light lightNode drawCalls camera nearDist st cascade in
  visibleSceneAabb st' = accumulateAabb (visibleSceneAabb st) visible
  /\ shadowCamera (renderData st' cascade)
     = tightenDepthRange cam (accumulateAabb (visibleSceneAabb st) visible)
  /\ visibleCasters (renderData st' cascade) = visible
  /\ (forall c : nat, c <> cascade -> renderData st' c = renderData st c).
Proof.
  intros rd cam visible st'. subst rd cam visible st'.
  unfold cullDirectionalCascade.
  destruct (cullShadowCasters _ _ _) as [vis marked].
  cbn [visibleSceneAabb renderData fst]. unfold store_set.
  rewrite decide_True by done.
  split; [done |]. split; [done |]. split; [done |].
  intros c Hc. by rewrite decide_False.
Qed.

Lemma tightenDepthRange_extrema (shadowCam : ShadowCamera) (box : BoundingBox)
    (zs : list R) :
  let view := mat4_invert (getWorldTransform (_node shadowCam)) in
  map (fun p => z (transformPoint view p))
      (aabbCorners (bb_getMin box) (bb_getMax box)) = map Fin zs ->
  Forall (fun zv => -9999999999 < zv < 9999999999) zs ->
  exists zmin zmax : R,
    zmin ∈ zs /\ zmax ∈ zs
    /\ (forall zv, zv ∈ zs -> zmin <= zv <= zmax)
    /\ tightenDepthRange shadowCam box
       = {| _node := translateLocal (_node shadowCam) (Fin 0) (Fin 0) (Fin (zmax + 0.1));
            nearClip := nearClip shadowCam;
            farClip := Fin (zmax - zmin + 0.2);
            orthoHeight := orthoHeight shadowCam |}.
Proof.
  intros view Hzs Hall.
  assert (Hne : zs <> []).
  { intros ->. discriminate Hzs. }
  destruct (depth_scan_extrema zs Hne Hall) as (zmin & zmax & Hscan & Hmin & Hmax & Hbound).
  exists zmin, zmax. split; [done |]. split; [done |]. split; [done |].
  unfold tightenDepthRange, getDepthRange. fold view.
  rewrite Hzs, Hscan. done.
Qed.
End CascadeDepth.

(** ** Texel snapping of the cascade center *)

Section Snap.
Local Open Scope R_scope.

Lemma snapR_grid (p s : R) :
  0 < s ->
  (exists k : Z, snapR p s = IZR k * (1 / s))
  /\ p <= snapR p s < p + 1 / s.
Proof.
  intros Hs. unfold snapR. split.
  - exists (Zceil (p * s)). field. lra.
  - pose proof (Zceil_bound (p * s)) as [Hlo Hhi].
    assert (Hinv : 0 < / s) by (by apply Rinv_0_lt_compat).
    split.
    + apply Rmult_le_reg_r with s; [done |].
      replace (IZR (Zceil (p * s)) / s * s) with (IZR (Zceil (p * s))) by (field; lra).
      done.
    + apply Rmult_lt_reg_r with s; [done |].
      replace (IZR (Zceil (p * s)) / s * s) with (IZR (Zceil (p * s))) by (field; lra).
      replace ((p + 1 / s) * s) with (p * s + 1) by (field; lra).
      lra.
Qed.

Lemma sizeRatio_fin (res : nat) (rad : R) :
  rad <> 0 ->
  (Fin 0.25 * JS.of_nat res / Fin rad)%js = Fin (0.25 * INR res / rad).
Proof. intros Hr. unfold JS.of_nat. cbn [JS.mul]. by rewrite div_fin. Qed.

Lemma snapCenter_fin (cx cy cz ux uy uz rx ry rz lx ly lz rad : R) (res : nat) :
  0 < rad -> (0 < res)%nat ->
  let s := 0.25 * INR res / rad in
  let X := snapR (cx * ux + cy * uy + cz * uz) s in
  let Y := snapR (cx * rx + cy * ry + cz * rz) s in
  let D := cx * lx + cy * ly + cz * lz in
  snapCenter (vec3 cx cy cz) (vec3 ux uy uz) (vec3 rx ry rz) (vec3 lx ly lz)
    res (Fin rad)
  = vec3 (ux * X + rx * Y + lx * D) (uy * X + ry * Y + ly * D)
         (uz * X + rz * Y + lz * D).
Proof.
  intros Hrad Hres s X Y D.
  assert (Hs : 0 < s).
  { unfold s. apply Rdiv_lt_0_compat; [| done].
    apply Rmult_lt_0_compat; [lra |]. apply lt_0_INR. lia. }
  unfold snapCenter. rewrite sizeRatio_fin by lra. fold s.
  unfold Vec3.dot, vec3. cbn [x y z JS.add JS.mul JS.ceil].
  rewrite !div_fin by lra.
  unfold Vec3.add, Vec3.mulScalar. cbn [x y z JS.add JS.mul].
  done.
Qed.
End Snap.

(** ** Stability of the cascade camera *)

Section SnapStability.
Context `{NP : NodePose}.
Local Open Scope R_scope.

Lemma pose_reset (n n' : GraphNode) (p : Vec3) (q : Quat) :
  pose (setRotation (setPosition n p) q) = pose (setRotation (setPosition n' p) q).
Proof. by rewrite !pose_setRotation, !pose_setPosition. Qed.

Lemma cascadeCullCamera_stable (light : Light) (lightNode : GraphNode)
    (camera : Camera) (nearDist : num) (cascade : nat)
    (shadowCam shadowCam' : ShadowCamera) :
  let cam1 := cascadeCullCamera light lightNode camera nearDist shadowCam cascade in
  let cam2 := cascadeCullCamera light lightNode camera nearDist shadowCam' cascade in
  pose (_node cam1) = pose (_node cam2)
  /\ getWorldTransform (_node cam1) = getWorldTransform (_node cam2)
  /\ nearClip cam1 = nearClip cam2
  /\ farClip cam1 = farClip cam2
  /\ orthoHeight cam1 = orthoHeight cam2.
Proof.
  unfold cascadeCullCamera.
  destruct (frustumCenter _ _) as [points center].
  cbn [_node nearClip farClip orthoHeight].
  set (n3 := rotateLocal (setRotation (setPosition (_node shadowCam) _) _) _ _ _).
  set (n3' := rotateLocal (setRotation (setPosition (_node shadowCam') _) _) _ _ _).
  assert (H3 : pose n3 = pose n3') by (apply pose_rotateLocal, pose_reset).
  rewrite (pose_right n3 n3' H3), (pose_up n3 n3' H3), (pose_forward n3 n3' H3).
  set (c := snapCenter _ _ _ _ _ _).
  assert (H5 : pose (translateLocal (setPosition n3 c) (Fin 0) (Fin 0) (Fin 1000000))
               = pose (translateLocal (setPosition n3' c) (Fin 0) (Fin 0) (Fin 1000000))).
  { apply pose_translateLocal. rewrite !pose_setPosition. by rewrite H3. }
  split; [exact H5 |]. split; [by apply pose_worldTransform |]. done.
Qed.
End SnapStability.

Section SnapClaim.
Context `{NP : NodePose}.
Local Open Scope R_scope.

(** X14: the shadow camera that cullDirectional builds for culling a
    cascade sits at the snapped center of the frustum slice: its node is
    the shadow-camera node placed as the light and turned by -90 degrees
    about x, set to snapCenter of the mean of the slice corners (in the
    up, right and forward axes of that node, at the light's resolution
    and the slice radius) and moved by 1000000 along its local Z; its
    near plane is 0, its far plane 2000000 and its half-height the
    radius.  For fixed light, viewer camera and cascade it has the same
    placement, world transform, clip planes and half-height whatever
    state an earlier run left in the shadow camera; and for finite
    vectors, radius > 0 and resolution > 0 the snapped center is
    up*X + right*Y + lightDir*(center.lightDir) where X and Y are the
    projections of the center on up and right rounded up to the next
    multiple of radius / (0.25 * resolution). *)
Theorem cascade_snap_stable :
  (forall (light : Light) (lightNode : GraphNode) (camera : Camera)
          (nearDist : num) (cascade : nat) (shadowCam shadowCam' : ShadowCamera),
      let cam1 := cascadeCullCamera light lightNode camera nearDist shadowCam cascade in
      let cam2 := cascadeCullCamera light lightNode camera nearDist shadowCam' cascade in
      pose (_node cam1) = pose (_node cam2)
      /\ getWorldTransform (_node cam1) = getWorldTransform (_node cam2)
      /\ nearClip cam1 = nearClip cam2
      /\ farClip cam1 = farClip cam2
      /\ orthoHeight cam1 = orthoHeight cam2)
  /\ (forall (cx cy cz ux uy uz rx ry rz lx ly lz rad : R) (res : nat),
        0 < rad -> (0 < res)%nat ->
        let cell := rad / (0.25 * INR res) in
        let pu := cx * ux + cy * uy + cz * uz in
        let pr := cx * rx + cy * ry + cz * rz in
        let D := cx * lx + cy * ly + cz * lz in
        exists kx ky : Z,
          snapCenter (vec3 cx cy cz) (vec3 ux uy uz) (vec3 rx ry rz) (vec3 lx ly lz)
            res (Fin rad)
          = vec3 (ux * (IZR kx * cell) + rx * (IZR ky * cell) + lx * D)
                 (uy * (IZR kx * cell) + ry * (IZR ky * cell) + ly * D)
                 (uz * (IZR kx * cell) + rz * (IZR ky * cell) + lz * D)
          /\ pu <= IZR kx * cell < pu + cell
          /\ pr <= IZR ky * cell < pr + cell)
  /\ (forall (light : Light) (lightNode : GraphNode) (camera : Camera)
             (nearDist : num) (cascade : nat) (shadowCam : ShadowCamera),
        let turned :=
          rotateLocal
            (setRotation (setPosition (_node shadowCam) (getPosition lightNode))
               (getRotation lightNode))
            (Fin (-90)) (Fin 0) (Fin 0) in
        let slice :=
          frustumCenter (getWorldTransform (camera_node camera))
            (frustum_getPoints camera (frustumNearDist light nearDist cascade)
               (frustumFarDist light cascade)) in
        let radius := frustumRadius (fst slice) (snd slice) in
        let center :=
          snapCenter (snd slice) (node_up turned) (node_right turned)
            (node_forward turned) (_shadowResolution light) radius in
        cascadeCullCamera light lightNode camera nearDist shadowCam cascade
        = {| _node := translateLocal (setPosition turned center)
                        (Fin 0) (Fin 0) (Fin 1000000);
             nearClip := Fin 0;
             farClip := Fin 2000000;
             orthoHeight := radius |}).
Proof.
  split; [| split].
  - intros. apply cascadeCullCamera_stable.
  - intros cx cy cz ux uy uz rx ry rz lx ly lz rad res Hrad Hres cell pu pr D.
    assert (HR : 0 < INR res) by (apply lt_0_INR; lia).
    set (s := 0.25 * INR res / rad).
    assert (Hs : 0 < s).
    { unfold s. apply Rdiv_lt_0_compat; [| done].
      apply Rmult_lt_0_compat; [lra | done]. }
    assert (Hcell : 1 / s = cell) by (unfold s, cell; field; lra).
    destruct (snapR_grid pu s Hs) as [[kx Hkx] Hbx].
    destruct (snapR_grid pr s Hs) as [[ky Hky] Hby].
    rewrite Hcell in Hkx, Hky, Hbx, Hby.
    exists kx, ky. split; [| split].
    + rewrite snapCenter_fin by done. fold s. fold pu. fold pr.
      by rewrite Hkx, Hky.
    + by rewrite <- Hkx.
    + by rewrite <- Hky.
  - intros light lightNode camera nearDist cascade shadowCam turned slice radius center.
    subst center radius. unfold cascadeCullCamera.
    fold (frustumNearDist light nearDist cascade). fold (frustumFarDist light cascade).
    fold turned. fold slice. by destruct slice as [points mean].
Qed.
End SnapClaim.

Section SnapWitness.
Local Open Scope R_scope.

Lemma cascade_snap_stable_witness :
  exists kx ky : Z,
    snapCenter (vec3 0.3 0.7 (-1.5)) (vec3 0 1 0) (vec3 1 0 0) (vec3 0 0 (-1))
      6 (Fin 1.5)
    = vec3 (0 * (IZR kx * (1.5 / (0.25 * INR 6))) + 1 * (IZR ky * (1.5 / (0.25 * INR 6)))
            + 0 * (0.3 * 0 + 0.7 * 0 + -1.5 * -1))
           (1 * (IZR kx * (1.5 / (0.25 * INR 6))) + 0 * (IZR ky * (1.5 / (0.25 * INR 6)))
            + 0 * (0.3 * 0 + 0.7 * 0 + -1.5 * -1))
           (0 * (IZR kx * (1.5 / (0.25 * INR 6))) + 0 * (IZR ky * (1.5 / (0.25 * INR 6)))
            + -1 * (0.3 * 0 + 0.7 * 0 + -1.5 * -1))
    /\ 0.3 * 0 + 0.7 * 1 + -1.5 * 0 <= IZR kx * (1.5 / (0.25 * INR 6))
       < 0.3 * 0 + 0.7 * 1 + -1.5 * 0 + 1.5 / (0.25 * INR 6)
    /\ 0.3 * 1 + 0.7 * 0 + -1.5 * 0 <= IZR ky * (1.5 / (0.25 * INR 6))
       < 0.3 * 1 + 0.7 * 0 + -1.5 * 0 + 1.5 / (0.25 * INR 6).
Proof.
  apply (proj1 (proj2 (@cascade_snap_stable Flat.engine Flat_nodePose))
           0.3 0.7 (-1.5) 0 1 0 1 0 0 0 0 (-1) 1.5 6%nat); [lra | lia].
Defined.
End SnapWitness.

(** ** A cascade evaluated in the axis-aligned scene *)

Section FlatCascade.
Local Open Scope R_scope.

Lemma length_fin (a b c d : R) :
  0 <= d -> a * a + b * b + c * c = d * d ->
  Vec3.length (vec3 a b c) = Fin d.
Proof.
  intros Hd Hsq. unfold Vec3.length, vec3. cbn [x y z JS.add JS.mul JS.sqrt].
  rewrite decide_False by nra.
  f_equal. rewrite Hsq. by apply sqrt_square.
Qed.

(** All corners at the same distance d > 0 of the center: the radius
    is d. *)
Lemma frustumRadius_const (points : list Vec3) (center : Vec3) (d : R) :
  0 < d -> points <> [] ->
  Forall (fun p => Vec3.length (Vec3.sub p center) = Fin d) points ->
  frustumRadius points center = Fin d.
Proof.
  intros Hd Hne Hall. unfold frustumRadius.
  destruct points as [|p points]; [done |].
  inversion Hall as [|? ? Hp Hrest]; subst.
  cbn [fold_left]. rewrite Hp. unfold JS.gt. cbn [JS.lt].
  rewrite bool_decide_eq_true_2 by done.
  clear Hp Hall Hne. induction Hrest as [|q qs Hq Hqs IH]; [done |].
  cbn [fold_left]. rewrite Hq. unfold JS.gt. cbn [JS.lt].
  rewrite bool_decide_eq_false_2 by lra. exact IH.
Qed.

Lemma flat_frustumCenter :
  @frustumCenter Flat.engine (vec3 0 0 0)
    (@frustum_getPoints Flat.engine flatCamera (Fin 1) (Fin 2))
  = (flatPoints, vec3 0 0 (-1.5)).
Proof.
  unfold frustumCenter. cbn [frustum_getPoints Flat.engine fold_left transformPoint].
  unfold Vec3.add, vec3, flatPoints. cbn [x y z JS.add JS.neg app].
  unfold Vec3.mulScalar. cbn [x y z]. rewrite div_fin by lra.
  cbn [JS.mul]. unfold vec3.
  repeat (f_equal; try lra).
Qed.

Lemma flat_frustumRadius : frustumRadius flatPoints (vec3 0 0 (-1.5)) = Fin 1.5.
Proof.
  apply frustumRadius_const; [lra | done |].
  unfold flatPoints.
  repeat (apply Forall_cons; split;
          [unfold Vec3.sub, vec3; cbn [x y z JS.sub JS.add JS.neg];
           apply length_fin; lra |]).
  apply Forall_nil_2.
Qed.
End FlatCascade.

Section FlatCullCamera.
Local Open Scope R_scope.

(** The culling camera of cascade 0 sits 1000000 behind the snapped
    center of the slice [1, 2]. *)
Lemma flat_cullCamera :
  exists a b : R,
    @cascadeCullCamera Flat.engine flatLight (vec3 0 0 0) flatCamera (Fin 1)
      Flat.originCamera 0
    = @mkShadowCamera Flat.engine (vec3 a b 999998.5) (Fin 0) (Fin 2000000) (Fin 1.5).
Proof.
  unfold cascadeCullCamera.
  rewrite (decide_True (P := 0%nat = 0%nat)) by done.
  change (array_get (_shadowCascadeDistances flatLight) 0) with (Fin 2).
  change (getWorldTransform (camera_node flatCamera)) with (vec3 0 0 0).
  rewrite flat_frustumCenter, flat_frustumRadius.
  cbn [translateLocal setPosition node_up node_right node_forward Flat.engine].
  change (mkVec3 (Fin 0) (Fin 1) (Fin 0)) with (vec3 0 1 0).
  change (mkVec3 (Fin 1) (Fin 0) (Fin 0)) with (vec3 1 0 0).
  change (mkVec3 (Fin 0) (Fin 0) (Fin (-1))) with (vec3 0 0 (-1)).
  change (_shadowResolution flatLight) with 6%nat.
  rewrite snapCenter_fin by (lra || lia).
  unfold Vec3.add, vec3. cbn [x y z JS.add].
  eexists _, _. f_equal. unfold vec3. f_equal. f_equal. lra.
Qed.

(** Depths of the corners of a box [lo.z, hi.z] seen from a camera at
    height h in the axis-aligned scene. *)
Lemma flat_corner_depths (a b h lx ly lz hx hy hz : R) :
  map (fun p => z (@transformPoint Flat.engine
                     (@mat4_invert Flat.engine
                        (@getWorldTransform Flat.engine (vec3 a b h))) p))
      (aabbCorners (vec3 lx ly lz) (vec3 hx hy hz))
  = map Fin [hz + - h; hz + - h; lz + - h; lz + - h;
             hz + - h; hz + - h; lz + - h; lz + - h].
Proof. reflexivity. Qed.

Lemma fold_Rmin_above (zs : list R) (a : R) :
  Forall (fun zv => a <= zv) zs -> fold_left Rmin zs a = a.
Proof.
  induction 1 as [|zv zs Hz Hzs IH]; [done |].
  cbn [fold_left]. by rewrite Rmin_left.
Qed.

Lemma fold_Rmax_const (zs : list R) (v : R) :
  Forall (fun zv => zv = v) zs -> fold_left Rmax zs v = v.
Proof.
  induction 1 as [|zv zs Hz Hzs IH]; [done |].
  cbn [fold_left]. rewrite Hz, Rmax_left by lra. exact IH.
Qed.
End FlatCullCamera.

Section DepthClaims.
Context `{FR : ForwardRenderer}.
Local Open Scope R_scope.

(** X13: in a cascade whose culled list of visible casters is
    non-empty, the shared box becomes the union (by BoundingBox.add, in
    list order) of the casters' boxes; when the depths of its 8 corners
    in shadow-camera view space are finite and lie strictly between
    -9999999999 and 9999999999, the scan returns their least and
    greatest value, the camera node is translated along its local Z by
    max + 0.1, its far plane becomes max - min + 0.2 and its near plane
    stays 0, so that every corner depth lies at least 0.1 inside the new
    range. *)
Theorem cullDirectional_tightens_depth_range (light : Light) (lightNode : GraphNode)
    (drawCalls : list MeshInstance) (camera : Camera) (nearDist : num)
    (st : CullDirState) (cascade : nat)
    (m : MeshInstance) (ms : list MeshInstance) (zs : list R) :
  let rd := renderData st cascade in
  let cam := cascadeCullCamera light lightNode camera nearDist (shadowCamera rd) cascade in
  let box := fold_left bb_add (map aabb ms) (aabb m) in
  let view := mat4_invert (getWorldTransform (_node cam)) in
  let st' := cullDirectionalCascade light lightNode drawCalls camera nearDist st cascade in
  fst (cullShadowCasters drawCalls (visibleCasters rd) cam) = m :: ms ->
  map (fun p => z (transformPoint view p))
      (aabbCorners (bb_getMin box) (bb_getMax box)) = map Fin zs ->
  Forall (fun zv => -9999999999 < zv < 9999999999) zs ->
  exists zmin zmax : R,
    zmin ∈ zs /\ zmax ∈ zs
    /\ (forall zv, zv ∈ zs -> zmin <= zv <= zmax)
    /\ visibleSceneAabb st' = box
    /\ shadowCamera (renderData st' cascade)
       = {| _node := translateLocal (_node cam) (Fin 0) (Fin 0) (Fin (zmax + 0.1));
            nearClip := Fin 0;
            farClip := Fin (zmax - zmin + 0.2);
            orthoHeight := orthoHeight cam |}
    /\ (forall zv, zv ∈ zs ->
          0.1 <= zmax + 0.1 - zv <= zmax - zmin + 0.2 - 0.1).
Proof.
  intros rd cam box view st' Hvis Hzs Hall.
  destruct (cullDirectionalCascade_unfold light lightNode drawCalls camera nearDist
              st cascade) as (Hbox & Hcam & _ & _).
  fold rd in Hbox, Hcam. fold cam in Hbox, Hcam. fold st' in Hbox, Hcam.
  rewrite Hvis, accumulateAabb_cons in Hbox, Hcam. fold box in Hbox, Hcam.
  destruct (tightenDepthRange_extrema cam box zs Hzs Hall)
    as (zmin & zmax & Hmin & Hmax & Hbound & Htight).
  exists zmin, zmax.
  split; [done |]. split; [done |]. split; [done |]. split; [done |].
  split.
  - rewrite Hcam, Htight. f_equal.
    apply (cascadeCullCamera_clips light lightNode camera nearDist
             (shadowCamera rd) cascade).
  - intros zv Hzv. specialize (Hbound zv Hzv). lra.
Qed.

(** C10: in a cascade whose culled list of visible casters is empty
    the shared box is left as it was, and the cascade's camera
    translation and far plane are computed from that stored box: when
    the depths of the 8 corners of the stored box in the view space of
    the cascade's camera are finite and inside the range of the scan,
    the camera is translated along its local Z by max + 0.1 and its far
    plane becomes max - min + 0.2, for the least and greatest of these
    depths.  The stored box is the union of the casters of the latest
    cascade that had any (a non-empty cascade overwrites it whatever it
    held), so after a non-empty cascade followed by an empty one, of
    this or of another call, the empty cascade's camera is tightened on
    the corner depths of the first cascade's casters. *)
Theorem cullDirectional_empty_cascade_reuses_box (light : Light) (lightNode : GraphNode)
    (drawCalls : list MeshInstance) (camera : Camera) (nearDist : num)
    (st : CullDirState) (cascade : nat) :
  let rd := renderData st cascade in
  let cam := cascadeCullCamera light lightNode camera nearDist (shadowCamera rd) cascade in
  let view := mat4_invert (getWorldTransform (_node cam)) in
  let st' := cullDirectionalCascade light lightNode drawCalls camera nearDist st cascade in
  (fst (cullShadowCasters drawCalls (visibleCasters rd) cam) = [] ->
     visibleSceneAabb st' = visibleSceneAabb st
     /\ visibleCasters (renderData st' cascade) = []
     /\ forall zs : list R,
          map (fun p => z (transformPoint view p))
              (aabbCorners (bb_getMin (visibleSceneAabb st))
                 (bb_getMax (visibleSceneAabb st))) = map Fin zs ->
          Forall (fun zv => -9999999999 < zv < 9999999999) zs ->
          exists zmin zmax : R,
            zmin ∈ zs /\ zmax ∈ zs
            /\ (forall zv, zv ∈ zs -> zmin <= zv <= zmax)
            /\ shadowCamera (renderData st' cascade)
               = {| _node := translateLocal (_node cam) (Fin 0) (Fin 0)
                               (Fin (zmax + 0.1));
                    nearClip := Fin 0;
                    farClip := Fin (zmax - zmin + 0.2);
                    orthoHeight := orthoHeight cam |})
  /\ (forall (m : MeshInstance) (ms : list MeshInstance),
        fst (cullShadowCasters drawCalls (visibleCasters rd) cam) = m :: ms ->
        let box := fold_left bb_add (map aabb ms) (aabb m) in
        visibleSceneAabb st' = box
        /\ forall (light2 : Light) (lightNode2 : GraphNode)
                  (drawCalls2 : list MeshInstance) (camera2 : Camera)
                  (nearDist2 : num) (cascade2 : nat) (zs : list R),
             let rd2 := renderData st' cascade2 in
             let cam2 := cascadeCullCamera light2 lightNode2 camera2 nearDist2
                           (shadowCamera rd2) cascade2 in
             let view2 := mat4_invert (getWorldTransform (_node cam2)) in
             let st'' := cullDirectionalCascade light2 lightNode2 drawCalls2 camera2
                           nearDist2 st' cascade2 in
             fst (cullShadowCasters drawCalls2 (visibleCasters rd2) cam2) = [] ->
             map (fun p => z (transformPoint view2 p))
                 (aabbCorners (bb_getMin box) (bb_getMax box)) = map Fin zs ->
             Forall (fun zv => -9999999999 < zv < 9999999999) zs ->
             visibleSceneAabb st'' = box
             /\ exists zmin zmax : R,
                  zmin ∈ zs /\ zmax ∈ zs
                  /\ (forall zv, zv ∈ zs -> zmin <= zv <= zmax)
                  /\ shadowCamera (renderData st'' cascade2)
                     = {| _node := translateLocal (_node cam2) (Fin 0) (Fin 0)
                                     (Fin (zmax + 0.1));
                          nearClip := Fin 0;
                          farClip := Fin (zmax - zmin + 0.2);
                          orthoHeight := orthoHeight cam2 |}).
Proof.
  intros rd cam view st'.
  assert (Hempty : forall (light0 : Light) (node0 : GraphNode)
                     (calls0 : list MeshInstance) (camera0 : Camera) (near0 : num)
                     (st0 : CullDirState) (c0 : nat) (zs : list R),
             let rd0 := renderData st0 c0 in
             let cam0 := cascadeCullCamera light0 node0 camera0 near0
                           (shadowCamera rd0) c0 in
             let st1 := cullDirectionalCascade light0 node0 calls0 camera0 near0 st0 c0 in
             fst (cullShadowCasters calls0 (visibleCasters rd0) cam0) = [] ->
             map (fun p => z (transformPoint
                                (mat4_invert (getWorldTransform (_node cam0))) p))
                 (aabbCorners (bb_getMin (visibleSceneAabb st0))
                    (bb_getMax (visibleSceneAabb st0))) = map Fin zs ->
             Forall (fun zv => -9999999999 < zv < 9999999999) zs ->
             exists zmin zmax : R,
               zmin ∈ zs /\ zmax ∈ zs
               /\ (forall zv, zv ∈ zs -> zmin <= zv <= zmax)
               /\ shadowCamera (renderData st1 c0)
                  = {| _node := translateLocal (_node cam0) (Fin 0) (Fin 0)
                                  (Fin (zmax + 0.1));
                       nearClip := Fin 0;
                       farClip := Fin (zmax - zmin + 0.2);
                       orthoHeight := orthoHeight cam0 |}).
  { intros light0 node0 calls0 camera0 near0 st0 c0 zs rd0 cam0 st1 Hvis0 Hzs Hall.
    destruct (cullDirectionalCascade_unfold light0 node0 calls0 camera0 near0 st0 c0)
      as (_ & Hcam0 & _ & _).
    fold rd0 in Hcam0. fold cam0 in Hcam0. fold st1 in Hcam0.
    rewrite Hvis0, accumulateAabb_nil in Hcam0.
    destruct (tightenDepthRange_extrema cam0 (visibleSceneAabb st0) zs Hzs Hall)
      as (zmin & zmax & Hmin & Hmax & Hbound & Htight).
    exists zmin, zmax. split; [done |]. split; [done |]. split; [done |].
    rewrite Hcam0, Htight. f_equal.
    apply (cascadeCullCamera_clips light0 node0 camera0 near0 (shadowCamera rd0) c0). }
  destruct (cullDirectionalCascade_unfold light lightNode drawCalls camera nearDist
              st cascade) as (Hbox & Hcam & Hlist & _).
  fold rd in Hbox, Hcam, Hlist. fold cam in Hbox, Hcam, Hlist.
  fold st' in Hbox, Hcam, Hlist.
  split.
  - intros Hvis. rewrite Hvis, accumulateAabb_nil in Hbox. rewrite Hvis in Hlist.
    split; [done |]. split; [done |].
    intros zs Hzs Hall.
    exact (Hempty light lightNode drawCalls camera nearDist st cascade zs Hvis Hzs Hall).
  - intros m ms Hvis box. rewrite Hvis, accumulateAabb_cons in Hbox. fold box in Hbox.
    split; [done |].
    intros light2 lightNode2 drawCalls2 camera2 nearDist2 cascade2 zs rd2 cam2 view2 st''
      Hvis2 Hzs Hall.
    destruct (cullDirectionalCascade_unfold light2 lightNode2 drawCalls2 camera2
                nearDist2 st' cascade2) as (Hbox2 & _ & _ & _).
    fold rd2 in Hbox2. fold cam2 in Hbox2. fold st'' in Hbox2.
    rewrite Hvis2, accumulateAabb_nil, Hbox in Hbox2.
    split; [done |].
    apply (Hempty light2 lightNode2 drawCalls2 camera2 nearDist2 st' cascade2 zs Hvis2);
      [| done].
    rewrite Hbox. exact Hzs.
Qed.
End DepthClaims.

Section FlatDepthCases.
Local Open Scope R_scope.

Lemma flat_cull_nonculling (m : @MeshInstance Flat.engine)
    (cam : @ShadowCamera Flat.engine) :
  @cull Flat.engine m = false ->
  @cullShadowCasters Flat.engine Flat.renderer [m] [] cam = ([m], [m]).
Proof.
  intros Hc. unfold cullShadowCasters. cbn [fold_left]. unfold cullStep.
  rewrite Hc. reflexivity.
Qed.

Lemma cullDirectional_tightens_depth_range_witness :
  exists zmin zmax : R,
    zmin <= zmax
    /\ @farClip Flat.engine
         (@shadowCamera Flat.engine
            (@renderData Flat.engine
               (@cullDirectionalCascade Flat.engine Flat.renderer flatLight (vec3 0 0 0)
                  [Flat.strayCaster] flatCamera (Fin 1) flatState 0) 0))
       = Fin (zmax - zmin + 0.2).
Proof.
  destruct flat_cullCamera as (a & b & Hcam).
  destruct (@cullDirectional_tightens_depth_range Flat.engine Flat.renderer flatLight
              (vec3 0 0 0) [Flat.strayCaster] flatCamera (Fin 1) flatState 0
              Flat.strayCaster []
              [6 + - (999998.5); 6 + - (999998.5); 5 + - (999998.5); 5 + - (999998.5);
               6 + - (999998.5); 6 + - (999998.5); 5 + - (999998.5); 5 + - (999998.5)])
    as (zmin & zmax & Hmin & _ & Hbound & _ & Hcamera & _).
  - by rewrite flat_cull_nonculling.
  - change (@shadowCamera Flat.engine (@renderData Flat.engine flatState 0))
      with Flat.originCamera.
    rewrite Hcam. exact (flat_corner_depths a b 999998.5 5 5 5 6 6 6).
  - repeat (apply Forall_cons; split; [lra |]). apply Forall_nil_2.
  - exists zmin, zmax. split.
    + by apply Hbound.
    + by rewrite Hcamera.
Defined.

Lemma cullDirectional_empty_cascade_reuses_box_witness :
  @visibleSceneAabb Flat.engine
    (@cullDirectionalCascade Flat.engine Flat.renderer flatLight (vec3 0 0 0)
       [] flatCamera (Fin 1) flatState 0)
  = (vec3 0 0 0, vec3 1 1 1)
  /\ @farClip Flat.engine
       (@shadowCamera Flat.engine
          (@renderData Flat.engine
             (@cullDirectionalCascade Flat.engine Flat.renderer flatLight (vec3 0 0 0)
                [] flatCamera (Fin 1) flatState 0) 0))
     = Fin 1.2.
Proof.
  destruct flat_cullCamera as (a & b & Hcam).
  destruct (proj1 (@cullDirectional_empty_cascade_reuses_box Flat.engine Flat.renderer
                     flatLight (vec3 0 0 0) [] flatCamera (Fin 1) flatState 0))
    as (Hbox & _ & Hdepth); [reflexivity |].
  split; [exact Hbox |].
  destruct (Hdepth [1 + - (999998.5); 1 + - (999998.5); 0 + - (999998.5);
                    0 + - (999998.5); 1 + - (999998.5); 1 + - (999998.5);
                    0 + - (999998.5); 0 + - (999998.5)])
    as (zmin & zmax & Hmin & Hmax & Hbound & Hcamera).
  - change (@shadowCamera Flat.engine (@renderData Flat.engine flatState 0))
      with Flat.originCamera.
    rewrite Hcam. exact (flat_corner_depths a b 999998.5 0 0 0 1 1 1).
  - repeat (apply Forall_cons; split; [lra |]). apply Forall_nil_2.
  - rewrite Hcamera. cbn [farClip]. f_equal.
    assert (Hlo : zmin <= 0 + - (999998.5)) by (apply Hbound; do 2 right; left).
    assert (Hhi : 1 + - (999998.5) <= zmax) by (apply Hbound; left).
    assert (Hmin' : 0 + - (999998.5) <= zmin).
    { repeat (apply elem_of_cons in Hmin as [Hmin|Hmin]; [lra |]).
      by apply elem_of_nil in Hmin. }
    assert (Hmax' : zmax <= 1 + - (999998.5)).
    { repeat (apply elem_of_cons in Hmax as [Hmax|Hmax]; [lra |]).
      by apply elem_of_nil in Hmax. }
    lra.
Defined.

(** C3: the code misses the claim for a caster beyond the start values
    of the scan.  A caster marked non-culling 3e10 units away is the only
    visible caster of the cascade; the depth of every corner of its box
    is d = 3e10 - 999998.5, yet the far plane is set to
    d - 9999999999 + 0.2 and not to max - min + 0.2 = 0.2, because the
    scan of getDepthRange for the minimum starts at 9999999999 and not
    at the first depth. *)
Lemma remote_caster_depth_range_not_tight :
  let rd := @renderData Flat.engine flatState 0 in
  let cam := @cascadeCullCamera Flat.engine flatLight (vec3 0 0 0) flatCamera (Fin 1)
               (@shadowCamera Flat.engine rd) 0 in
  let view := @mat4_invert Flat.engine (@getWorldTransform Flat.engine (@_node Flat.engine cam)) in
  let st' := @cullDirectionalCascade Flat.engine Flat.renderer flatLight (vec3 0 0 0)
               [Flat.remoteCaster] flatCamera (Fin 1) flatState 0 in
  let d := 30000000000 + - (999998.5) in
  @visibleCasters Flat.engine (@renderData Flat.engine st' 0) = [Flat.remoteCaster]
  /\ map (fun p => z (@transformPoint Flat.engine view p))
         (aabbCorners (vec3 0 0 30000000000) (vec3 0 0 30000000000))
     = map Fin [d; d; d; d; d; d; d; d]
  /\ @farClip Flat.engine (@shadowCamera Flat.engine (@renderData Flat.engine st' 0))
     = Fin (d - 9999999999 + 0.2)
  /\ Fin (d - 9999999999 + 0.2) <> Fin (d - d + 0.2).
Proof.
  intros rd cam view st' d.
  destruct flat_cullCamera as (a & b & Hcam).
  change (@shadowCamera Flat.engine rd) with Flat.originCamera in cam.
  destruct (@cullDirectionalCascade_unfold Flat.engine Flat.renderer flatLight
              (vec3 0 0 0) [Flat.remoteCaster] flatCamera (Fin 1) flatState 0)
    as (_ & Hcamera & Hvis & _).
  fold st' in Hcamera, Hvis.
  rewrite flat_cull_nonculling in Hcamera, Hvis by done.
  cbn [fst] in Hcamera, Hvis.
  assert (Hdepths :
    map (fun p => z (@transformPoint Flat.engine view p))
        (aabbCorners (vec3 0 0 30000000000) (vec3 0 0 30000000000))
    = map Fin [d; d; d; d; d; d; d; d]).
  { unfold view, cam. rewrite Hcam.
    exact (flat_corner_depths a b 999998.5 0 0 30000000000 0 0 30000000000). }
  split; [exact Hvis |]. split; [exact Hdepths |]. split.
  - rewrite Hcamera. unfold tightenDepthRange, getDepthRange.
    change (@shadowCamera Flat.engine (@renderData Flat.engine flatState 0))
      with Flat.originCamera.
    fold cam. fold view.
    change (bb_getMin (accumulateAabb (visibleSceneAabb flatState) [Flat.remoteCaster]))
      with (vec3 0 0 30000000000).
    change (bb_getMax (accumulateAabb (visibleSceneAabb flatState) [Flat.remoteCaster]))
      with (vec3 0 0 30000000000).
    rewrite Hdepths. unfold minz0, maxz0. rewrite depth_scan_fin.
    rewrite fold_Rmin_above
      by (repeat (apply Forall_cons; split; [unfold d; lra |]); apply Forall_nil_2).
    cbn [fold_left]. rewrite (Rmax_right (-9999999999) d) by (unfold d; lra).
    rewrite !(Rmax_left d d) by lra. done.
  - intros Heq. injection Heq as Heq. unfold d in Heq. lra.
Qed.
End FlatDepthCases.

(** ** Render state and the render pass *)

Section RenderState.
Local Open Scope R_scope.

(** The bias value sent to the device for a finite positive bias. *)
Lemma bias_value (b : R) :
  0 < b -> (Fin b * Fin (-1000.0))%js = Fin (b * -1000.0) /\ b * -1000.0 < 0.
Proof. intros Hb. split; [done | lra]. Qed.

Lemma setupRenderState_states (r : ShadowRenderer) (light : Light) :
  let d' := device (setupRenderState r light) in
  blending d' = false /\ depthWrite d' = true /\ depthTest d' = true
  /\ depthFunc d' = FUNC_LESSEQUAL
  /\ webgl2 d' = webgl2 (device r)
  /\ extStandardDerivatives d' = extStandardDerivatives (device r).
Proof.
  unfold setupRenderState.
  destruct (webgl2 (device r)) eqn:Hw, (extStandardDerivatives (device r)) eqn:He,
    (_type light =? LIGHTTYPE_OMNI)%Z, (clusteredLightingEnabled r), (_isPcf light);
    simpl; rewrite ?Hw, ?He; simpl; done.
Qed.

Lemma setupRenderState_webgl2 (r : ShadowRenderer) (light : Light) :
  webgl2 (device r) = true ->
  let r' := setupRenderState r light in
  polygonOffset r' = polygonOffset r
  /\ polygonOffsetId r' = polygonOffsetId r
  /\ if (_type light =? LIGHTTYPE_OMNI)%Z && negb (clusteredLightingEnabled r)
     then depthBias (device r') = false
          /\ depthBiasValues (device r') = depthBiasValues (device r)
     else depthBias (device r') = true
          /\ depthBiasValues (device r')
             = ((shadowBias light * Fin (-1000.0))%js,
                (shadowBias light * Fin (-1000.0))%js).
Proof.
  intros Hw. unfold setupRenderState. rewrite Hw.
  destruct (_type light =? LIGHTTYPE_OMNI)%Z, (clusteredLightingEnabled r), (_isPcf light);
    simpl; rewrite ?Hw; simpl; done.
Qed.

Lemma setupRenderState_derivatives (r : ShadowRenderer) (light : Light) :
  webgl2 (device r) = false -> extStandardDerivatives (device r) = true ->
  let r' := setupRenderState r light in
  depthBias (device r') = depthBias (device r)
  /\ depthBiasValues (device r') = depthBiasValues (device r)
  /\ polygonOffsetId r' = true
  /\ polygonOffset r'
     = if (_type light =? LIGHTTYPE_OMNI)%Z then (Fin 0, Fin 0)
       else ((shadowBias light * Fin (-1000.0))%js,
             (shadowBias light * Fin (-1000.0))%js).
Proof.
  intros Hw He. unfold setupRenderState. rewrite Hw, He.
  destruct (_type light =? LIGHTTYPE_OMNI)%Z, (clusteredLightingEnabled r), (_isPcf light);
    simpl; rewrite ?Hw; simpl; done.
Qed.

Lemma setupRenderState_no_bias_support (r : ShadowRenderer) (light : Light) :
  webgl2 (device r) = false -> extStandardDerivatives (device r) = false ->
  let r' := setupRenderState r light in
  depthBias (device r') = depthBias (device r)
  /\ depthBiasValues (device r') = depthBiasValues (device r)
  /\ polygonOffsetId r' = polygonOffsetId r
  /\ polygonOffset r' = polygonOffset r.
Proof.
  intros Hw He. unfold setupRenderState. rewrite Hw, He.
  destruct (clusteredLightingEnabled r), (_isPcf light);
    simpl; rewrite ?Hw; simpl; done.
Qed.

Lemma restoreRenderState_bias (r : ShadowRenderer) :
  let r' := restoreRenderState r in
  (webgl2 (device r) = true ->
     depthBias (device r') = false /\ polygonOffset r' = polygonOffset r)
  /\ (webgl2 (device r) = false -> extStandardDerivatives (device r) = true ->
        polygonOffset r' = (Fin 0, Fin 0) /\ polygonOffsetId r' = true
        /\ depthBias (device r') = depthBias (device r))
  /\ (webgl2 (device r) = false -> extStandardDerivatives (device r) = false ->
        polygonOffset r' = polygonOffset r
        /\ depthBias (device r') = depthBias (device r))
  /\ trace r' = trace r ++ [EvRestoreRenderState].
Proof.
  unfold restoreRenderState.
  destruct (webgl2 (device r)), (extStandardDerivatives (device r)); simpl;
    repeat split; intros; try done.
Qed.
End RenderState.

Section RenderPass.

Lemma setupRenderState_frame (r : ShadowRenderer) (light : Light) :
  let r' := setupRenderState r light in
  trace r' = trace r ++ [EvSetupRenderState]
  /\ clusteredLightingEnabled r' = clusteredLightingEnabled r
  /\ shadowMapCache r' = shadowMapCache r.
Proof.
  unfold setupRenderState.
  destruct (webgl2 (device r)) eqn:Hw, (extStandardDerivatives (device r)) eqn:He,
    (_type light =? LIGHTTYPE_OMNI)%Z, (clusteredLightingEnabled r) eqn:Hc,
    (_isPcf light);
    simpl; rewrite ?Hw, ?He; simpl; done.
Qed.

Lemma renderFaces_frame (light : Light) (faces : list nat) (r : ShadowRenderer) :
  let r' := fold_left (renderFace light) faces r in
  trace r' = trace r ++ map (fun face => EvFace face light) faces
  /\ device r' = device r
  /\ polygonOffset r' = polygonOffset r
  /\ clusteredLightingEnabled r' = clusteredLightingEnabled r
  /\ shadowMapCache r' = shadowMapCache r.
Proof.
  revert r. induction faces as [|face faces IH]; intros r; cbn [fold_left map].
  - by rewrite app_nil_r.
  - destruct (IH (renderFace light r face)) as (Ht & Hd & Hp & Hc & Hm).
    rewrite Ht, Hd, Hp, Hc, Hm. simpl. by rewrite <- app_assoc.
Qed.

Lemma getVsmBlurShader_frame (r : ShadowRenderer) (isVsm8 : bool) (blurMode : Z)
    (filterSize : nat) :
  let r' := getVsmBlurShader r isVsm8 blurMode filterSize in
  trace r' = trace r /\ device r' = device r
  /\ polygonOffset r' = polygonOffset r
  /\ shadowMapCache r' = shadowMapCache r.
Proof.
  unfold getVsmBlurShader. destruct isVsm8; case_decide; simpl; done.
Qed.

Lemma ShadowMapCache_get_frame (r : ShadowRenderer) (light : Light) :
  let key := ShadowMapCache.getKey light in
  let tempShadowMap := fst (ShadowMapCache.get r light) in
  let r' := snd (ShadowMapCache.get r light) in
  trace r' = trace r /\ device r' = device r
  /\ polygonOffset r' = polygonOffset r
  /\ ((exists rest, shadowMapCache r !! key = Some (tempShadowMap :: rest)
                    /\ shadowMapCache r' = <[key := rest]> (shadowMapCache r))
      \/ ((shadowMapCache r !! key = None \/ shadowMapCache r !! key = Some [])
          /\ shadowMapCache r' = shadowMapCache r)).
Proof.
  unfold ShadowMapCache.get.
  destruct (shadowMapCache r !! ShadowMapCache.getKey light) as [[|sm rest]|] eqn:Hlook;
    cbn [fst snd trace device polygonOffset shadowMapCache with_cache].
  - repeat split; try done. right. split; [by right | done].
  - repeat split; try done. left. by exists rest.
  - repeat split; try done. right. split; [by left | done].
Qed.

(** What applyVsmBlur sends and what it leaves in the pool. *)
Lemma applyVsmBlur_run (r : ShadowRenderer) (light : Light) (origShadowMap : RenderTarget) :
  let tempShadowMap := fst (ShadowMapCache.get r light) in
  let tempRt := renderTargets tempShadowMap 0 in
  let key := ShadowMapCache.getKey light in
  let step := (Fin 1 / JS.of_nat (_shadowResolution light))%js in
  let r' := applyVsmBlur r light origShadowMap in
  (exists (weight : option (list num)) (scissor : num * num * num * num),
      trace r'
      = trace r ++ [ EvCacheGet tempShadowMap;
                     EvDrawQuad tempRt origShadowMap (step, Fin 0) weight scissor;
                     EvDrawQuad origShadowMap tempRt (Fin 0, step) weight scissor;
                     EvCacheAdd tempShadowMap ])
  /\ device r' = device r
  /\ polygonOffset r' = polygonOffset r
  /\ (exists rest : list ShadowMap,
        shadowMapCache r' !! key = Some (tempShadowMap :: rest))
  /\ (forall rest : list ShadowMap,
        shadowMapCache r !! key = Some (tempShadowMap :: rest) ->
        shadowMapCache r' = shadowMapCache r).
Proof.
  intros tempShadowMap tempRt key step r'.
  destruct (ShadowMapCache_get_frame r light) as (Ht0 & Hd0 & Hp0 & Hcache).
  fold key in Hcache. fold tempShadowMap in Hcache.
  subst r'. unfold applyVsmBlur.
  destruct (ShadowMapCache.get r light) as [t r0] eqn:Hget.
  cbn [fst snd] in *. subst tempShadowMap tempRt.
  fold step.
  match goal with
  | |- context [getVsmBlurShader ?a ?b ?c ?d] =>
      destruct (getVsmBlurShader_frame a b c d) as (Ht & Hd & Hp & Hc);
      set (r2 := getVsmBlurShader a b c d) in *
  end.
  cbn [trace device polygonOffset shadowMapCache emit] in Ht, Hd, Hp, Hc.
  set (r3 := if (vsmBlurMode light =? BLUR_GAUSSIAN)%Z
             then with_weightId r2 (blurVsmWeights r2 !! _vsmBlurSize light) else r2).
  assert (H3 : trace r3 = trace r2 /\ device r3 = device r2
               /\ polygonOffset r3 = polygonOffset r2
               /\ shadowMapCache r3 = shadowMapCache r2).
  { unfold r3. by destruct (vsmBlurMode light =? BLUR_GAUSSIAN)%Z. }
  destruct H3 as (Ht3 & Hd3 & Hp3 & Hc3).
  unfold ShadowMapCache.add. fold key.
  cbn [trace device polygonOffset shadowMapCache weightId emit with_cache fst].
  rewrite Ht3, Hd3, Hp3, Hc3, Ht, Hd, Hp, Hc, Ht0, Hd0, Hp0.
  split; [eexists _, _; rewrite <- !app_assoc; reflexivity |].
  split; [done |]. split; [done |].
  split; [eexists; apply lookup_insert_eq |].
  intros rest Hrest.
  destruct Hcache as [(rest0 & Hlook & Hr0)|[[Hnone|Hnil] Hr0]].
  - rewrite Hr0, lookup_insert_eq. cbn [default from_option].
    rewrite insert_insert_eq. rewrite Hlook in Hrest.
    injection Hrest as <-. by apply insert_id.
  - rewrite Hnone in Hrest. discriminate Hrest.
  - rewrite Hnil in Hrest. discriminate Hrest.
Qed.
End RenderPass.

Section RenderRun.

Lemma render_skip (r : ShadowRenderer) (light : Light) (origShadowMap : RenderTarget) :
  renderGuard light = false -> render r light origShadowMap = (r, light).
Proof. unfold renderGuard, render. by intros ->. Qed.

Lemma firedLight_fields (light : Light) :
  let l1 := firedLight light in
  numShadowFaces l1 = numShadowFaces light /\ _isVsm l1 = _isVsm light
  /\ _vsmBlurSize l1 = _vsmBlurSize light /\ _type l1 = _type light.
Proof. unfold firedLight. by destruct (shadowUpdateMode light =? _)%Z. Qed.

Lemma render_run (r : ShadowRenderer) (light : Light) (origShadowMap : RenderTarget) :
  renderGuard light = true ->
  let l1 := firedLight light in
  let r' := fst (render r light origShadowMap) in
  snd (render r light origShadowMap) = l1
  /\ (exists blur : list Event,
        trace r'
        = trace r ++ [EvSetupRenderState]
            ++ map (fun face => EvFace face l1) (seq 0 (numShadowFaces light))
            ++ blur ++ [EvRestoreRenderState]
        /\ Forall (fun e => is_blur_event e = true) blur
        /\ (blurGuard r light = false -> blur = [])
        /\ (blurGuard r light = true -> length blur = 4%nat))
  /\ webgl2 (device r') = webgl2 (device r)
  /\ extStandardDerivatives (device r') = extStandardDerivatives (device r)
  /\ (webgl2 (device r) = true -> depthBias (device r') = false)
  /\ (webgl2 (device r) = false -> extStandardDerivatives (device r) = true ->
        polygonOffset r' = (Fin 0, Fin 0))
  /\ (webgl2 (device r) = false -> extStandardDerivatives (device r) = false ->
        polygonOffset r' = polygonOffset r
        /\ depthBias (device r') = depthBias (device r)).
Proof.
  intros Hguard l1 r'. subst r'.
  unfold render. fold (renderGuard light). rewrite Hguard.
  fold (firedLight light). fold l1.
  destruct (firedLight_fields light) as (Hn & Hv & Hb & Hty). fold l1 in Hn, Hv, Hb, Hty.
  rewrite Hn, Hv, Hb, Hty.
  set (r1 := with_shadowMapUpdates r _).
  set (r2 := setupRenderState r1 l1).
  set (r3 := fold_left (renderFace l1) (seq 0 (numShadowFaces light)) r2).
  destruct (setupRenderState_frame r1 l1) as (Ht2 & Hc2 & _). fold r2 in Ht2, Hc2.
  destruct (setupRenderState_states r1 l1) as (_ & _ & _ & _ & Hw2 & He2).
  fold r2 in Hw2, He2.
  destruct (renderFaces_frame l1 (seq 0 (numShadowFaces light)) r2)
    as (Ht3 & Hd3 & Hp3 & Hc3 & _). fold r3 in Ht3, Hd3, Hp3, Hc3.
  change (trace r1) with (trace r) in Ht2.
  change (clusteredLightingEnabled r1) with (clusteredLightingEnabled r) in Hc2.
  change (device r1) with (device r) in Hw2, He2.
  set (r4 := if _isVsm light && (1 <? _vsmBlurSize light)%nat
             then if negb (clusteredLightingEnabled r3)
                     || (_type light =? LIGHTTYPE_DIRECTIONAL)%Z
                  then applyVsmBlur r3 l1 origShadowMap else r3
             else r3).
  cbn [fst snd].
  assert (H4 : exists blur : list Event,
             trace r4 = trace r3 ++ blur
             /\ Forall (fun e => is_blur_event e = true) blur
             /\ (blurGuard r light = false -> blur = [])
             /\ (blurGuard r light = true -> length blur = 4%nat)
             /\ device r4 = device r3 /\ polygonOffset r4 = polygonOffset r3).
  { unfold r4, blurGuard. rewrite Hc3, Hc2.
    destruct (_isVsm light && (1 <? _vsmBlurSize light)%nat);
      [destruct (negb (clusteredLightingEnabled r)
                 || (_type light =? LIGHTTYPE_DIRECTIONAL)%Z) |].
    - destruct (applyVsmBlur_run r3 l1 origShadowMap)
        as ((w & sc & Htr) & Hd & Hp & _).
      eexists. split; [exact Htr |].
      split; [repeat constructor |]. by repeat split.
    - exists []. rewrite app_nil_r. by repeat split.
    - exists []. rewrite app_nil_r. by repeat split. }
  destruct H4 as (blur & Ht4 & Hblur & Hoff & Hon & Hd4 & Hp4).
  destruct (restoreRenderState_bias r4) as (Hr1 & Hr2 & Hr3 & Ht5).
  assert (Hw4 : webgl2 (device r4) = webgl2 (device r)) by (by rewrite Hd4, Hd3).
  assert (He4 : extStandardDerivatives (device r4) = extStandardDerivatives (device r))
    by (by rewrite Hd4, Hd3).
  split; [done |]. split.
  { exists blur. split; [| done].
    rewrite Ht5, Ht4, Ht3, Ht2, <- !app_assoc. done. }
  assert (Hcaps : webgl2 (device (restoreRenderState r4)) = webgl2 (device r4)
                  /\ extStandardDerivatives (device (restoreRenderState r4))
                     = extStandardDerivatives (device r4)).
  { unfold restoreRenderState.
    destruct (webgl2 (device r4)) eqn:Hw, (extStandardDerivatives (device r4)) eqn:He;
      simpl; rewrite ?Hw, ?He; done. }
  destruct Hcaps as [Hcw Hce].
  split; [by rewrite Hcw |]. split; [by rewrite Hce |].
  split; [intros Hw; apply Hr1; by rewrite Hw4 |].
  split; [intros Hw He; apply Hr2; by rewrite ?Hw4, ?He4 |].
  intros Hw He.
  destruct Hr3 as [Hpo Hdb]; [by rewrite Hw4 | by rewrite He4 |].
  rewrite Hpo, Hdb, Hp4, Hd4, Hp3, Hd3.
  destruct (setupRenderState_no_bias_support r1 l1 Hw He) as (Hb1 & _ & _ & Hb4).
  fold r2 in Hb1, Hb4. by rewrite Hb1, Hb4.
Qed.
End RenderRun.

Section RenderClaims.
Local Open Scope R_scope.

Lemma render_new_events (r : ShadowRenderer) (light : Light) (origShadowMap : RenderTarget) :
  renderGuard light = true ->
  exists blur : list Event,
    drop (length (trace r)) (trace (fst (render r light origShadowMap)))
    = [EvSetupRenderState]
        ++ map (fun face => EvFace face (firedLight light)) (seq 0 (numShadowFaces light))
        ++ blur ++ [EvRestoreRenderState]
    /\ Forall (fun e => is_blur_event e = true) blur
    /\ (blurGuard r light = false -> blur = []).
Proof.
  intros Hguard.
  destruct (render_run r light origShadowMap Hguard)
    as (_ & (blur & Htrace & Hblur & Hoff & _) & _).
  exists blur. split; [| done].
  by rewrite Htrace, drop_app_length.
Qed.

(** C7 (amended): for an enabled, shadow-casting light that is visible
    this frame and whose update mode is SHADOWUPDATE_THISFRAME, one
    call to render sets the mode to SHADOWUPDATE_NONE before the faces
    are drawn (each of the numShadowFaces face submissions sees the
    light with mode NONE); and render on a light whose mode is
    SHADOWUPDATE_NONE changes nothing and sends nothing, so no face is
    rendered in later frames until the mode is reset from outside. *)
Theorem render_once_then_stop (r : ShadowRenderer) (light : Light)
    (origShadowMap : RenderTarget) :
  enabled light = true -> castShadows light = true ->
  visibleThisFrame light = true ->
  shadowUpdateMode light = SHADOWUPDATE_THISFRAME ->
  let r1 := fst (render r light origShadowMap) in
  let l1 := snd (render r light origShadowMap) in
  let sent := drop (length (trace r)) (trace r1) in
  shadowUpdateMode l1 = SHADOWUPDATE_NONE
  /\ (forall (face : nat) (l : Light),
        EvFace face l ∈ sent -> l = l1 /\ (face < numShadowFaces light)%nat)
  /\ (forall face : nat, (face < numShadowFaces light)%nat -> EvFace face l1 ∈ sent)
  /\ (forall (r2 : ShadowRenderer) (l2 : Light) (target : RenderTarget),
        shadowUpdateMode l2 = SHADOWUPDATE_NONE ->
        render r2 l2 target = (r2, l2)).
Proof.
  intros Hen Hcast Hvis Hmode r1 l1 sent.
  assert (Hguard : renderGuard light = true).
  { unfold renderGuard. by rewrite Hen, Hcast, Hvis, Hmode. }
  destruct (render_run r light origShadowMap Hguard) as (Hl1 & _).
  fold l1 in Hl1.
  destruct (render_new_events r light origShadowMap Hguard) as (blur & Hsent & Hblur & _).
  fold r1 in Hsent. fold sent in Hsent. rewrite <- Hl1 in Hsent.
  assert (Hnone : shadowUpdateMode l1 = SHADOWUPDATE_NONE).
  { rewrite Hl1. unfold firedLight. by rewrite Hmode. }
  split; [exact Hnone |]. split; [| split].
  - intros face l Hin. rewrite Hsent in Hin.
    apply elem_of_app in Hin as [Hin|Hin].
    { apply list_elem_of_singleton in Hin. discriminate Hin. }
    apply elem_of_app in Hin as [Hin|Hin].
    { apply list_elem_of_In, in_map_iff in Hin as (f & Heq & Hf).
      injection Heq as -> ->. split; [done |].
      apply in_seq in Hf. lia. }
    apply elem_of_app in Hin as [Hin|Hin].
    { rewrite Forall_forall in Hblur. by specialize (Hblur _ Hin). }
    apply list_elem_of_singleton in Hin. discriminate Hin.
  - intros face Hface. rewrite Hsent.
    apply elem_of_app. right. apply elem_of_app. left.
    apply list_elem_of_In, in_map_iff. exists face. split; [done |].
    apply in_seq. lia.
  - intros r2 l2 target Hl2. apply render_skip.
    unfold renderGuard. rewrite Hl2. simpl. by rewrite andb_false_r.
Qed.

Lemma render_once_then_stop_witness :
  shadowUpdateMode (snd (render (exampleRenderer true false false) onceLight exampleTarget))
  = SHADOWUPDATE_NONE.
Proof.
  exact (proj1 (render_once_then_stop (exampleRenderer true false false) onceLight
                  exampleTarget eq_refl eq_refl eq_refl eq_refl)).
Defined.

(** C7 as stated fails: an enabled shadow-casting light in mode
    SHADOWUPDATE_THISFRAME that is not visible this frame keeps that
    mode through a call to render. *)
Lemma hidden_light_keeps_pending_update :
  enabled hiddenLight = true /\ castShadows hiddenLight = true
  /\ shadowUpdateMode hiddenLight = SHADOWUPDATE_THISFRAME
  /\ shadowUpdateMode
       (snd (render (exampleRenderer true false false) hiddenLight exampleTarget))
     = SHADOWUPDATE_THISFRAME
  /\ SHADOWUPDATE_THISFRAME <> SHADOWUPDATE_NONE.
Proof. repeat split; done. Qed.
End RenderClaims.

Section RenderStateClaims.
Local Open Scope R_scope.

(** C8 (amended): setupRenderState disables blending and enables depth
    write and depth test with FUNC_LESSEQUAL for every light.  On a
    WebGL2 device it enables the depth bias with both values
    shadowBias * -1000 (negative for a positive bias), except for an
    omni light outside clustered mode, for which it disables the bias.
    On a device without WebGL2 but with standard derivatives the bias
    goes to the polygonOffset uniform instead, as shadowBias * -1000,
    and as 0 for every omni light; on a device with neither nothing is
    set.  After the last face and the blur, render ends with
    restoreRenderState, which leaves the depth bias disabled on WebGL2
    and the polygonOffset zero with standard derivatives. *)
Theorem render_state_sequence (r : ShadowRenderer) (light : Light) :
  let r' := setupRenderState r light in
  let biasValue := (shadowBias light * Fin (-1000.0))%js in
  (blending (device r') = false /\ depthWrite (device r') = true
   /\ depthTest (device r') = true /\ depthFunc (device r') = FUNC_LESSEQUAL)
  /\ (webgl2 (device r) = true ->
      if (_type light =? LIGHTTYPE_OMNI)%Z && negb (clusteredLightingEnabled r)
      then depthBias (device r') = false
      else depthBias (device r') = true
           /\ depthBiasValues (device r') = (biasValue, biasValue))
  /\ (webgl2 (device r) = false -> extStandardDerivatives (device r) = true ->
      depthBias (device r') = depthBias (device r)
      /\ polygonOffsetId r' = true
      /\ polygonOffset r'
         = if (_type light =? LIGHTTYPE_OMNI)%Z then (Fin 0, Fin 0)
           else (biasValue, biasValue))
  /\ (webgl2 (device r) = false -> extStandardDerivatives (device r) = false ->
      depthBias (device r') = depthBias (device r)
      /\ depthBiasValues (device r') = depthBiasValues (device r)
      /\ polygonOffset r' = polygonOffset r)
  /\ (forall b : R, shadowBias light = Fin b -> 0 < b ->
        biasValue = Fin (b * -1000.0) /\ b * -1000.0 < 0)
  /\ (forall origShadowMap : RenderTarget,
        renderGuard light = true ->
        let rf := fst (render r light origShadowMap) in
        last (trace rf) = Some EvRestoreRenderState
        /\ (webgl2 (device r) = true -> depthBias (device rf) = false)
        /\ (webgl2 (device r) = false -> extStandardDerivatives (device r) = true ->
              polygonOffset rf = (Fin 0, Fin 0))).
Proof.
  intros r' biasValue.
  destruct (setupRenderState_states r light) as (H1 & H2 & H3 & H4 & _).
  split; [done |]. split.
  { intros Hw. destruct (setupRenderState_webgl2 r light Hw) as (_ & _ & Hbias).
    fold r' in Hbias.
    destruct ((_type light =? LIGHTTYPE_OMNI)%Z && negb (clusteredLightingEnabled r));
      [by destruct Hbias | done]. }
  split.
  { intros Hw He.
    destruct (setupRenderState_derivatives r light Hw He) as (Hb & _ & Hid & Hpo).
    done. }
  split.
  { intros Hw He.
    destruct (setupRenderState_no_bias_support r light Hw He) as (Hb & Hv & _ & Hpo).
    done. }
  split.
  { intros b Hb Hpos. unfold biasValue. rewrite Hb. by apply bias_value. }
  intros origShadowMap Hguard rf.
  destruct (render_run r light origShadowMap Hguard)
    as (_ & (blur & Htrace & _) & _ & _ & Hwebgl & Hderiv & _).
  fold rf in Htrace, Hwebgl, Hderiv.
  split; [| done].
  rewrite Htrace, !app_assoc. apply last_snoc.
Qed.

Lemma render_state_sequence_witness :
  depthBias (device (fst (render (exampleRenderer true false false) spotLight exampleTarget)))
  = false.
Proof.
  destruct (render_state_sequence (exampleRenderer true false false) spotLight)
    as (_ & _ & _ & _ & _ & Hrestore).
  destruct (Hrestore exampleTarget eq_refl) as (_ & Hbias & _).
  exact (Hbias eq_refl).
Defined.

(** C8 as stated fails off WebGL2: with standard derivatives only, an
    omni light in clustered (atlas) mode gets a zero offset and no
    depth bias; with neither capability a spot light with bias 0.05
    gets no bias at all. *)
Lemma bias_not_applied_without_webgl2 :
  let r1 := setupRenderState (exampleRenderer false true true) omniLight in
  let r2 := setupRenderState (exampleRenderer false false false) spotLight in
  (clusteredLightingEnabled (exampleRenderer false true true) = true
   /\ _type omniLight = LIGHTTYPE_OMNI
   /\ depthBias (device r1) = false
   /\ polygonOffset r1 = (Fin 0, Fin 0)
   /\ (shadowBias omniLight * Fin (-1000.0))%js <> Fin 0)
  /\ (_type spotLight = LIGHTTYPE_SPOT
      /\ shadowBias spotLight = Fin 0.05
      /\ depthBias (device r2) = false
      /\ depthBiasValues (device r2) = (Fin 0, Fin 0)
      /\ polygonOffsetId r2 = false
      /\ polygonOffset r2 = (Fin 0, Fin 0)).
Proof.
  repeat split; try reflexivity.
  simpl. intros Heq. injection Heq as Heq. lra.
Qed.
End RenderStateClaims.

Section BlurClaims.

(** C9: every blur event that a call to render sends (pool get, blur
    draw, pool add) is sent under the guard: the light is a variance
    light, its blur size exceeds 1 and clustered lighting is off or the
    light is directional.  A call to applyVsmBlur takes the temporary
    shadow map from the pool, draws the horizontal pass into it from
    the original shadow map with offset (1/resolution, 0), draws the
    vertical pass back with offset (0, 1/resolution), and then adds the
    temporary map to the pool: it is the last thing sent, the map is
    at the head of the pool entry of the light's key afterwards, and a
    pool that lent it is back to what it was. *)
Theorem render_blur_guard_and_pool :
  (forall (r : ShadowRenderer) (light : Light) (origShadowMap : RenderTarget) (e : Event),
      e ∈ drop (length (trace r)) (trace (fst (render r light origShadowMap))) ->
      is_blur_event e = true ->
      renderGuard light = true
      /\ _isVsm light = true /\ (1 < _vsmBlurSize light)%nat
      /\ (clusteredLightingEnabled r = false \/ _type light = LIGHTTYPE_DIRECTIONAL))
  /\ (forall (r : ShadowRenderer) (light : Light) (origShadowMap : RenderTarget),
        let tempShadowMap := fst (ShadowMapCache.get r light) in
        let tempRt := renderTargets tempShadowMap 0 in
        let key := ShadowMapCache.getKey light in
        let step := (Fin 1 / JS.of_nat (_shadowResolution light))%js in
        let r' := applyVsmBlur r light origShadowMap in
        (exists (weight : option (list num)) (scissor : num * num * num * num),
            trace r'
            = trace r ++ [ EvCacheGet tempShadowMap;
                           EvDrawQuad tempRt origShadowMap (step, Fin 0) weight scissor;
                           EvDrawQuad origShadowMap tempRt (Fin 0, step) weight scissor;
                           EvCacheAdd tempShadowMap ])
        /\ (exists rest : list ShadowMap,
              shadowMapCache r' !! key = Some (tempShadowMap :: rest))
        /\ (forall rest : list ShadowMap,
              shadowMapCache r !! key = Some (tempShadowMap :: rest) ->
              shadowMapCache r' = shadowMapCache r)).
Proof.
  split.
  - intros r light origShadowMap e Hin Hblur.
    destruct (renderGuard light) eqn:Hguard.
    + split; [done |].
      destruct (render_new_events r light origShadowMap Hguard)
        as (blur & Hsent & Hall & Hoff).
      rewrite Hsent in Hin.
      assert (Hon : blurGuard r light = true).
      { destruct (blurGuard r light); [done |].
        rewrite (Hoff eq_refl) in Hin.
        apply elem_of_app in Hin as [Hin|Hin].
        { apply list_elem_of_singleton in Hin. by subst e. }
        apply elem_of_app in Hin as [Hin|Hin].
        { apply list_elem_of_In, in_map_iff in Hin as (f & <- & _). done. }
        apply list_elem_of_singleton in Hin. by subst e. }
      unfold blurGuard in Hon.
      apply andb_true_iff in Hon as [Hon Hmode].
      apply andb_true_iff in Hon as [Hvsm Hsize].
      split; [done |]. split; [by apply Nat.ltb_lt |].
      apply orb_true_iff in Hmode as [Hc|Ht].
      * left. by apply negb_true_iff.
      * right. by apply Z.eqb_eq.
    + rewrite render_skip in Hin by done. cbn [fst] in Hin.
      rewrite drop_all in Hin. by apply elem_of_nil in Hin.
  - intros r light origShadowMap tempShadowMap tempRt key step r'.
    destruct (applyVsmBlur_run r light origShadowMap)
      as (Htrace & _ & _ & Hpool & Hsame).
    done.
Qed.

Lemma render_blur_guard_and_pool_witness :
  exists rest : list ShadowMap,
    shadowMapCache (applyVsmBlur (exampleRenderer true false false) vsmLight exampleTarget)
      !! ShadowMapCache.getKey vsmLight
    = Some (fst (ShadowMapCache.get (exampleRenderer true false false) vsmLight) :: rest).
Proof.
  destruct (proj2 render_blur_guard_and_pool (exampleRenderer true false false)
              vsmLight exampleTarget) as (_ & Hpool & _).
  exact Hpool.
Defined.
End BlurClaims.

(** * Further properties *)

(** ** The culling loop and the cascade loop *)

Section CullingMore.
Context `{FR : ForwardRenderer}.

Lemma array_sort_length {A} (cmp : A -> A -> Z) (l : list A) :
  length (array_sort cmp l) = length l.
Proof. apply Permutation_length, array_sort_perm. Qed.

Lemma cullShadowCasters_eq (meshInstances visible : list MeshInstance)
    (camera : ShadowCamera) :
  cullShadowCasters meshInstances visible camera
  = (array_sort depthSortCompare (List.filter (casterPasses camera) meshInstances),
     List.filter (casterPasses camera) meshInstances).
Proof.
  unfold cullShadowCasters.
  destruct (cull_loop camera meshInstances
              {| cs_visible := visible; cs_count := 0; cs_flagged := [] |})
    as (Htake & Hflag & _); [simpl; lia |].
  simpl in Htake, Hflag. by rewrite Htake, Hflag.
Qed.

Lemma sort_insert_sorted {A} (cmp : A -> A -> Z) (a : A) (l : list A) :
  (forall u v : A, (cmp u v <= 0)%Z \/ (cmp v u <= 0)%Z) ->
  (forall u v w : A, (cmp u v <= 0)%Z -> (cmp v w <= 0)%Z -> (cmp u w <= 0)%Z) ->
  StronglySorted (fun u v => (cmp u v <= 0)%Z) l ->
  StronglySorted (fun u v => (cmp u v <= 0)%Z) (sort_insert cmp a l).
Proof.
  intros Htotal Htrans Hsorted.
  induction Hsorted as [|b l Hl IH Hb]; cbn [sort_insert].
  - apply SSorted_cons; [apply SSorted_nil | apply Forall_nil_2].
  - destruct (decide (cmp b a <= 0)%Z) as [Hba|Hba].
    + apply SSorted_cons; [exact IH |].
      apply (Permutation_Forall (Permutation_sym (sort_insert_perm cmp a l))).
      by apply Forall_cons.
    + assert (Hab : (cmp a b <= 0)%Z) by (destruct (Htotal a b); [done | lia]).
      apply SSorted_cons; [by apply SSorted_cons |].
      apply Forall_cons. split; [done |].
      eapply Forall_impl; [exact Hb |]. intros c Hbc. by apply (Htrans a b c).
Qed.

Lemma array_sort_sorted {A} (cmp : A -> A -> Z) (l : list A) :
  (forall u v : A, (cmp u v <= 0)%Z \/ (cmp v u <= 0)%Z) ->
  (forall u v w : A, (cmp u v <= 0)%Z -> (cmp v w <= 0)%Z -> (cmp u w <= 0)%Z) ->
  StronglySorted (fun u v => (cmp u v <= 0)%Z) (array_sort cmp l).
Proof.
  intros Htotal Htrans. unfold array_sort.
  assert (Hgen : forall acc,
             StronglySorted (fun u v => (cmp u v <= 0)%Z) acc ->
             StronglySorted (fun u v => (cmp u v <= 0)%Z)
               (fold_left (fun sorted a => sort_insert cmp a sorted) l acc)).
  { induction l as [|a l IH]; intros acc Hacc; cbn [fold_left]; [done |].
    apply IH. by apply sort_insert_sorted. }
  apply Hgen, SSorted_nil.
Qed.

(** X1: the list that cullShadowCasters leaves in [visible] is the
    sorted selection of the input and nothing else.  Selection: it holds
    the instances of the input that are non-culling or visible to the
    camera, each as often as the input does, and the instances flagged
    visibleThisFrame are these in scan order.  Nothing else: whatever
    the array held before the call (the casters of an earlier frame) is
    gone, the result does not depend on it and is never longer than the
    input.  Sorted: when depthSortCompare is a consistent comparator
    (any two instances compare one way or the other, transitively), a
    listed instance never compares greater than one listed after it. *)
Theorem cullShadowCasters_drops_stale (meshInstances visible : list MeshInstance)
    (camera : ShadowCamera) :
  (forall visible' : list MeshInstance,
      cullShadowCasters meshInstances visible' camera
      = cullShadowCasters meshInstances visible camera)
  /\ (forall m : MeshInstance,
        m ∈ fst (cullShadowCasters meshInstances visible camera)
        <-> m ∈ meshInstances /\ (cull m = false \/ _isVisible m camera = true))
  /\ fst (cullShadowCasters meshInstances visible camera)
     ≡ₚ List.filter (casterPasses camera) meshInstances
  /\ snd (cullShadowCasters meshInstances visible camera)
     = List.filter (casterPasses camera) meshInstances
  /\ (length (fst (cullShadowCasters meshInstances visible camera))
      <= length meshInstances)%nat
  /\ fst (cullShadowCasters meshInstances visible camera)
     ≡ₚ snd (cullShadowCasters meshInstances visible camera)
  /\ ((forall a b : MeshInstance,
         (depthSortCompare a b <= 0)%Z \/ (depthSortCompare b a <= 0)%Z) ->
      (forall a b c : MeshInstance,
         (depthSortCompare a b <= 0)%Z -> (depthSortCompare b c <= 0)%Z ->
         (depthSortCompare a c <= 0)%Z) ->
      StronglySorted (fun a b => (depthSortCompare a b <= 0)%Z)
        (fst (cullShadowCasters meshInstances visible camera))).
Proof.
  split; [| split; [| split; [| split; [| split; [| split]]]]].
  - intros visible'. by rewrite !cullShadowCasters_eq.
  - intros m. apply cullShadowCasters_elem.
  - rewrite cullShadowCasters_eq. cbn [fst]. apply array_sort_perm.
  - by rewrite cullShadowCasters_eq.
  - rewrite cullShadowCasters_eq. cbn [fst].
    rewrite array_sort_length. apply filter_length_le.
  - rewrite cullShadowCasters_eq. cbn [fst snd]. apply array_sort_perm.
  - intros Htotal Htrans. rewrite cullShadowCasters_eq. cbn [fst].
    by apply array_sort_sorted.
Qed.

(** What the cascade loop leaves in the render data: a cascade that is
    not in the list is untouched, a listed one holds the casters culled
    against its own camera. *)
Lemma cascade_loop_renderData (light : Light) (lightNode : GraphNode)
    (drawCalls : list MeshInstance) (camera : Camera) (nearDist : num)
    (cascades : list nat) (st : CullDirState) :
  NoDup cascades ->
  let st' := fold_left (cullDirectionalCascade light lightNode drawCalls camera nearDist)
               cascades st in
  (forall c : nat, c ∉ cascades -> renderData st' c = renderData st c)
  /\ (forall c : nat, c ∈ cascades ->
        visibleCasters (renderData st' c)
        = fst (cullShadowCasters drawCalls (visibleCasters (renderData st c))
                 (cascadeCullCamera light lightNode camera nearDist
                    (shadowCamera (renderData st c)) c))).
Proof.
  revert st. induction cascades as [|c0 cs IH]; intros st Hnd; cbn [fold_left].
  - split; [done |]. intros c Hc. by apply elem_of_nil in Hc.
  - apply NoDup_cons in Hnd as [Hc0 Hnd].
    destruct (cullDirectionalCascade_unfold light lightNode drawCalls camera nearDist
                st c0) as (_ & _ & Hvis & Hother).
    destruct (IH (cullDirectionalCascade light lightNode drawCalls camera nearDist st c0)
                Hnd) as [IHout IHin].
    split.
    + intros c Hc. apply not_elem_of_cons in Hc as [Hne Hc].
      rewrite IHout by done. by apply Hother.
    + intros c Hc. apply elem_of_cons in Hc as [->|Hc].
      * rewrite IHout by done. exact Hvis.
      * assert (c <> c0) by (intros ->; done).
        rewrite IHin by done. by rewrite Hother.
Qed.

(** X2: cullDirectional marks the light visible, keeps its cascade
    count, and works on cascades 0 .. numCascades-1 only: the render data
    of any further index is untouched, and each of these cascades ends
    with exactly the draw calls that are non-culling or visible to the
    camera built for that cascade. *)
Theorem cullDirectional_cascade_lists (light : Light) (lightNode : GraphNode)
    (drawCalls : list MeshInstance) (camera : Camera) (st : CullDirState) :
  let nearDist := camera_nearClip camera in
  let light' := fst (cullDirectional light lightNode drawCalls camera st) in
  let st' := snd (cullDirectional light lightNode drawCalls camera st) in
  visibleThisFrame light' = true
  /\ numCascades light' = numCascades light
  /\ length (_shadowCascadeDistances light') = length (_shadowCascadeDistances light)
  /\ (forall c : nat, (numCascades light <= c)%nat -> renderData st' c = renderData st c)
  /\ (forall (c : nat) (m : MeshInstance), (c < numCascades light)%nat ->
        m ∈ visibleCasters (renderData st' c)
        <-> m ∈ drawCalls
            /\ (cull m = false
                \/ _isVisible m (cascadeCullCamera light' lightNode camera nearDist
                                   (shadowCamera (renderData st c)) c) = true)).
Proof.
  intros nearDist light' st'. subst light' st'.
  unfold cullDirectional. cbn [fst snd]. fold nearDist.
  set (light' := generateSplitDistances (set_visibleThisFrame light true) nearDist _).
  assert (HC : numCascades light' = numCascades light) by done.
  rewrite HC.
  destruct (cascade_loop_renderData light' lightNode drawCalls camera nearDist
              (seq 0 (numCascades light)) st (NoDup_seq _ _)) as [Hout Hin].
  split; [done |]. split; [done |].
  split; [unfold light'; by rewrite generateSplitDistances_length |].
  split.
  - intros c Hc. apply Hout. rewrite elem_of_seq. lia.
  - intros c m Hc. rewrite Hin by (rewrite elem_of_seq; lia).
    apply cullShadowCasters_elem.
Qed.
End CullingMore.

Section CullingMoreCase.

Lemma cullShadowCasters_drops_stale_witness :
  StronglySorted
    (fun a b => (@depthSortCompare Flat.engine Flat.renderer a b <= 0)%Z)
    (fst (@cullShadowCasters Flat.engine Flat.renderer
            [Flat.strayCaster; Flat.remoteCaster; sideCaster] [deepCaster]
            Flat.originCamera)).
Proof.
  apply (proj2 (proj2 (proj2 (proj2 (proj2 (proj2
           (@cullShadowCasters_drops_stale Flat.engine Flat.renderer
              [Flat.strayCaster; Flat.remoteCaster; sideCaster] [deepCaster]
              Flat.originCamera))))))).
  - intros a b. cbn [depthSortCompare Flat.renderer]. lia.
  - intros a b c. cbn [depthSortCompare Flat.renderer]. lia.
Defined.
End CullingMoreCase.

(** ** The frustum slices of the cascades *)

Section CascadeSlices.
Context `{FR : ForwardRenderer}.
Local Open Scope R_scope.

Lemma cascadeCullCamera_slice (light : Light) (lightNode : GraphNode) (camera : Camera)
    (nearDist : num) (shadowCam : ShadowCamera) (cascade : nat) :
  cascadeCullCamera light lightNode camera nearDist shadowCam cascade
  = cascadeCameraFromPoints light lightNode camera shadowCam
      (frustum_getPoints camera (frustumNearDist light nearDist cascade)
         (frustumFarDist light cascade)).
Proof. reflexivity. Qed.

Lemma sliceBound_increasing (N F d : R) (C c : nat) :
  0 < N -> N < F -> (c < C)%nat ->
  sliceBound N F d C c < sliceBound N F d C (S c).
Proof.
  intros HN HF Hc. destruct c as [|j]; cbn [sliceBound].
  - by apply cascadeFarR_bounds.
  - apply cascadeFarR_increasing; try done. lia.
Qed.

(** X3: with a finite viewer near plane N > 0, shadow distance F > N,
    distribution d in [0, 1] and C >= 1 cascades that fit the distance
    array, the frustum slices that cullDirectional hands to
    Frustum.getPoints are [b(c), b(c+1)] for c = 0 .. C-1, with
    b(0) = N, b(C) = F and b strictly increasing: consecutive slices
    share their bound, none is empty, and together they cover exactly
    [N, F]. *)
Theorem cullDirectional_slices_tile (light : Light) (lightNode : GraphNode)
    (drawCalls : list MeshInstance) (camera : Camera) (st : CullDirState)
    (N F d : R) :
  camera_nearClip camera = Fin N -> shadowDistance light = Fin F ->
  cascadeDistribution light = Fin d ->
  0 < N -> N < F -> 0 <= d <= 1 ->
  (1 <= numCascades light <= length (_shadowCascadeDistances light))%nat ->
  let C := numCascades light in
  let light' := fst (cullDirectional light lightNode drawCalls camera st) in
  exists b : nat -> R,
    b 0%nat = N /\ b C = F
    /\ (forall c : nat, (c < C)%nat -> b c < b (S c))
    /\ (forall c : nat, (c < C)%nat ->
          frustumNearDist light' (Fin N) c = Fin (b c)
          /\ frustumFarDist light' c = Fin (b (S c))
          /\ forall shadowCam : ShadowCamera,
               cascadeCullCamera light' lightNode camera (Fin N) shadowCam c
               = cascadeCameraFromPoints light' lightNode camera shadowCam
                   (frustum_getPoints camera (Fin (b c)) (Fin (b (S c))))).
Proof.
  intros Hnear Hfar Hd HN HF Hd01 HC C light'.
  subst light'. unfold cullDirectional. cbn [fst]. rewrite Hnear.
  change (shadowDistance (set_visibleThisFrame light true)) with (shadowDistance light).
  rewrite Hfar.
  set (light1 := set_visibleThisFrame light true).
  set (light' := generateSplitDistances light1 (Fin N) (Fin F)).
  assert (Hslot : forall j : nat, (j < C)%nat ->
            _shadowCascadeDistances light' !! j = Some (Fin (cascadeFarR N F d C j))).
  { intros j Hj. unfold light'.
    apply (generateSplitDistances_far light1 N F d j); try done.
    unfold light1; simpl; lia. }
  assert (Hfarc : forall c : nat, (c < C)%nat ->
            frustumFarDist light' c = Fin (sliceBound N F d C (S c))).
  { intros c Hc. unfold frustumFarDist, array_get. by rewrite Hslot. }
  assert (Hnearc : forall c : nat, (c < C)%nat ->
            frustumNearDist light' (Fin N) c = Fin (sliceBound N F d C c)).
  { intros c Hc. unfold frustumNearDist. destruct c as [|j].
    - by rewrite decide_True.
    - rewrite decide_False by lia. replace (S j - 1)%nat with j by lia.
      unfold array_get. rewrite Hslot by lia. done. }
  exists (sliceBound N F d C). split; [done |]. split.
  { unfold C in *. destruct (numCascades light) as [|j] eqn:HCeq; [lia |].
    cbn [sliceBound]. unfold cascadeFarR. rewrite decide_False by lia. done. }
  split.
  { intros c Hc. by apply sliceBound_increasing. }
  intros c Hc. split; [by apply Hnearc |]. split; [by apply Hfarc |].
  intros shadowCam. rewrite cascadeCullCamera_slice.
  by rewrite Hnearc, Hfarc.
Qed.
End CascadeSlices.

Section CascadeSlicesCase.
Local Open Scope R_scope.

Lemma cullDirectional_slices_tile_witness :
  exists b : nat -> R,
    b 0%nat = 1 /\ b 2%nat = 3 /\ b 0%nat < b 1%nat /\ b 1%nat < b 2%nat
    /\ frustumNearDist
         (fst (@cullDirectional Flat.engine Flat.renderer twoCascadeLight (vec3 0 0 0)
                 [deepCaster] flatCamera flatState)) (Fin 1) 0
       = Fin (b 0%nat)
    /\ frustumFarDist
         (fst (@cullDirectional Flat.engine Flat.renderer twoCascadeLight (vec3 0 0 0)
                 [deepCaster] flatCamera flatState)) 0
       = Fin (b 1%nat)
    /\ frustumNearDist
         (fst (@cullDirectional Flat.engine Flat.renderer twoCascadeLight (vec3 0 0 0)
                 [deepCaster] flatCamera flatState)) (Fin 1) 1
       = Fin (b 1%nat)
    /\ frustumFarDist
         (fst (@cullDirectional Flat.engine Flat.renderer twoCascadeLight (vec3 0 0 0)
                 [deepCaster] flatCamera flatState)) 1
       = Fin (b 2%nat).
Proof.
  destruct (@cullDirectional_slices_tile Flat.engine Flat.renderer twoCascadeLight
              (vec3 0 0 0) [deepCaster] flatCamera flatState 1 3 0)
    as (b & Hb0 & HbC & Hinc & Hslice);
    [reflexivity | reflexivity | reflexivity | lra | lra | lra | simpl; lia |].
  exists b. split; [exact Hb0 |]. split; [exact HbC |].
  split; [apply Hinc; simpl; lia |]. split; [apply Hinc; simpl; lia |].
  destruct (Hslice 0%nat) as (Hnear0 & Hfar0 & _); [simpl; lia |].
  destruct (Hslice 1%nat) as (Hnear1 & Hfar1 & _); [simpl; lia |].
  split; [exact Hnear0 |]. split; [exact Hfar0 |]. split; [exact Hnear1 | exact Hfar1].
Defined.
End CascadeSlicesCase.

(** ** The tightened depth range *)

Section DepthRangeMore.
Context `{FR : ForwardRenderer}.
Local Open Scope R_scope.

(** X4: whenever the depths of the 8 corners of the box in
    shadow-camera view space are finite, wherever they lie, the range
    that tightenDepthRange sets contains all of them with a margin of
    0.1 at both ends: the camera is moved along its local Z by
    hi + 0.1 and the far plane becomes hi - lo + 0.2, where lo is not
    above and hi not below any corner depth, and lo <= 9999999999 and
    hi >= -9999999999.  The tightening never clips a corner. *)
Theorem tightenDepthRange_never_clips (shadowCam : ShadowCamera) (box : BoundingBox)
    (zs : list R) :
  let view := mat4_invert (getWorldTransform (_node shadowCam)) in
  map (fun p => z (transformPoint view p))
      (aabbCorners (bb_getMin box) (bb_getMax box)) = map Fin zs ->
  exists lo hi : R,
    tightenDepthRange shadowCam box
    = {| _node := translateLocal (_node shadowCam) (Fin 0) (Fin 0) (Fin (hi + 0.1));
         nearClip := nearClip shadowCam;
         farClip := Fin (hi - lo + 0.2);
         orthoHeight := orthoHeight shadowCam |}
    /\ lo <= 9999999999 /\ -9999999999 <= hi
    /\ (forall zv : R, zv ∈ zs ->
          lo <= zv <= hi /\ 0.1 <= hi + 0.1 - zv <= hi - lo + 0.2 - 0.1).
Proof.
  intros view Hzs.
  destruct (fold_Rmin_spec zs 9999999999) as (Hlo & Hmin & _).
  destruct (fold_Rmax_spec zs (-9999999999)) as (Hhi & Hmax & _).
  exists (fold_left Rmin zs 9999999999), (fold_left Rmax zs (-9999999999)).
  split.
  { unfold tightenDepthRange, getDepthRange. fold view.
    rewrite Hzs. unfold minz0, maxz0. rewrite depth_scan_fin. done. }
  split; [done |]. split; [done |].
  intros zv Hzv. specialize (Hmin zv Hzv). specialize (Hmax zv Hzv).
  simpl in Hmin, Hmax. lra.
Qed.
End DepthRangeMore.

Section DepthRangeMoreCase.
Local Open Scope R_scope.

Lemma tightenDepthRange_never_clips_witness :
  exists lo hi : R,
    @farClip Flat.engine
      (@tightenDepthRange Flat.engine Flat.originCamera
         (vec3 0 0 30000000000, vec3 0 0 30000000000))
    = Fin (hi - lo + 0.2)
    /\ lo <= 30000000000 + - 0 <= hi.
Proof.
  destruct (@tightenDepthRange_never_clips Flat.engine Flat.originCamera
              (vec3 0 0 30000000000, vec3 0 0 30000000000)
              [30000000000 + - 0; 30000000000 + - 0; 30000000000 + - 0;
               30000000000 + - 0; 30000000000 + - 0; 30000000000 + - 0;
               30000000000 + - 0; 30000000000 + - 0])
    as (lo & hi & Hcam & _ & _ & Hin).
  - exact (flat_corner_depths 0 0 0 0 0 30000000000 0 0 30000000000).
  - exists lo, hi. split; [by rewrite Hcam |].
    apply Hin. apply list_elem_of_here.
Defined.
End DepthRangeMoreCase.

(** ** The array of cascade distances *)

Section SplitArray.

Lemma split_loop_lookup_any {A} (f : nat -> A) (n : nat) (arr : list A) (j : nat) :
  fold_left (fun a i => <[(i - 1)%nat := f i]> a) (seq 1 n) arr !! j
  = if decide (j < n /\ j < length arr)%nat then Some (f (S j)) else arr !! j.
Proof.
  induction n as [|n IH].
  - cbn [seq fold_left]. by rewrite decide_False by lia.
  - rewrite seq_S, fold_left_app. cbn [fold_left].
    replace (1 + n - 1)%nat with n by lia.
    destruct (decide (j = n)) as [->|Hne].
    + destruct (decide (n < length arr)%nat) as [Hlt|Hge].
      * rewrite list_lookup_insert_eq by (rewrite split_loop_length; lia).
        by rewrite decide_True by lia.
      * rewrite list_insert_ge by (rewrite split_loop_length; lia).
        rewrite IH. rewrite !decide_False by lia. done.
    + rewrite list_lookup_insert_ne by done. rewrite IH.
      destruct (decide (j < n /\ j < length arr)%nat),
               (decide (j < S n /\ j < length arr)%nat); try lia; done.
Qed.

Lemma generateSplitDistances_slot (light : Light) (nearDist farDist : num) (j : nat) :
  _shadowCascadeDistances (generateSplitDistances light nearDist farDist) !! j
  = if decide (j < length (_shadowCascadeDistances light))%nat
    then Some (if decide (j < numCascades light - 1)%nat
               then splitDistance light nearDist farDist (S j) else farDist)
    else None.
Proof.
  unfold generateSplitDistances. cbn [_shadowCascadeDistances set_shadowCascadeDistances].
  rewrite split_loop_lookup_any, length_replicate.
  destruct (decide (j < length (_shadowCascadeDistances light))%nat) as [Hlt|Hge].
  - destruct (decide (j < numCascades light - 1)%nat).
    + by rewrite decide_True by lia.
    + rewrite decide_False by lia. by apply lookup_replicate_2.
  - rewrite decide_False by lia. apply lookup_ge_None. rewrite length_replicate. lia.
Qed.

(** X5: generateSplitDistances keeps the length of the distance array;
    every slot below index numCascades-1 holds the practical split of
    the index after it, every slot from index numCascades-1 on holds the
    far distance (all of them when there is at most one cascade), a
    write past the end of the array is dropped, and a second call with
    the same distances changes nothing. *)
Theorem generateSplitDistances_unused_slots (light : Light) (nearDist farDist : num) :
  let light' := generateSplitDistances light nearDist farDist in
  length (_shadowCascadeDistances light') = length (_shadowCascadeDistances light)
  /\ (forall j : nat,
        (j < numCascades light - 1)%nat ->
        (j < length (_shadowCascadeDistances light))%nat ->
        _shadowCascadeDistances light' !! j
        = Some (splitDistance light nearDist farDist (S j)))
  /\ (forall j : nat,
        (numCascades light - 1 <= j < length (_shadowCascadeDistances light))%nat ->
        _shadowCascadeDistances light' !! j = Some farDist)
  /\ (forall j : nat,
        (length (_shadowCascadeDistances light) <= j)%nat ->
        _shadowCascadeDistances light' !! j = None)
  /\ ((numCascades light <= 1)%nat ->
      _shadowCascadeDistances light'
      = replicate (length (_shadowCascadeDistances light)) farDist)
  /\ generateSplitDistances light' nearDist farDist = light'.
Proof.
  intros light'.
  assert (Hlen : length (_shadowCascadeDistances light')
                 = length (_shadowCascadeDistances light))
    by apply generateSplitDistances_length.
  split; [done |]. split.
  { intros j Hj Hlt. unfold light'. rewrite generateSplitDistances_slot.
    rewrite decide_True by lia. by rewrite decide_True by lia. }
  split.
  { intros j Hj. unfold light'. rewrite generateSplitDistances_slot.
    rewrite decide_True by lia. by rewrite decide_False by lia. }
  split.
  { intros j Hj. unfold light'. rewrite generateSplitDistances_slot.
    by rewrite decide_False by lia. }
  split.
  { intros HC. apply list_eq. intros j. unfold light'.
    rewrite generateSplitDistances_slot.
    destruct (decide (j < length (_shadowCascadeDistances light))%nat).
    - rewrite decide_False by lia. symmetry. by apply lookup_replicate_2.
    - symmetry. apply lookup_ge_None. rewrite length_replicate. lia. }
  assert (Hsame : _shadowCascadeDistances (generateSplitDistances light' nearDist farDist)
                  = _shadowCascadeDistances light').
  { apply list_eq. intros j. rewrite (generateSplitDistances_slot light'), Hlen.
    change (numCascades light') with (numCascades light).
    change (splitDistance light' nearDist farDist (S j))
      with (splitDistance light nearDist farDist (S j)).
    symmetry. apply generateSplitDistances_slot. }
  unfold generateSplitDistances at 1. unfold generateSplitDistances at 1 in Hsame.
  cbn [_shadowCascadeDistances set_shadowCascadeDistances] in Hsame.
  rewrite Hsame. by destruct light'.
Qed.
End SplitArray.

(** ** Shape of the blur kernel *)

Section GaussShape.
Local Open Scope R_scope.

Lemma Rsum_delete (l : list R) (i : nat) (w : R) :
  l !! i = Some w -> Rsum l = w + Rsum (delete i l).
Proof.
  revert i. induction l as [|a l IH]; intros [|i] Hi; try done.
  - injection Hi as ->. by rewrite Rsum_cons.
  - change (delete (S i) (a :: l)) with (a :: delete i l).
    rewrite !Rsum_cons, (IH i Hi). lra.
Qed.

Lemma Rsum_above_element (l : list R) (i : nat) (w : R) :
  Forall (fun v => 0 < v) l -> (2 <= length l)%nat -> l !! i = Some w -> w < Rsum l.
Proof.
  intros Hpos Hlen Hi. rewrite (Rsum_delete l i w Hi).
  assert (0 < Rsum (delete i l)); [| lra].
  apply Rsum_pos.
  - intros Hnil. apply (f_equal length) in Hnil.
    rewrite length_delete in Hnil by (by eexists). simpl in Hnil. lia.
  - apply Forall_delete. done.
Qed.

Lemma weightR_mirror (n i : nat) :
  (i < n)%nat -> weightR n (n - 1 - i) = weightR n i.
Proof.
  intros Hi. unfold weightR, gaussR, halfWidthR. f_equal. f_equal.
  rewrite !minus_INR by lia. simpl. lra.
Qed.

Lemma weightR_rising (n i j : nat) :
  (2 <= n)%nat -> (i < j)%nat -> (2 * j <= n - 1)%nat -> weightR n i < weightR n j.
Proof.
  intros Hn Hij Hj. unfold weightR, gaussR.
  apply exp_increasing.
  pose proof (sigmaR_nonzero n Hn) as Hs.
  assert (Hden : 0 < 2 * sigmaR n * sigmaR n) by nra.
  assert (Hi : INR i < INR j) by (by apply lt_INR).
  assert (Hjh : INR j <= halfWidthR n).
  { unfold halfWidthR. apply (le_INR (2 * j)) in Hj.
    rewrite mult_INR, minus_INR in Hj by lia. simpl in Hj. lra. }
  assert (Hpos : 0 <= INR i) by apply pos_INR.
  unfold Rdiv. apply Rmult_lt_compat_r; [by apply Rinv_0_lt_compat |].
  nra.
Qed.

Lemma gaussWeights_slot (k i : nat) :
  (2 <= k)%nat ->
  let n := Nat.min k maxBlurSize in
  (i < n)%nat ->
  gaussWeights k !! i = Some (Fin (weightR n i / Rsum (kernelWeights n))).
Proof.
  intros Hk n Hi.
  assert (Hn : (2 <= n <= maxBlurSize)%nat) by (unfold n, maxBlurSize in *; lia).
  assert (Heq : gaussWeights k = gaussWeights n).
  { destruct (decide (k <= maxBlurSize)%nat).
    - by replace n with k by (unfold n; lia).
    - replace n with maxBlurSize by (unfold n; lia).
      apply gaussWeights_clamped. lia. }
  rewrite Heq, gaussWeights_fin by done.
  unfold kernelWeights at 2. rewrite !lookup_map, lookup_seq_lt by done. done.
Qed.

(** X6: for a kernel size k >= 2, with n = min(k, 25), every weight of
    gaussWeights is a finite number strictly between 0 and 1, the kernel
    is symmetric (weight i equals weight n-1-i) and the weights rise
    strictly up to the middle of the kernel. *)
Theorem gaussWeights_shape (k : nat) :
  (2 <= k)%nat ->
  let n := Nat.min k maxBlurSize in
  (forall i : nat, (i < n)%nat ->
     exists w : R,
       gaussWeights k !! i = Some (Fin w) /\ 0 < w < 1
       /\ gaussWeights k !! (n - 1 - i)%nat = Some (Fin w))
  /\ (forall (i j : nat) (wi wj : R), (i < j)%nat -> (2 * j <= n - 1)%nat ->
        gaussWeights k !! i = Some (Fin wi) -> gaussWeights k !! j = Some (Fin wj) ->
        wi < wj).
Proof.
  intros Hk n.
  assert (Hn : (2 <= n)%nat) by (unfold n, maxBlurSize; lia).
  assert (Hpos : 0 < Rsum (kernelWeights n)).
  { apply Rsum_pos; [| apply kernelWeights_pos].
    unfold kernelWeights. destruct n; [lia | done]. }
  split.
  - intros i Hi. exists (weightR n i / Rsum (kernelWeights n)).
    split; [by apply gaussWeights_slot |]. split.
    + assert (Hw : 0 < weightR n i) by apply exp_pos.
      assert (Hlt : weightR n i < Rsum (kernelWeights n)).
      { apply (Rsum_above_element _ i); [apply kernelWeights_pos | |].
        - unfold kernelWeights. rewrite length_map, length_seq. done.
        - unfold kernelWeights. by rewrite lookup_map, lookup_seq_lt. }
      split; [by apply Rdiv_lt_0_compat |].
      apply Rmult_lt_reg_r with (Rsum (kernelWeights n)); [done |].
      replace (weightR n i / Rsum (kernelWeights n) * Rsum (kernelWeights n))
        with (weightR n i) by (field; lra).
      lra.
    + rewrite (gaussWeights_slot k (n - 1 - i) Hk) by (fold n; lia).
      fold n. by rewrite weightR_mirror.
  - intros i j wi wj Hij Hj Hi Hjj.
    rewrite (gaussWeights_slot k i Hk) in Hi by (fold n; lia).
    rewrite (gaussWeights_slot k j Hk) in Hjj by (fold n; lia).
    fold n in Hi, Hjj. injection Hi as <-. injection Hjj as <-.
    unfold Rdiv. apply Rmult_lt_compat_r; [by apply Rinv_0_lt_compat |].
    by apply weightR_rising.
Qed.

Lemma gaussWeights_shape_witness :
  exists w : R,
    gaussWeights 5 !! 1%nat = Some (Fin w) /\ 0 < w < 1
    /\ gaussWeights 5 !! 3%nat = Some (Fin w).
Proof.
  destruct (gaussWeights_shape 5) as [Hsym _]; [lia |].
  apply (Hsym 1%nat). simpl. lia.
Defined.
End GaussShape.

(** ** Blur shaders and their weights *)

Section BlurWeights.

Lemma blurWeightsReady_fields (r r' : ShadowRenderer) :
  blurVsmShader r' = blurVsmShader r ->
  blurPackedVsmShader r' = blurPackedVsmShader r ->
  blurVsmWeights r' = blurVsmWeights r ->
  blurWeightsReady r -> blurWeightsReady r'.
Proof. unfold blurWeightsReady. by intros -> -> ->. Qed.

Lemma getVsmBlurShader_ready (r : ShadowRenderer) (isVsm8 : bool) (blurMode : Z)
    (filterSize : nat) :
  blurWeightsReady r ->
  let r' := getVsmBlurShader r isVsm8 blurMode filterSize in
  blurWeightsReady r'
  /\ blurVsmWeights r' !! filterSize = Some (gaussWeights filterSize)
  /\ (blurMode, filterSize) ∈ (if isVsm8 then blurPackedVsmShader r' else blurVsmShader r')
  /\ weightId r' = weightId r.
Proof.
  intros [Hshader Hweights] r'. subst r'. unfold getVsmBlurShader.
  destruct isVsm8; case_decide as Hin.
  - repeat split; try done; apply (Hshader blurMode); by right.
  - unfold blurWeightsReady, with_blur; simpl. split; [split |].
    + intros mode n [Hn|Hn].
      * destruct (decide (n = filterSize)) as [->|Hne]; [by rewrite lookup_insert_eq |].
        rewrite lookup_insert_ne by done. apply (Hshader mode). by left.
      * destruct (decide (n = filterSize)) as [->|Hne]; [by rewrite lookup_insert_eq |].
        rewrite lookup_insert_ne by done. apply (Hshader mode). right.
        apply elem_of_union in Hn as [Hn|Hn]; [| done].
        apply elem_of_singleton in Hn. congruence.
    + intros n w. destruct (decide (n = filterSize)) as [->|Hne].
      * rewrite lookup_insert_eq. by intros [= <-].
      * rewrite lookup_insert_ne by done. apply Hweights.
    + rewrite lookup_insert_eq. split; [done |]. split; [set_solver | done].
  - repeat split; try done; apply (Hshader blurMode); by left.
  - unfold blurWeightsReady, with_blur; simpl. split; [split |].
    + intros mode n [Hn|Hn].
      * destruct (decide (n = filterSize)) as [->|Hne]; [by rewrite lookup_insert_eq |].
        rewrite lookup_insert_ne by done. apply (Hshader mode). left.
        apply elem_of_union in Hn as [Hn|Hn]; [| done].
        apply elem_of_singleton in Hn. congruence.
      * destruct (decide (n = filterSize)) as [->|Hne]; [by rewrite lookup_insert_eq |].
        rewrite lookup_insert_ne by done. apply (Hshader mode). by right.
    + intros n w. destruct (decide (n = filterSize)) as [->|Hne].
      * rewrite lookup_insert_eq. by intros [= <-].
      * rewrite lookup_insert_ne by done. apply Hweights.
    + rewrite lookup_insert_eq. split; [done |]. split; [set_solver | done].
Qed.

Lemma getVsmBlurShader_hit (r : ShadowRenderer) (isVsm8 : bool) (blurMode : Z)
    (filterSize : nat) :
  (blurMode, filterSize) ∈ (if isVsm8 then blurPackedVsmShader r else blurVsmShader r) ->
  getVsmBlurShader r isVsm8 blurMode filterSize = r.
Proof. intros Hin. unfold getVsmBlurShader. by rewrite decide_True. Qed.

Lemma ShadowMapCache_get_blur (r : ShadowRenderer) (light : Light) :
  let r' := snd (ShadowMapCache.get r light) in
  blurVsmShader r' = blurVsmShader r /\ blurPackedVsmShader r' = blurPackedVsmShader r
  /\ blurVsmWeights r' = blurVsmWeights r /\ weightId r' = weightId r
  /\ trace r' = trace r.
Proof.
  unfold ShadowMapCache.get.
  by destruct (shadowMapCache r !! ShadowMapCache.getKey light) as [[|sm rest]|].
Qed.

(** The events of applyVsmBlur with the weights explicit. *)
Lemma applyVsmBlur_weights (r : ShadowRenderer) (light : Light)
    (origShadowMap : RenderTarget) :
  blurWeightsReady r ->
  let r' := applyVsmBlur r light origShadowMap in
  let weight :=
    if (vsmBlurMode light =? BLUR_GAUSSIAN)%Z
    then Some (gaussWeights (_vsmBlurSize light)) else weightId r in
  blurWeightsReady r'
  /\ weightId r' = weight
  /\ exists (tempShadowMap : ShadowMap) (offset1 offset2 : num * num)
            (scissor : num * num * num * num),
       trace r'
       = trace r ++ [ EvCacheGet tempShadowMap;
                      EvDrawQuad (renderTargets tempShadowMap 0) origShadowMap
                        offset1 weight scissor;
                      EvDrawQuad origShadowMap (renderTargets tempShadowMap 0)
                        offset2 weight scissor;
                      EvCacheAdd tempShadowMap ].
Proof.
  intros Hready r' weight. subst r'.
  destruct (ShadowMapCache_get_blur r light) as (Hs0 & Hp0 & Hw0 & Hid0 & Ht0).
  unfold applyVsmBlur.
  destruct (ShadowMapCache.get r light) as [t r0]. cbn [snd] in *.
  set (r1 := emit r0 (EvCacheGet t)).
  assert (Hready1 : blurWeightsReady r1).
  { by apply (blurWeightsReady_fields r). }
  destruct (getVsmBlurShader_ready r1 (_shadowType light =? SHADOW_VSM8)%Z
              (vsmBlurMode light) (_vsmBlurSize light) Hready1)
    as (Hready2 & Hw2 & _ & Hid2).
  destruct (getVsmBlurShader_frame r1 (_shadowType light =? SHADOW_VSM8)%Z
              (vsmBlurMode light) (_vsmBlurSize light)) as (Ht2 & _).
  set (r2 := getVsmBlurShader r1 _ _ _) in *.
  change (weightId r1) with (weightId r0) in Hid2.
  change (trace r1) with (trace r0 ++ [EvCacheGet t]) in Ht2.
  set (r3 := if (vsmBlurMode light =? BLUR_GAUSSIAN)%Z
             then with_weightId r2 (blurVsmWeights r2 !! _vsmBlurSize light) else r2).
  assert (H3 : weightId r3 = weight /\ trace r3 = trace r2
               /\ blurVsmShader r3 = blurVsmShader r2
               /\ blurPackedVsmShader r3 = blurPackedVsmShader r2
               /\ blurVsmWeights r3 = blurVsmWeights r2).
  { unfold r3, weight. destruct (vsmBlurMode light =? BLUR_GAUSSIAN)%Z.
    - cbn [weightId with_weightId]. by rewrite Hw2.
    - by rewrite Hid2, Hid0. }
  destruct H3 as (Hid3 & Ht3 & Hs3 & Hp3 & Hw3).
  unfold ShadowMapCache.add.
  cbn [trace weightId emit with_cache blurVsmShader blurPackedVsmShader blurVsmWeights].
  split; [by apply (blurWeightsReady_fields r2) |].
  split; [done |].
  eexists t, _, _, _. rewrite Hid3, Ht3, Ht2, Ht0, <- !app_assoc. reflexivity.
Qed.

(** X7: in a renderer state where every cached blur shader has its
    weights stored and the stored weights are those of gaussWeights (as
    in the state the constructor builds), getVsmBlurShader, called for
    one of the two blur modes, keeps this true, leaves the weights of
    the requested filter size stored and is a no-op when called again;
    applyVsmBlur keeps it true too, and in Gaussian blur mode both of
    its passes are drawn with the weight uniform set to
    gaussWeights(_vsmBlurSize), while in box mode the uniform is left as
    it was. *)
Theorem vsm_blur_weights_ready (r : ShadowRenderer) :
  blurWeightsReady r ->
  (forall (isVsm8 : bool) (blurMode : Z) (filterSize : nat),
      blurMode = BLUR_BOX \/ blurMode = BLUR_GAUSSIAN ->
      let r' := getVsmBlurShader r isVsm8 blurMode filterSize in
      blurWeightsReady r'
      /\ blurVsmWeights r' !! filterSize = Some (gaussWeights filterSize)
      /\ getVsmBlurShader r' isVsm8 blurMode filterSize = r')
  /\ (forall (light : Light) (origShadowMap : RenderTarget),
        vsmBlurMode light = BLUR_BOX \/ vsmBlurMode light = BLUR_GAUSSIAN ->
        let r' := applyVsmBlur r light origShadowMap in
        let sent := drop (length (trace r)) (trace r') in
        blurWeightsReady r'
        /\ (forall target source offset weight scissor,
              EvDrawQuad target source offset weight scissor ∈ sent ->
              weight = if (vsmBlurMode light =? BLUR_GAUSSIAN)%Z
                       then Some (gaussWeights (_vsmBlurSize light))
                       else weightId r)).
Proof.
  intros Hready. split.
  - intros isVsm8 blurMode filterSize _ r'.
    destruct (getVsmBlurShader_ready r isVsm8 blurMode filterSize Hready)
      as (Hr & Hw & Hin & _).
    split; [done |]. split; [done |]. by apply getVsmBlurShader_hit.
  - intros light origShadowMap _ r' sent.
    destruct (applyVsmBlur_weights r light origShadowMap Hready)
      as (Hr & _ & t & o1 & o2 & sc & Htrace).
    split; [done |].
    intros target source offset weight scissor Hin.
    unfold sent, r' in Hin. rewrite Htrace, drop_app_length in Hin.
    repeat (apply elem_of_cons in Hin as [Hin|Hin]; [try discriminate Hin |]).
    + by injection Hin as _ _ _ -> _.
    + by injection Hin as _ _ _ -> _.
    + by apply elem_of_nil in Hin.
Qed.

Lemma exampleRenderer_ready (hasWebgl2 hasDerivatives clustered : bool) :
  blurWeightsReady (exampleRenderer hasWebgl2 hasDerivatives clustered).
Proof.
  split.
  - intros mode n [Hin|Hin]; by apply elem_of_empty in Hin.
  - intros n w Hw. simpl in Hw. by rewrite lookup_empty in Hw.
Qed.

Lemma vsm_blur_weights_ready_witness :
  blurVsmWeights (getVsmBlurShader (exampleRenderer true false false) false BLUR_GAUSSIAN 11)
    !! 11%nat
  = Some (gaussWeights 11).
Proof.
  destruct (vsm_blur_weights_ready (exampleRenderer true false false)
              (exampleRenderer_ready true false false)) as [Hshader _].
  exact (proj1 (proj2 (Hshader false BLUR_GAUSSIAN 11%nat (or_intror eq_refl)))).
Defined.
End BlurWeights.

(** ** Accounting of render over frames *)

Section RenderAccounting.

Lemma setupRenderState_keeps (r : ShadowRenderer) (light : Light) :
  let r' := setupRenderState r light in
  _shadowMapUpdates r' = _shadowMapUpdates r
  /\ blurVsmShader r' = blurVsmShader r
  /\ blurPackedVsmShader r' = blurPackedVsmShader r
  /\ blurVsmWeights r' = blurVsmWeights r.
Proof.
  unfold setupRenderState.
  destruct (webgl2 (device r)), (extStandardDerivatives (device r)),
    (_type light =? LIGHTTYPE_OMNI)%Z, (clusteredLightingEnabled r), (_isPcf light);
    done.
Qed.

Lemma restoreRenderState_keeps (r : ShadowRenderer) :
  let r' := restoreRenderState r in
  _shadowMapUpdates r' = _shadowMapUpdates r
  /\ blurVsmShader r' = blurVsmShader r
  /\ blurPackedVsmShader r' = blurPackedVsmShader r
  /\ blurVsmWeights r' = blurVsmWeights r
  /\ clusteredLightingEnabled r' = clusteredLightingEnabled r.
Proof.
  unfold restoreRenderState.
  by destruct (webgl2 (device r)), (extStandardDerivatives (device r)).
Qed.

Lemma renderFaces_keeps (light : Light) (faces : list nat) (r : ShadowRenderer) :
  let r' := fold_left (renderFace light) faces r in
  _shadowMapUpdates r' = _shadowMapUpdates r
  /\ blurVsmShader r' = blurVsmShader r
  /\ blurPackedVsmShader r' = blurPackedVsmShader r
  /\ blurVsmWeights r' = blurVsmWeights r.
Proof.
  revert r. induction faces as [|face faces IH]; intros r; cbn [fold_left]; [done |].
  destruct (IH (renderFace light r face)) as (H1 & H2 & H3 & H4).
  by rewrite H1, H2, H3, H4.
Qed.

Lemma applyVsmBlur_keeps (r : ShadowRenderer) (light : Light)
    (origShadowMap : RenderTarget) :
  let r' := applyVsmBlur r light origShadowMap in
  _shadowMapUpdates r' = _shadowMapUpdates r
  /\ clusteredLightingEnabled r' = clusteredLightingEnabled r.
Proof.
  unfold applyVsmBlur, ShadowMapCache.get, ShadowMapCache.add, getVsmBlurShader.
  destruct (shadowMapCache r !! ShadowMapCache.getKey light) as [[|sm rest]|];
    destruct (_shadowType light =? SHADOW_VSM8)%Z;
    destruct (vsmBlurMode light =? BLUR_GAUSSIAN)%Z;
    repeat case_decide; done.
Qed.

(** The state of render after the guard passed. *)
Lemma render_keeps (r : ShadowRenderer) (light : Light) (origShadowMap : RenderTarget) :
  let r' := fst (render r light origShadowMap) in
  _shadowMapUpdates r'
  = (_shadowMapUpdates r + (if renderGuard light then numShadowFaces light else 0))%nat
  /\ clusteredLightingEnabled r' = clusteredLightingEnabled r
  /\ (blurWeightsReady r -> blurWeightsReady r').
Proof.
  destruct (renderGuard light) eqn:Hguard.
  2: { rewrite (render_skip r light origShadowMap Hguard). cbn [fst].
       split; [lia | done]. }
  unfold render. fold (renderGuard light). rewrite Hguard.
  fold (firedLight light).
  destruct (firedLight_fields light) as (Hn & Hv & Hb & Hty).
  rewrite Hn, Hv, Hb, Hty. cbn [fst].
  set (l1 := firedLight light).
  set (r1 := with_shadowMapUpdates r _).
  set (r2 := setupRenderState r1 l1).
  set (r3 := fold_left (renderFace l1) (seq 0 (numShadowFaces light)) r2).
  destruct (setupRenderState_keeps r1 l1) as (Hu2 & Hs2 & Hp2 & Hw2).
  destruct (setupRenderState_frame r1 l1) as (_ & Hc2 & _).
  destruct (renderFaces_keeps l1 (seq 0 (numShadowFaces light)) r2)
    as (Hu3 & Hs3 & Hp3 & Hw3).
  destruct (renderFaces_frame l1 (seq 0 (numShadowFaces light)) r2)
    as (_ & _ & _ & Hc3 & _).
  fold r2 in Hu2, Hs2, Hp2, Hw2, Hc2. fold r3 in Hu3, Hs3, Hp3, Hw3, Hc3.
  change (_shadowMapUpdates r1)
    with (_shadowMapUpdates r + numShadowFaces light)%nat in Hu2.
  change (blurVsmShader r1) with (blurVsmShader r) in Hs2.
  change (blurPackedVsmShader r1) with (blurPackedVsmShader r) in Hp2.
  change (blurVsmWeights r1) with (blurVsmWeights r) in Hw2.
  change (clusteredLightingEnabled r1) with (clusteredLightingEnabled r) in Hc2.
  assert (Hready3 : blurWeightsReady r -> blurWeightsReady r3).
  { apply blurWeightsReady_fields; congruence. }
  set (r4 := if _isVsm light && (1 <? _vsmBlurSize light)%nat
             then if negb (clusteredLightingEnabled r3)
                     || (_type light =? LIGHTTYPE_DIRECTIONAL)%Z
                  then applyVsmBlur r3 l1 origShadowMap else r3
             else r3).
  assert (H4 : _shadowMapUpdates r4 = _shadowMapUpdates r3
               /\ clusteredLightingEnabled r4 = clusteredLightingEnabled r3
               /\ (blurWeightsReady r3 -> blurWeightsReady r4)).
  { unfold r4.
    destruct (_isVsm light && (1 <? _vsmBlurSize light)%nat); [| done].
    destruct (negb (clusteredLightingEnabled r3)
              || (_type light =? LIGHTTYPE_DIRECTIONAL)%Z); [| done].
    destruct (applyVsmBlur_keeps r3 l1 origShadowMap) as (Hu & Hc).
    split; [done |]. split; [done |].
    intros Hready. by destruct (applyVsmBlur_weights r3 l1 origShadowMap Hready). }
  destruct H4 as (Hu4 & Hc4 & Hready4).
  destruct (restoreRenderState_keeps r4) as (Hu5 & Hs5 & Hp5 & Hw5 & Hc5).
  split; [congruence |]. split; [congruence |].
  intros Hready. apply (blurWeightsReady_fields r4); auto.
Qed.

Lemma renderFrames_S (origShadowMap : RenderTarget) (n : nat) (r : ShadowRenderer)
    (light : Light) :
  renderFrames origShadowMap (S n) r light
  = render (fst (renderFrames origShadowMap n r light))
      (snd (renderFrames origShadowMap n r light)) origShadowMap.
Proof. reflexivity. Qed.

Lemma render_light (r : ShadowRenderer) (light : Light) (origShadowMap : RenderTarget) :
  snd (render r light origShadowMap)
  = if renderGuard light then firedLight light else light.
Proof.
  destruct (renderGuard light) eqn:Hguard.
  - by destruct (render_run r light origShadowMap Hguard) as (Hl & _).
  - by rewrite (render_skip r light origShadowMap Hguard).
Qed.

(** X8: for a light with one of the two blur modes, render adds
    numShadowFaces to the counter _shadowMapUpdates when its guard
    passes and nothing otherwise, sends that many face submissions, and
    keeps the blur caches consistent.  Over frames (render called again on the light as the
    last call left it) a light whose guard passes is counted in every
    frame when its update mode is SHADOWUPDATE_REALTIME and stays as it
    is, and is counted once, whatever the number of frames, when its
    mode is SHADOWUPDATE_THISFRAME; a light whose guard fails is never
    counted. *)
Theorem render_counts_faces (r : ShadowRenderer) (light : Light)
    (origShadowMap : RenderTarget) :
  vsmBlurMode light = BLUR_BOX \/ vsmBlurMode light = BLUR_GAUSSIAN ->
  (let r' := fst (render r light origShadowMap) in
   _shadowMapUpdates r'
   = (_shadowMapUpdates r + (if renderGuard light then numShadowFaces light else 0))%nat
   /\ faceEvents (drop (length (trace r)) (trace r'))
      = (if renderGuard light then numShadowFaces light else 0%nat)
   /\ (blurWeightsReady r -> blurWeightsReady r'))
  /\ (forall n : nat,
        let rn := fst (renderFrames origShadowMap n r light) in
        let ln := snd (renderFrames origShadowMap n r light) in
        (renderGuard light = true ->
         shadowUpdateMode light = SHADOWUPDATE_REALTIME ->
         ln = light
         /\ _shadowMapUpdates rn = (_shadowMapUpdates r + n * numShadowFaces light)%nat)
        /\ (renderGuard light = true ->
            shadowUpdateMode light = SHADOWUPDATE_THISFRAME -> (0 < n)%nat ->
            shadowUpdateMode ln = SHADOWUPDATE_NONE
            /\ _shadowMapUpdates rn = (_shadowMapUpdates r + numShadowFaces light)%nat)
        /\ (renderGuard light = false -> rn = r /\ ln = light)).
Proof.
  intros _. split.
  - intros r'. destruct (render_keeps r light origShadowMap) as (Hu & _ & Hready).
    split; [done |]. split; [| done].
    subst r'. destruct (renderGuard light) eqn:Hguard.
    + destruct (render_new_events r light origShadowMap Hguard)
        as (blur & -> & Hblur & _).
      unfold faceEvents. cbn [app List.filter].
      rewrite !List.filter_app, !length_app.
      assert (Hfaces : forall faces : list nat,
                 length (List.filter
                           (fun e => match e with EvFace _ _ => true | _ => false end)
                           (map (fun face => EvFace face (firedLight light)) faces))
                 = length faces).
      { induction faces as [|f faces IH]; cbn; [done | by rewrite IH]. }
      rewrite Hfaces, length_seq.
      assert (Hnone : length (List.filter
                                (fun e => match e with EvFace _ _ => true | _ => false end)
                                blur) = 0%nat).
      { clear -Hblur. induction Hblur as [|e blur He _ IH]; [done |].
        cbn [List.filter]. by destruct e. }
      rewrite Hnone. cbn. lia.
    + rewrite (render_skip r light origShadowMap Hguard). cbn [fst].
      by rewrite drop_all.
  - intros n rn ln. split; [| split].
    + intros Hguard Hmode. subst rn ln.
      induction n as [|n [IHl IHu]]; [cbn; split; [done | lia] |].
      rewrite renderFrames_S, IHl.
      destruct (render_keeps (fst (renderFrames origShadowMap n r light)) light
                  origShadowMap) as (Hu & _).
      rewrite Hu, IHu, Hguard, render_light, Hguard.
      split; [| lia].
      unfold firedLight. by rewrite Hmode.
    + intros Hguard Hmode Hn. subst rn ln.
      destruct n as [|n]; [lia |]. clear Hn.
      induction n as [|n [IHl IHu]].
      * cbn. rewrite render_light, Hguard.
        destruct (render_keeps r light origShadowMap) as (Hu & _).
        rewrite Hu, Hguard. split; [| done].
        unfold firedLight. by rewrite Hmode.
      * rewrite renderFrames_S.
        set (s := renderFrames origShadowMap (S n) r light) in *.
        assert (Hoff : renderGuard (snd s) = false).
        { unfold renderGuard. rewrite IHl. cbn. by rewrite andb_false_r. }
        rewrite (render_skip (fst s) (snd s) origShadowMap Hoff). done.
    + intros Hguard. subst rn ln.
      induction n as [|n [IHr IHl]]; [done |].
      rewrite renderFrames_S, IHr, IHl.
      by rewrite (render_skip r light origShadowMap Hguard).
Qed.

Lemma render_counts_faces_witness :
  _shadowMapUpdates
    (fst (renderFrames exampleTarget 3 (exampleRenderer true false false) omniLight))
  = 18%nat.
Proof.
  exact (proj2 (proj1 (proj2 (render_counts_faces (exampleRenderer true false false)
                                omniLight exampleTarget (or_intror eq_refl))
                         3%nat) eq_refl eq_refl)).
Defined.
End RenderAccounting.

(** ** Colour buffer: clear settings against colour writes *)

Section ColourBuffer.

Lemma setupRenderState_colorWrite (r : ShadowRenderer) (light : Light) :
  let useShadowSampler :=
    _isPcf light && webgl2 (device r)
    && (clusteredLightingEnabled r || negb (_type light =? LIGHTTYPE_OMNI)%Z) in
  let on := negb useShadowSampler in
  colorWrite (device (setupRenderState r light)) = (on, on, on, on).
Proof.
  unfold setupRenderState.
  destruct (webgl2 (device r)) eqn:Hw, (extStandardDerivatives (device r)) eqn:He,
    (_type light =? LIGHTTYPE_OMNI)%Z, (clusteredLightingEnabled r), (_isPcf light);
    simpl; rewrite ?Hw, ?He; simpl; done.
Qed.

Lemma restoreRenderState_states (r : ShadowRenderer) :
  let d' := device (restoreRenderState r) in
  blending d' = blending (device r) /\ depthWrite d' = depthWrite (device r)
  /\ depthTest d' = depthTest (device r) /\ depthFunc d' = depthFunc (device r)
  /\ colorWrite d' = colorWrite (device r)
  /\ depthBiasValues d' = depthBiasValues (device r).
Proof.
  unfold restoreRenderState.
  by destruct (webgl2 (device r)), (extStandardDerivatives (device r)).
Qed.

(** X9: for a light whose _isPcf flag stands for the shadow types PCF3
    and PCF5, and with PCF5 only on a WebGL2 device, the camera settings
    and the render state agree on the colour buffer: the flag
    clearColorBuffer that setShadowCameraSettings stores is exactly the
    colour write mask that setupRenderState sets on all four channels,
    and it is off exactly for a PCF light on WebGL2 that is not an omni
    light outside clustered mode.  restoreRenderState puts none of it
    back: the colour mask, blending off, depth write and depth test on
    and the depth function stay as setupRenderState left them.  A camera
    made by createShadowCamera for a VSM type clears to (0,0,0,0), any
    other to (1,1,1,1), and a VSM camera always clears its colour
    buffer. *)
Theorem shadow_colour_clear_matches_write (r : ShadowRenderer) (light : Light)
    (shadowCam : ClearSettings) :
  _isPcf light
  = ((_shadowType light =? SHADOW_PCF5) || (_shadowType light =? SHADOW_PCF3))%Z ->
  (_shadowType light = SHADOW_PCF5 -> webgl2 (device r) = true) ->
  let created := createShadowCamera shadowCam (_shadowType light) in
  let cam := setShadowCameraSettings created (device r) (_shadowType light)
               (_type light) (clusteredLightingEnabled r) in
  let r1 := setupRenderState r light in
  let r2 := restoreRenderState r1 in
  let on := clearColorBuffer cam in
  colorWrite (device r1) = (on, on, on, on)
  /\ (on = false <->
      _isPcf light = true /\ webgl2 (device r) = true
      /\ (_type light = LIGHTTYPE_OMNI -> clusteredLightingEnabled r = true))
  /\ (colorWrite (device r2) = (on, on, on, on)
      /\ blending (device r2) = false /\ depthWrite (device r2) = true
      /\ depthTest (device r2) = true /\ depthFunc (device r2) = FUNC_LESSEQUAL)
  /\ clearDepthBuffer cam = true /\ clearStencilBuffer cam = false
  /\ clearColor cam
     = (if ((SHADOW_VSM8 <=? _shadowType light)
            && (_shadowType light <=? SHADOW_VSM32))%Z
        then (Fin 0, Fin 0, Fin 0, Fin 0) else (Fin 1, Fin 1, Fin 1, Fin 1))
  /\ (((SHADOW_VSM8 <=? _shadowType light)
       && (_shadowType light <=? SHADOW_VSM32))%Z = true -> on = true).
Proof.
  intros Hpcf Hpcf5 created cam r1 r2 on.
  assert (Hon : on = negb (_isPcf light && webgl2 (device r)
                           && (clusteredLightingEnabled r
                               || negb (_type light =? LIGHTTYPE_OMNI)%Z))).
  { unfold on, cam, setShadowCameraSettings. cbn [clearColorBuffer]. f_equal.
    rewrite Hpcf.
    destruct (Z.eqb_spec (_shadowType light) SHADOW_PCF5) as [H5|H5].
    - rewrite (Hpcf5 H5). cbn [orb andb].
      by destruct (_type light =? LIGHTTYPE_OMNI)%Z, (clusteredLightingEnabled r).
    - cbn [orb].
      by destruct (_shadowType light =? SHADOW_PCF3)%Z, (webgl2 (device r)),
           (_type light =? LIGHTTYPE_OMNI)%Z, (clusteredLightingEnabled r). }
  pose proof (setupRenderState_colorWrite r light) as Hcw. cbv zeta in Hcw.
  fold r1 in Hcw. rewrite <- Hon in Hcw.
  destruct (setupRenderState_states r light) as (Hb & Hdw & Hdt & Hdf & _).
  fold r1 in Hb, Hdw, Hdt, Hdf.
  destruct (restoreRenderState_states r1) as (Hb2 & Hdw2 & Hdt2 & Hdf2 & Hcw2 & _).
  fold r2 in Hb2, Hdw2, Hdt2, Hdf2, Hcw2.
  split; [done |]. split.
  { rewrite Hon, negb_false_iff. split.
    - intros Hs. apply andb_true_iff in Hs as [Hs Hc].
      apply andb_true_iff in Hs as [Hp Hw].
      split; [done |]. split; [done |].
      intros Ho. rewrite Ho in Hc. change (LIGHTTYPE_OMNI =? LIGHTTYPE_OMNI)%Z with true in Hc.
      by rewrite orb_false_r in Hc.
    - intros (Hp & Hw & Hc). rewrite Hp, Hw. cbn [andb].
      destruct (Z.eqb_spec (_type light) LIGHTTYPE_OMNI) as [Ho|Ho];
        [by rewrite (Hc Ho) | by rewrite orb_true_r]. }
  split; [repeat split; congruence |].
  split; [done |]. split; [done |]. split; [done |].
  intros Hvsm. rewrite Hon, Hpcf.
  apply andb_true_iff in Hvsm as [H1 H2].
  apply Z.leb_le in H1, H2. unfold SHADOW_VSM8, SHADOW_VSM32 in *.
  rewrite (proj2 (Z.eqb_neq _ _)) by (unfold SHADOW_PCF5; lia).
  rewrite (proj2 (Z.eqb_neq _ _)) by (unfold SHADOW_PCF3; lia). done.
Qed.

Lemma shadow_colour_clear_matches_write_witness :
  colorWrite (device (setupRenderState (exampleRenderer true false false) spotLight))
  = (false, false, false, false).
Proof.
  exact (proj1 (shadow_colour_clear_matches_write (exampleRenderer true false false)
                  spotLight
                  (mkClearSettings (Fin 0, Fin 0, Fin 0, Fin 1) true true true)
                  eq_refl (fun _ => eq_refl))).
Defined.
End ColourBuffer.

(** ** Shader slots of the shadow pass *)

Section ShaderSlots.
Local Open Scope Z_scope.

(** X10: for shadow types below SHADOW_COUNT, the slot
    SHADER_SHADOW + shadowType + type * SHADOW_COUNT under which
    submitCasters keeps the shadow shader of a mesh instance is shared by
    two lights only when they have the same shadow type and the same
    light type; for the three light types it lies above the forward and
    depth slots, between 3 and 20; and it is the slot SHADER_PICK of the
    picker exactly for a spot light with the shadow type SHADOW_VSM32. *)
Theorem shadowShaderSlot_distinct (light other : Light) :
  0 <= _shadowType light < SHADOW_COUNT ->
  0 <= _shadowType other < SHADOW_COUNT ->
  (shadowShaderSlot light = shadowShaderSlot other <->
   _shadowType light = _shadowType other /\ _type light = _type other)
  /\ (LIGHTTYPE_DIRECTIONAL <= _type light <= LIGHTTYPE_SPOT ->
      SHADER_DEPTH < shadowShaderSlot light <= 20)
  /\ (shadowShaderSlot light = SHADER_PICK <->
      _type light = LIGHTTYPE_SPOT /\ _shadowType light = SHADOW_VSM32).
Proof.
  unfold shadowShaderSlot, SHADOW_COUNT, SHADER_SHADOW, SHADER_PICK, SHADER_DEPTH,
    LIGHTTYPE_DIRECTIONAL, LIGHTTYPE_SPOT, SHADOW_VSM32.
  cbv zeta. intros Hl Ho. repeat split; intros; lia.
Qed.

Lemma shadowShaderSlot_distinct_witness :
  shadowShaderSlot spotLight = shadowShaderSlot omniLight <->
  _shadowType spotLight = _shadowType omniLight /\ _type spotLight = _type omniLight.
Proof.
  apply (shadowShaderSlot_distinct spotLight omniLight); vm_compute; split; congruence.
Defined.
End ShaderSlots.

(** ** Local lights: the faces of cullLocal *)

Section CullLocal.
Context `{FR : ForwardRenderer}.
Variable isVisibleAt : num -> MeshInstance -> ShadowCamera -> bool.
Variable isClustered : bool.
Variable lightTextureAtlas : LightTextureAtlas.

(** The camera reads the type and the range, cone and viewport of the
    light only. *)
Lemma localCullCamera_light (light light' : LocalLight) (lightNode : GraphNode)
    (shadowCam : ShadowCamera) (fieldOfView : num) :
  _type (ll_light light') = _type (ll_light light) ->
  attenuationEnd light' = attenuationEnd light ->
  _outerConeAngle light' = _outerConeAngle light ->
  atlasViewport_z light' = atlasViewport_z light ->
  localCullCamera isClustered lightTextureAtlas light' lightNode shadowCam fieldOfView
  = localCullCamera isClustered lightTextureAtlas light lightNode shadowCam fieldOfView.
Proof. unfold localCullCamera. by intros -> -> -> ->. Qed.

Lemma cullLocalFace_unfold (light : LocalLight) (lightNode : GraphNode)
    (drawCalls : list MeshInstance) (st : CullLocalState) (face : nat) :
  let st' := cullLocalFace isVisibleAt isClustered lightTextureAtlas light lightNode
               drawCalls st face in
  let cam := localCullCamera isClustered lightTextureAtlas light lightNode
               (shadowCamera (renderData (ls_faces st) face)) (fov st face) in
  fov st' face = fst cam
  /\ shadowCamera (renderData (ls_faces st') face) = snd cam
  /\ visibleCasters (renderData (ls_faces st') face)
     = fst (@cullShadowCasters _ (frustumRenderer isVisibleAt (fst cam)) drawCalls
              (visibleCasters (renderData (ls_faces st) face)) (snd cam))
  /\ (forall f : nat, f <> face ->
        renderData (ls_faces st') f = renderData (ls_faces st) f
        /\ fov st' f = fov st f)
  /\ visibleSceneAabb (ls_faces st') = visibleSceneAabb (ls_faces st).
Proof.
  intros st' cam. subst st'. unfold cullLocalFace. fold cam.
  destruct cam as [fieldOfView shadowCam]. cbn [fst snd].
  destruct (cullShadowCasters drawCalls _ shadowCam) as [visible marked].
  cbn [fov ls_faces renderData visibleSceneAabb fst]. unfold store_set.
  rewrite !decide_True by done. cbn [shadowCamera visibleCasters].
  repeat split; try done; by rewrite decide_False.
Qed.

Lemma face_loop (light : LocalLight) (lightNode : GraphNode)
    (drawCalls : list MeshInstance) (faces : list nat) (st : CullLocalState) :
  NoDup faces ->
  let st' := fold_left (cullLocalFace isVisibleAt isClustered lightTextureAtlas light
                          lightNode drawCalls) faces st in
  (forall f : nat, f ∉ faces ->
      renderData (ls_faces st') f = renderData (ls_faces st) f /\ fov st' f = fov st f)
  /\ (forall f : nat, f ∈ faces ->
        let cam := localCullCamera isClustered lightTextureAtlas light lightNode
                     (shadowCamera (renderData (ls_faces st) f)) (fov st f) in
        fov st' f = fst cam
        /\ shadowCamera (renderData (ls_faces st') f) = snd cam
        /\ visibleCasters (renderData (ls_faces st') f)
           = fst (@cullShadowCasters _ (frustumRenderer isVisibleAt (fst cam)) drawCalls
                    (visibleCasters (renderData (ls_faces st) f)) (snd cam)))
  /\ visibleSceneAabb (ls_faces st') = visibleSceneAabb (ls_faces st).
Proof.
  revert st. induction faces as [|f0 fs IH]; intros st Hnd; cbn [fold_left].
  - split; [done |]. split; [| done]. intros f Hf. by apply elem_of_nil in Hf.
  - apply NoDup_cons in Hnd as [Hf0 Hnd].
    destruct (cullLocalFace_unfold light lightNode drawCalls st f0)
      as (Hfov & Hcam & Hvis & Hother & Hbox).
    destruct (IH (cullLocalFace isVisibleAt isClustered lightTextureAtlas light lightNode
                    drawCalls st f0) Hnd) as (IHout & IHin & IHbox).
    split; [| split].
    + intros f Hf. apply not_elem_of_cons in Hf as [Hne Hf].
      destruct (IHout f Hf) as [-> ->]. by apply Hother.
    + intros f Hf. apply elem_of_cons in Hf as [->|Hf].
      * destruct (IHout f0 Hf0) as [-> ->]. done.
      * assert (Hne : f <> f0) by (intros ->; done).
        destruct (Hother f Hne) as [Hd Hv].
        specialize (IHin f Hf). cbv zeta in IHin. rewrite Hd, Hv in IHin. exact IHin.
    + by rewrite IHbox.
Qed.

(** X11: cullLocal marks the light visible this frame, allocates its
    shadow map only outside clustered mode and only when it has none,
    and works on one face for a spot light and on six faces for any
    other type: the render data and the field of view of any further
    face and the shared scene box are untouched, and each of these faces
    ends with the camera set up from the light and with exactly the draw
    calls that are non-culling or visible to that camera at its new
    field of view, whatever its list held before. *)
Theorem cullLocal_faces (created : ShadowMap) (light : LocalLight)
    (lightNode : GraphNode) (drawCalls : list MeshInstance) (st : CullLocalState) :
  let faceCount :=
    if (_type (ll_light light) =? LIGHTTYPE_SPOT)%Z then 1%nat else 6%nat in
  let light' := fst (cullLocal isVisibleAt isClustered lightTextureAtlas created light
                       lightNode drawCalls st) in
  let st' := snd (cullLocal isVisibleAt isClustered lightTextureAtlas created light
                    lightNode drawCalls st) in
  ll_light light' = set_visibleThisFrame (ll_light light) true
  /\ visibleThisFrame (ll_light light') = true
  /\ _shadowMap light'
     = (if isClustered then _shadowMap light
        else Some (default created (_shadowMap light)))
  /\ visibleSceneAabb (ls_faces st') = visibleSceneAabb (ls_faces st)
  /\ (forall face : nat, (faceCount <= face)%nat ->
        renderData (ls_faces st') face = renderData (ls_faces st) face
        /\ fov st' face = fov st face)
  /\ (forall face : nat, (face < faceCount)%nat ->
        let cam := localCullCamera isClustered lightTextureAtlas light lightNode
                     (shadowCamera (renderData (ls_faces st) face)) (fov st face) in
        fov st' face = fst cam
        /\ shadowCamera (renderData (ls_faces st') face) = snd cam
        /\ (forall m : MeshInstance,
              m ∈ visibleCasters (renderData (ls_faces st') face)
              <-> m ∈ drawCalls
                  /\ (cull m = false \/ isVisibleAt (fst cam) m (snd cam) = true))).
Proof.
  intros faceCount light' st'. subst light' st'. unfold cullLocal. cbn [fst snd].
  set (l1 := mkLocalLight (set_visibleThisFrame (ll_light light) true) _ _ _ _).
  set (l2 := if negb isClustered then _ else l1).
  assert (H2 : ll_light l2 = set_visibleThisFrame (ll_light light) true
               /\ attenuationEnd l2 = attenuationEnd light
               /\ _outerConeAngle l2 = _outerConeAngle light
               /\ atlasViewport_z l2 = atlasViewport_z light
               /\ _shadowMap l2
                  = (if isClustered then _shadowMap light
                     else Some (default created (_shadowMap light)))).
  { unfold l2, l1. destruct isClustered; cbn; [done |].
    by destruct (_shadowMap light). }
  destruct H2 as (Hl & Ha & Hc & Hz & Hm).
  assert (Hty : _type (ll_light l2) = _type (ll_light light)) by by rewrite Hl.
  rewrite Hty. fold faceCount.
  destruct (face_loop l2 lightNode drawCalls (seq 0 faceCount) st (NoDup_seq _ _))
    as (Hout & Hin & Hbox).
  split; [done |]. split; [by rewrite Hl |]. split; [done |]. split; [done |].
  split.
  - intros face Hface. apply Hout. rewrite elem_of_seq. lia.
  - intros face Hface.
    set (cam := localCullCamera isClustered lightTextureAtlas light lightNode
                  (shadowCamera (renderData (ls_faces st) face)) (fov st face)).
    assert (Hf : face ∈ seq 0 faceCount) by (rewrite elem_of_seq; lia).
    specialize (Hin face Hf). cbv zeta in Hin.
    rewrite (localCullCamera_light light l2) in Hin by done. fold cam in Hin.
    destruct Hin as (Hfov & Hcam & Hvis).
    split; [done |]. split; [done |].
    intros m. rewrite Hvis.
    apply (@cullShadowCasters_elem _ (frustumRenderer isVisibleAt (fst cam))).
Qed.
End CullLocal.

(** ** Local lights: clip planes and field of view *)

Section CullLocalCamera.
Context `{FR : ForwardRenderer} {NP : NodePose}.
Variable isVisibleAt : num -> MeshInstance -> ShadowCamera -> bool.
Variable lightTextureAtlas : LightTextureAtlas.
Local Open Scope R_scope.

(** The camera and the field of view of a face that cullLocal worked on. *)
Lemma cullLocal_camera (isClustered : bool) (created : ShadowMap) (light : LocalLight)
    (lightNode : GraphNode) (drawCalls : list MeshInstance) (st : CullLocalState)
    (face : nat) :
  (face < (if (_type (ll_light light) =? LIGHTTYPE_SPOT)%Z then 1 else 6))%nat ->
  let st' := snd (cullLocal isVisibleAt isClustered lightTextureAtlas created light
                    lightNode drawCalls st) in
  (fov st' face, shadowCamera (renderData (ls_faces st') face))
  = localCullCamera isClustered lightTextureAtlas light lightNode
      (shadowCamera (renderData (ls_faces st) face)) (fov st face).
Proof.
  intros Hface st'. subst st'. unfold cullLocal. cbn [snd].
  set (l1 := mkLocalLight (set_visibleThisFrame (ll_light light) true) _ _ _ _).
  set (l2 := if negb isClustered then _ else l1).
  assert (H2 : _type (ll_light l2) = _type (ll_light light)
               /\ attenuationEnd l2 = attenuationEnd light
               /\ _outerConeAngle l2 = _outerConeAngle light
               /\ atlasViewport_z l2 = atlasViewport_z light).
  { unfold l2, l1. destruct isClustered; cbn; [done |].
    by destruct (_shadowMap light). }
  destruct H2 as (Hty & Ha & Hc & Hz). rewrite Hty.
  destruct (face_loop isVisibleAt isClustered lightTextureAtlas l2 lightNode drawCalls
              (seq 0 (if (_type (ll_light light) =? LIGHTTYPE_SPOT)%Z then 1 else 6))
              st (NoDup_seq _ _)) as (_ & Hin & _).
  assert (Hf : face ∈ seq 0 (if (_type (ll_light light) =? LIGHTTYPE_SPOT)%Z
                             then 1 else 6)%nat) by (rewrite elem_of_seq; lia).
  destruct (Hin face Hf) as (Hfov & Hcam & _).
  rewrite Hfov, Hcam, (localCullCamera_light isClustered lightTextureAtlas light l2)
    by done.
  symmetry. apply surjective_pairing.
Qed.

(** The field of view of an omni face in the atlas, in degrees. *)
Lemma atlas_fov (res vz e : R) :
  0 < res -> 0 < vz -> 0 <= e ->
  let filterSize := 2 / (res * vz / 3) * e in
  ((Math_atan (Fin 1 + (Fin 2 / ((Fin res * Fin vz) / Fin 3)) * Fin e) * RAD_TO_DEG)
   * Fin 2)%js
  = Fin (atan (1 + filterSize) * (180 / PI) * 2)
  /\ 90 <= atan (1 + filterSize) * (180 / PI) * 2 < 180
  /\ (e = 0 -> atan (1 + filterSize) * (180 / PI) * 2 = 90)
  /\ (0 < e -> 90 < atan (1 + filterSize) * (180 / PI) * 2).
Proof.
  intros Hres Hvz He filterSize.
  assert (Htile : res * vz / 3 <> 0).
  { assert (0 < res * vz) by (apply Rmult_lt_0_compat; lra). lra. }
  assert (Htile_pos : 0 < 2 / (res * vz / 3)).
  { apply Rdiv_lt_0_compat; [lra |].
    assert (0 < res * vz) by (apply Rmult_lt_0_compat; lra). lra. }
  assert (Hf : 0 <= filterSize).
  { unfold filterSize. apply Rmult_le_pos; lra. }
  pose proof PI_RGT_0 as Hpi.
  assert (Hquarter : PI / 4 * (180 / PI) * 2 = 90) by (field; lra).
  assert (Hhalf : PI / 2 * (180 / PI) * 2 = 180) by (field; lra).
  assert (Hk : 0 < 180 / PI) by (apply Rdiv_lt_0_compat; lra).
  assert (Hlow : PI / 4 <= atan (1 + filterSize)).
  { rewrite <- atan_1. destruct (Req_dec filterSize 0) as [->|Hne].
    - rewrite Rplus_0_r. lra.
    - left. apply atan_increasing. lra. }
  pose proof (atan_bound (1 + filterSize)) as [_ Hup].
  split.
  { unfold RAD_TO_DEG, Math_atan. cbn [JS.mul JS.div JS.add].
    rewrite (decide_False (P := (3 = 0))) by lra.
    rewrite (decide_False (P := (res * vz / 3 = 0))) by done.
    reflexivity. }
  split.
  { split.
    - apply Rle_trans with (PI / 4 * (180 / PI) * 2); [lra |].
      apply Rmult_le_compat_r; [lra |]. apply Rmult_le_compat_r; lra.
    - apply Rlt_le_trans with (PI / 2 * (180 / PI) * 2); [| lra].
      apply Rmult_lt_compat_r; [lra |]. apply Rmult_lt_compat_r; lra. }
  split.
  - intros ->. unfold filterSize. rewrite Rmult_0_r, Rplus_0_r, atan_1. exact Hquarter.
  - intros Hpos. apply Rle_lt_trans with (PI / 4 * (180 / PI) * 2); [lra |].
    apply Rmult_lt_compat_r; [lra |]. apply Rmult_lt_compat_r; [lra |].
    rewrite <- atan_1. apply atan_increasing.
    assert (0 < filterSize) by (unfold filterSize; apply Rmult_lt_0_compat; lra). lra.
Qed.

(** X12: for a light of finite range a > 0, every face that cullLocal
    works on gets the near plane a/1000 and the far plane a, so near <
    far, and keeps its orthographic height.  Its field of view is twice
    the outer cone angle for a spot light and 90 degrees for an omni
    light outside clustered mode; for an omni light in clustered mode,
    with a positive atlas resolution and viewport size and edge pixels
    e >= 0, it is 2 atan(1 + 6e/(resolution * viewport)) in degrees, at
    least 90 and below 180 degrees, equal to 90 without edge pixels and
    wider with them; for any other type it is left as it was.  A spot
    camera takes the placement of the light turned by -90 degrees about
    its x axis, whatever its own placement was; the camera of any other
    type keeps its rotation. *)
Theorem cullLocal_clip_and_fov (isClustered : bool) (created : ShadowMap)
    (light : LocalLight) (lightNode : GraphNode) (drawCalls : list MeshInstance)
    (st : CullLocalState) (face : nat) (a : R) :
  attenuationEnd light = Fin a -> 0 < a ->
  (face < (if (_type (ll_light light) =? LIGHTTYPE_SPOT)%Z then 1 else 6))%nat ->
  let type := _type (ll_light light) in
  let st' := snd (cullLocal isVisibleAt isClustered lightTextureAtlas created light
                    lightNode drawCalls st) in
  let cam := shadowCamera (renderData (ls_faces st) face) in
  let cam' := shadowCamera (renderData (ls_faces st') face) in
  (nearClip cam' = Fin (a / 1000) /\ farClip cam' = Fin a /\ a / 1000 < a
   /\ orthoHeight cam' = orthoHeight cam)
  /\ (type = LIGHTTYPE_SPOT ->
      fov st' face = (_outerConeAngle light * Fin 2)%js
      /\ forall node : GraphNode,
           pose (_node cam')
           = pose (rotateLocal
                     (setRotation (setPosition node (getPosition lightNode))
                        (getRotation lightNode))
                     (Fin (-90)) (Fin 0) (Fin 0)))
  /\ (type <> LIGHTTYPE_SPOT ->
      pose (_node cam') = (getPosition lightNode, snd (pose (_node cam))))
  /\ (type = LIGHTTYPE_OMNI -> isClustered = false -> fov st' face = Fin 90)
  /\ (type = LIGHTTYPE_OMNI -> isClustered = true ->
      forall res vz e : R,
        shadowAtlasResolution lightTextureAtlas = Fin res ->
        atlasViewport_z light = Fin vz ->
        shadowEdgePixels lightTextureAtlas = Fin e ->
        0 < res -> 0 < vz -> 0 <= e ->
        let degrees := atan (1 + 2 / (res * vz / 3) * e) * (180 / PI) * 2 in
        fov st' face = Fin degrees
        /\ 90 <= degrees < 180
        /\ (e = 0 -> degrees = 90)
        /\ (0 < e -> 90 < degrees))
  /\ (type <> LIGHTTYPE_SPOT -> type <> LIGHTTYPE_OMNI -> fov st' face = fov st face).
Proof.
  intros Ha Hpos Hface type st' cam cam'.
  pose proof (cullLocal_camera isClustered created light lightNode drawCalls st face
                Hface) as Hcam.
  cbv zeta in Hcam. fold st' in Hcam. fold cam in Hcam. fold cam' in Hcam.
  assert (Hfov : fov st' face
                 = fst (localCullCamera isClustered lightTextureAtlas light lightNode
                          cam (fov st face))) by by rewrite <- Hcam.
  assert (Hcam' : cam'
                  = snd (localCullCamera isClustered lightTextureAtlas light lightNode
                           cam (fov st face))) by by rewrite <- Hcam.
  clear Hcam. rewrite Hfov, Hcam'. clear Hfov Hcam'.
  unfold localCullCamera. fold type. rewrite Ha.
  split.
  { destruct (type =? LIGHTTYPE_SPOT)%Z, (type =? LIGHTTYPE_OMNI)%Z;
      cbn [snd nearClip farClip orthoHeight JS.div];
      rewrite (decide_False (P := (1000 = 0))) by lra;
      (split; [done |]); (split; [done |]); (split; [lra | done]). }
  split.
  { intros Hty. rewrite Hty. change (LIGHTTYPE_SPOT =? LIGHTTYPE_SPOT)%Z with true.
    cbn [fst snd _node]. split; [done |].
    intros node. apply pose_rotateLocal.
    by rewrite !pose_setRotation, !pose_setPosition. }
  split.
  { intros Hty. apply Z.eqb_neq in Hty. rewrite Hty.
    destruct (type =? LIGHTTYPE_OMNI)%Z; cbn [snd _node]; apply pose_setPosition. }
  split.
  { intros Hty ->. rewrite Hty.
    by change (LIGHTTYPE_OMNI =? LIGHTTYPE_SPOT)%Z with false. }
  split.
  { intros Hty -> res vz e Hres Hvz He Hr Hv He0. rewrite Hty.
    change (LIGHTTYPE_OMNI =? LIGHTTYPE_SPOT)%Z with false.
    change (LIGHTTYPE_OMNI =? LIGHTTYPE_OMNI)%Z with true.
    cbn [fst]. rewrite Hres, Hvz, He.
    exact (atlas_fov res vz e Hr Hv He0). }
  intros Hs Ho. apply Z.eqb_neq in Hs, Ho. by rewrite Hs, Ho.
Qed.
End CullLocalCamera.

Section CullLocalCase.
Local Open Scope R_scope.

Lemma cullLocal_clip_and_fov_witness :
  @nearClip Flat.engine
    (@shadowCamera Flat.engine
       (@renderData Flat.engine
          (@ls_faces Flat.engine
             (snd (@cullLocal Flat.engine Flat.renderer flatVisibleAt true exampleAtlas
                     (mkShadowMap 0 1024) localOmni (vec3 1 2 3) [Flat.strayCaster]
                     flatLocalState)))
          5))
  = Fin (10 / 1000).
Proof.
  refine (proj1 (proj1 (@cullLocal_clip_and_fov Flat.engine Flat.renderer Flat_nodePose
                          flatVisibleAt exampleAtlas true (mkShadowMap 0 1024) localOmni
                          (vec3 1 2 3) [Flat.strayCaster] flatLocalState 5%nat 10
                          eq_refl _ _))).
  - lra.
  - vm_compute. lia.
Defined.
End CullLocalCase.

(** ** Two runs of cullDirectional over two cascades *)

Section FlatTwoCascades.
Local Open Scope R_scope.

Lemma twoCascade_splits :
  generateSplitDistances (set_visibleThisFrame twoCascadeLight true) (Fin 1) (Fin 3)
  = twoCascadeSplit.
Proof.
  unfold generateSplitDistances, twoCascadeSplit. f_equal.
  cbn [seq fold_left numCascades twoCascadeLight set_visibleThisFrame
       _shadowCascadeDistances length replicate Nat.sub].
  rewrite (splitDistance_fin _ 1 3 0 1) by (lra || (cbn; lia) || done).
  cbn. f_equal. f_equal. unfold splitR, unit_clamp.
  rewrite decide_False by lra. rewrite decide_True by lra.
  cbn [numCascades set_visibleThisFrame twoCascadeLight INR]. lra.
Qed.

Lemma snapR_0 (p s : R) : p = 0 -> snapR p s = 0.
Proof.
  intros ->. unfold snapR. rewrite Rmult_0_l.
  rewrite (Zceil_eq 0 0) by lra. lra.
Qed.

Lemma flat_frustumCenter2 :
  @frustumCenter Flat.engine (vec3 0 0 0)
    (@frustum_getPoints Flat.engine flatCamera (Fin 2) (Fin 3))
  = (flatPoints2, vec3 0 0 (-2.5)).
Proof.
  unfold frustumCenter. cbn [frustum_getPoints Flat.engine fold_left transformPoint].
  unfold Vec3.add, vec3, flatPoints2. cbn [x y z JS.add JS.neg app].
  unfold Vec3.mulScalar. cbn [x y z]. rewrite div_fin by lra.
  cbn [JS.mul]. unfold vec3.
  repeat (f_equal; try lra).
Qed.

Lemma flat_frustumRadius2 : frustumRadius flatPoints2 (vec3 0 0 (-2.5)) = Fin 1.5.
Proof.
  apply frustumRadius_const; [lra | done |].
  unfold flatPoints2.
  repeat (apply Forall_cons; split;
          [unfold Vec3.sub, vec3; cbn [x y z JS.sub JS.add JS.neg];
           apply length_fin; lra |]).
  apply Forall_nil_2.
Qed.

(** The culling cameras of the two cascades: at the snapped centers
    (0, 0, -1.5) and (0, 0, -2.5), moved back by 1000000, whatever the
    shadow camera held. *)
Lemma flat_twoCascade_camera0 (cam0 : @ShadowCamera Flat.engine) :
  @cascadeCullCamera Flat.engine twoCascadeSplit (vec3 0 0 0) flatCamera (Fin 1) cam0 0
  = @mkShadowCamera Flat.engine (vec3 0 0 999998.5) (Fin 0) (Fin 2000000) (Fin 1.5).
Proof.
  unfold cascadeCullCamera.
  rewrite (decide_True (P := 0%nat = 0%nat)) by done.
  change (array_get (_shadowCascadeDistances twoCascadeSplit) 0) with (Fin 2).
  change (getWorldTransform (camera_node flatCamera)) with (vec3 0 0 0).
  rewrite flat_frustumCenter, flat_frustumRadius.
  cbn [translateLocal setPosition node_up node_right node_forward Flat.engine].
  change (mkVec3 (Fin 0) (Fin 1) (Fin 0)) with (vec3 0 1 0).
  change (mkVec3 (Fin 1) (Fin 0) (Fin 0)) with (vec3 1 0 0).
  change (mkVec3 (Fin 0) (Fin 0) (Fin (-1))) with (vec3 0 0 (-1)).
  change (_shadowResolution twoCascadeSplit) with 6%nat.
  rewrite snapCenter_fin by (lra || lia).
  unfold Vec3.add, vec3. cbn [x y z JS.add].
  rewrite !snapR_0 by lra.
  repeat f_equal; lra.
Qed.

Lemma flat_twoCascade_camera1 (cam0 : @ShadowCamera Flat.engine) :
  @cascadeCullCamera Flat.engine twoCascadeSplit (vec3 0 0 0) flatCamera (Fin 1) cam0 1
  = @mkShadowCamera Flat.engine (vec3 0 0 999997.5) (Fin 0) (Fin 2000000) (Fin 1.5).
Proof.
  unfold cascadeCullCamera.
  rewrite (decide_False (P := 1%nat = 0%nat)) by done.
  change (array_get (_shadowCascadeDistances twoCascadeSplit) (1 - 1)) with (Fin 2).
  change (array_get (_shadowCascadeDistances twoCascadeSplit) 1) with (Fin 3).
  change (getWorldTransform (camera_node flatCamera)) with (vec3 0 0 0).
  rewrite flat_frustumCenter2, flat_frustumRadius2.
  cbn [translateLocal setPosition node_up node_right node_forward Flat.engine].
  change (mkVec3 (Fin 0) (Fin 1) (Fin 0)) with (vec3 0 1 0).
  change (mkVec3 (Fin 1) (Fin 0) (Fin 0)) with (vec3 1 0 0).
  change (mkVec3 (Fin 0) (Fin 0) (Fin (-1))) with (vec3 0 0 (-1)).
  change (_shadowResolution twoCascadeSplit) with 6%nat.
  rewrite snapCenter_fin by (lra || lia).
  unfold Vec3.add, vec3. cbn [x y z JS.add].
  rewrite !snapR_0 by lra.
  repeat f_equal; lra.
Qed.

Lemma deepCaster_culled0 :
  Flat.isVisible deepCaster
    (@mkShadowCamera Flat.engine (vec3 0 0 999998.5) (Fin 0) (Fin 2000000) (Fin 1.5))
  = false.
Proof.
  unfold Flat.isVisible, deepCaster, vec3.
  cbn [_node nearClip farClip orthoHeight aabb fst snd x y z JS.sub JS.add JS.neg JS.le].
  rewrite (bool_decide_eq_false_2 (999998.5 + - 2000000 <= -1000002)) by lra.
  by rewrite !andb_false_r.
Qed.

Lemma deepCaster_visible1 :
  Flat.isVisible deepCaster
    (@mkShadowCamera Flat.engine (vec3 0 0 999997.5) (Fin 0) (Fin 2000000) (Fin 1.5))
  = true.
Proof.
  unfold Flat.isVisible, deepCaster, vec3.
  cbn [_node nearClip farClip orthoHeight aabb fst snd x y z JS.sub JS.add JS.neg JS.le].
  rewrite !bool_decide_eq_true_2 by lra. done.
Qed.

(** The camera after the tightening in the axis-aligned scene: it ends
    0.1 above the top of the box. *)
Lemma flat_tighten (a b h lx ly lz hx hy hz : R) (near far height : num) :
  lz <= hz -> -9999999999 < lz - h -> hz - h < 9999999999 ->
  @tightenDepthRange Flat.engine
    (@mkShadowCamera Flat.engine (vec3 a b h) near far height)
    (vec3 lx ly lz, vec3 hx hy hz)
  = @mkShadowCamera Flat.engine (vec3 a b (hz + 0.1)) near (Fin (hz - lz + 0.2)) height.
Proof.
  intros Hbox Hlo Hhi.
  set (zs := [hz + - h; hz + - h; lz + - h; lz + - h;
              hz + - h; hz + - h; lz + - h; lz + - h]).
  destruct (@tightenDepthRange_extrema Flat.engine
              (@mkShadowCamera Flat.engine (vec3 a b h) near far height)
              (vec3 lx ly lz, vec3 hx hy hz) zs)
    as (zmin & zmax & Hmin & Hmax & Hbound & Htight).
  - exact (flat_corner_depths a b h lx ly lz hx hy hz).
  - unfold zs. repeat (apply Forall_cons; split; [lra |]). apply Forall_nil_2.
  - rewrite Htight.
    assert (Hl : lz + - h ∈ zs) by (unfold zs; do 2 right; left).
    assert (Hh : hz + - h ∈ zs) by (unfold zs; left).
    pose proof (Hbound _ Hl) as [Hl1 Hl2]. pose proof (Hbound _ Hh) as [Hh1 Hh2].
    assert (Hmin' : lz + - h <= zmin).
    { unfold zs in Hmin.
      repeat (apply elem_of_cons in Hmin as [Hmin|Hmin]; [lra |]).
      by apply elem_of_nil in Hmin. }
    assert (Hmax' : zmax <= hz + - h).
    { unfold zs in Hmax.
      repeat (apply elem_of_cons in Hmax as [Hmax|Hmax]; [lra |]).
      by apply elem_of_nil in Hmax. }
    cbn [_node nearClip orthoHeight translateLocal Flat.engine].
    unfold Vec3.add, vec3. cbn [x y z JS.add].
    replace (a + 0) with a by lra. replace (b + 0) with b by lra.
    replace (h + (zmax + 0.1)) with (hz + 0.1) by lra.
    replace (zmax - zmin + 0.2) with (hz - lz + 0.2) by lra.
    reflexivity.
Qed.

(** A turn of the loop for the first cascade: the caster is culled, the
    shared box stays, and the camera is tightened on it. *)
Lemma flat_cascade0_step (st : @CullDirState Flat.engine) :
  let st' := @cullDirectionalCascade Flat.engine Flat.renderer twoCascadeSplit
               (vec3 0 0 0) [deepCaster] flatCamera (Fin 1) st 0 in
  @visibleSceneAabb Flat.engine st' = @visibleSceneAabb Flat.engine st
  /\ @visibleCasters Flat.engine (@renderData Flat.engine st' 0) = []
  /\ @shadowCamera Flat.engine (@renderData Flat.engine st' 0)
     = @tightenDepthRange Flat.engine
         (@mkShadowCamera Flat.engine (vec3 0 0 999998.5) (Fin 0) (Fin 2000000) (Fin 1.5))
         (@visibleSceneAabb Flat.engine st)
  /\ (forall c : nat, c <> 0%nat ->
        @renderData Flat.engine st' c = @renderData Flat.engine st c).
Proof.
  intros st'.
  destruct (@cullDirectionalCascade_unfold Flat.engine Flat.renderer twoCascadeSplit
              (vec3 0 0 0) [deepCaster] flatCamera (Fin 1) st 0)
    as (Hbox & Hcam & Hvis & Hother).
  fold st' in Hbox, Hcam, Hvis, Hother.
  rewrite flat_twoCascade_camera0, cullShadowCasters_eq in Hbox, Hcam, Hvis.
  cbn [fst List.filter] in Hbox, Hcam, Hvis.
  unfold casterPasses in Hbox, Hcam, Hvis.
  change (@_isVisible Flat.engine Flat.renderer) with Flat.isVisible in Hbox, Hcam, Hvis.
  rewrite deepCaster_culled0 in Hbox, Hcam, Hvis.
  cbn in Hbox, Hcam, Hvis. done.
Qed.

(** A turn of the loop for the second cascade: the caster is listed, and
    its box overwrites the shared box. *)
Lemma flat_cascade1_step (st : @CullDirState Flat.engine) :
  let st' := @cullDirectionalCascade Flat.engine Flat.renderer twoCascadeSplit
               (vec3 0 0 0) [deepCaster] flatCamera (Fin 1) st 1 in
  @visibleSceneAabb Flat.engine st' = (vec3 0 0 (-1000002), vec3 0 0 (-1000002))
  /\ @visibleCasters Flat.engine (@renderData Flat.engine st' 1) = [deepCaster]
  /\ (forall c : nat, c <> 1%nat ->
        @renderData Flat.engine st' c = @renderData Flat.engine st c).
Proof.
  intros st'.
  destruct (@cullDirectionalCascade_unfold Flat.engine Flat.renderer twoCascadeSplit
              (vec3 0 0 0) [deepCaster] flatCamera (Fin 1) st 1)
    as (Hbox & _ & Hvis & Hother).
  fold st' in Hbox, Hvis, Hother.
  rewrite flat_twoCascade_camera1, cullShadowCasters_eq in Hbox, Hvis.
  cbn [fst List.filter] in Hbox, Hvis.
  unfold casterPasses in Hbox, Hvis.
  change (@_isVisible Flat.engine Flat.renderer) with Flat.isVisible in Hbox, Hvis.
  rewrite deepCaster_visible1 in Hbox, Hvis.
  cbn in Hbox, Hvis. done.
Qed.

(** A run of cullDirectional for the two-cascade light is the two turns. *)
Lemma flat_twoCascade_run (st : @CullDirState Flat.engine) :
  snd (@cullDirectional Flat.engine Flat.renderer twoCascadeLight (vec3 0 0 0)
         [deepCaster] flatCamera st)
  = @cullDirectionalCascade Flat.engine Flat.renderer twoCascadeSplit (vec3 0 0 0)
      [deepCaster] flatCamera (Fin 1)
      (@cullDirectionalCascade Flat.engine Flat.renderer twoCascadeSplit (vec3 0 0 0)
         [deepCaster] flatCamera (Fin 1) st 0) 1.
Proof.
  unfold cullDirectional. cbn [snd].
  change (@camera_nearClip Flat.engine flatCamera) with (Fin 1).
  change (shadowDistance (set_visibleThisFrame twoCascadeLight true)) with (Fin 3).
  rewrite twoCascade_splits. reflexivity.
Qed.

(** What a run leaves for the first cascade: the camera tightened on the
    box the run found, and the box of the caster stored. *)
Lemma flat_twoCascade_result (st : @CullDirState Flat.engine) :
  let st' := snd (@cullDirectional Flat.engine Flat.renderer twoCascadeLight (vec3 0 0 0)
                    [deepCaster] flatCamera st) in
  @visibleSceneAabb Flat.engine st' = (vec3 0 0 (-1000002), vec3 0 0 (-1000002))
  /\ @visibleCasters Flat.engine (@renderData Flat.engine st' 0) = []
  /\ @visibleCasters Flat.engine (@renderData Flat.engine st' 1) = [deepCaster]
  /\ @shadowCamera Flat.engine (@renderData Flat.engine st' 0)
     = @tightenDepthRange Flat.engine
         (@mkShadowCamera Flat.engine (vec3 0 0 999998.5) (Fin 0) (Fin 2000000) (Fin 1.5))
         (@visibleSceneAabb Flat.engine st).
Proof.
  intros st'. subst st'. rewrite flat_twoCascade_run.
  destruct (flat_cascade0_step st) as (Hbox0 & Hvis0 & Hcam0 & _).
  destruct (flat_cascade1_step
              (@cullDirectionalCascade Flat.engine Flat.renderer twoCascadeSplit
                 (vec3 0 0 0) [deepCaster] flatCamera (Fin 1) st 0))
    as (Hbox1 & Hvis1 & Hother1).
  split; [done |]. rewrite (Hother1 0%nat) by done. done.
Qed.

(** C4: the code misses the claim when a cascade has no visible caster.
    Two runs of cullDirectional with the same light (two cascades),
    the same viewer camera and the same draw calls: the only caster lies
    in the culling volume of the second cascade, so the first cascade
    lists nothing in both runs and its culling camera is the same, at
    1000000 behind the snapped center.  The first run tightens that
    camera on the box an earlier call left, [0,1]^3, and leaves it at
    z = 1.1 with the far plane 1.2; the second run tightens it on the box
    the second cascade of the first run stored, and leaves it at
    z = -1000001.9 with the far plane 0.2: the two runs end with
    different shadow-camera transforms. *)
Theorem second_run_moves_empty_cascade_camera :
  @visibleCasters Flat.engine (@renderData Flat.engine firstRun 0) = []
  /\ @visibleCasters Flat.engine (@renderData Flat.engine secondRun 0) = []
  /\ @shadowCamera Flat.engine (@renderData Flat.engine firstRun 0)
     = @mkShadowCamera Flat.engine (vec3 0 0 1.1) (Fin 0) (Fin 1.2) (Fin 1.5)
  /\ @shadowCamera Flat.engine (@renderData Flat.engine secondRun 0)
     = @mkShadowCamera Flat.engine (vec3 0 0 (-1000001.9)) (Fin 0) (Fin 0.2) (Fin 1.5)
  /\ @shadowCamera Flat.engine (@renderData Flat.engine firstRun 0)
     <> @shadowCamera Flat.engine (@renderData Flat.engine secondRun 0).
Proof.
  destruct (flat_twoCascade_result flatState) as (Hbox1 & Hvis1 & _ & Hcam1).
  fold firstRun in Hbox1, Hvis1, Hcam1.
  destruct (flat_twoCascade_result firstRun) as (_ & Hvis2 & _ & Hcam2).
  fold secondRun in Hvis2, Hcam2.
  change (@visibleSceneAabb Flat.engine flatState)
    with (vec3 0 0 0, vec3 1 1 1) in Hcam1.
  rewrite flat_tighten in Hcam1 by lra.
  rewrite Hbox1, flat_tighten in Hcam2 by lra.
  assert (H1 : @shadowCamera Flat.engine (@renderData Flat.engine firstRun 0)
               = @mkShadowCamera Flat.engine (vec3 0 0 1.1) (Fin 0) (Fin 1.2) (Fin 1.5)).
  { rewrite Hcam1.
    replace (1 + 0.1) with 1.1 by lra. replace (1 - 0 + 0.2) with 1.2 by lra. done. }
  assert (H2 : @shadowCamera Flat.engine (@renderData Flat.engine secondRun 0)
               = @mkShadowCamera Flat.engine (vec3 0 0 (-1000001.9)) (Fin 0) (Fin 0.2)
                   (Fin 1.5)).
  { rewrite Hcam2.
    replace (-1000002 + 0.1) with (-1000001.9) by lra.
    replace (-1000002 - -1000002 + 0.2) with 0.2 by lra. done. }
  split; [done |]. split; [done |]. split; [done |]. split; [done |].
  rewrite H1, H2. intros Heq. injection Heq as _ Hfar. lra.
Qed.
End FlatTwoCascades.
